(** * Multi-Market Live Monitor: the analytical core, embedded in Rocq

    A shallow embedding of [client/src/lib/indicators.ts],
    [client/src/lib/chanlunEngine.ts] (the Chanlun pipeline, the signal
    deduper, two of the detectors and the signal store) and the
    aggregation of bars of [server/marketData.ts], with the properties of
    the specification stated and settled against it.

    Conventions of the embedding:
    - a JavaScript [number] holding a price or an indicator value is an
      IEEE-754 binary64, modelled by Rocq's primitive [float] (same format,
      same rounding), so [NaN], the infinities and signed zeros are those
      of the source;
    - a [number] that the code uses as a count, an array position, an
      identifier or a timestamp is modelled by [Z];
    - arrays are lists; an object mutated in place is replaced in the
      structure that owns it, which is its only reference at that point;
    - [nanoid()] and [Date.now()] are the two sources of non-determinism:
      the former is an oracle [ids : nat -> string] read at a call counter
      that is threaded through the code, the latter an explicit argument
      of the deduper and, in the detectors, an oracle [clock : nat -> Z]
      read at a counter of its own. *)

From Stdlib Require Import ZArith Bool Floats Lia.
From stdpp Require Import gmap strings list pretty.

Set Warnings "-inexact-float".
Local Open Scope Z_scope.

(** ** JavaScript numbers *)

Module Js.

Definition number := float.

(** The relational operators of the source, on numbers. *)
Definition lt (x y : number) : bool := PrimFloat.ltb x y.
Definition le (x y : number) : bool := PrimFloat.leb x y.
Definition gt (x y : number) : bool := PrimFloat.ltb y x.
Definition ge (x y : number) : bool := PrimFloat.leb y x.
(** [x === y] on two numbers. *)
Definition eq (x y : number) : bool := PrimFloat.eqb x y.

Definition isNaN (x : number) : bool := PrimFloat.is_nan x.

(** [Math.abs]. *)
Definition abs (x : number) : number := PrimFloat.abs x.

(** [Math.max(x, y)]: [NaN] when an argument is; [+0] is larger than [-0]. *)
Definition max (x y : number) : number :=
  if isNaN x || isNaN y then PrimFloat.nan
  else if lt x y then y
  else if lt y x then x
  else if PrimFloat.get_sign x then y else x.

(** [Math.min(x, y)]: [NaN] when an argument is; [-0] is smaller than [+0]. *)
Definition min (x y : number) : number :=
  if isNaN x || isNaN y then PrimFloat.nan
  else if lt x y then x
  else if lt y x then y
  else if PrimFloat.get_sign x then x else y.

(** [Math.max(x, y, z)] and [Math.min(x, y, z)]. *)
Definition max3 (x y z : number) : number := max (max x y) z.
Definition min3 (x y z : number) : number := min (min x y) z.

(** An integer-valued number, as a float (exact below 2^53). *)
Definition ofZ (z : Z) : number :=
  if z <? 0 then PrimFloat.opp (PrimFloat.of_uint63 (Uint63.of_Z (- z)))
  else PrimFloat.of_uint63 (Uint63.of_Z z).

End Js.

(** ** Core type definitions ([types.ts]) *)

Inductive MarketType := fx | cn | hk | us | crypto | commodities.

Inductive Timeframe := TF_1D | TF_4H | TF_15m | TF_1H | TF_5m.

Module OHLCBar.
Record t := mk {
  time : Z;  (* Unix timestamp (seconds) *)
  open : Js.number;
  high : Js.number;
  low : Js.number;
  close : Js.number;
  volume : option Js.number }.
End OHLCBar.

Inductive FractalType := top | bottom.

Module Fractal.
Record t := mk {
  index : Z;
  time : Z;
  price : Js.number;
  type : FractalType }.
End Fractal.

Inductive BiDirection := up | down.

Module Bi.
Record t := mk {
  id : Z;
  direction : BiDirection;
  startFractal : Fractal.t;
  endFractal : Fractal.t;
  kbarCount : Z }.
End Bi.

Module Zhongshu.
Record t := mk {
  id : Z;
  high : Js.number;  (* Z.high = min of three bi highs *)
  low : Js.number;   (* Z.low = max of three bi lows *)
  startTime : Z;
  endTime : Z;
  biIds : list Z;
  isActive : bool }.
End Zhongshu.

Inductive ThirdBuyStatus := candidate | confirmed | invalid.

Module ThirdBuySignal.
Record t := mk {
  id : string;
  zhongshu : Zhongshu.t;
  status : ThirdBuyStatus;
  breakoutTime : Z;
  breakoutPrice : Js.number;
  pullbackLow : option Js.number;
  pullbackTime : option Z;
  confirmTime : option Z;
  confirmPrice : option Js.number;
  symbol : string;
  timeframe : Timeframe;
  market : MarketType }.
End ThirdBuySignal.

Inductive SignalType :=
  | bollinger_breakout_up
  | bollinger_breakout_down
  | macd_golden_cross
  | macd_death_cross
  | rsi_oversold_reversal
  | rsi_overbought_reversal
  | volatility_surge
  | large_body_candle
  | key_level_breakout
  | multi_timeframe_resonance
  | third_buy_candidate
  | third_buy_confirmed.

Module KeyLevels.
Record t := mk {
  zhongshuHigh : option Js.number;
  zhongshuLow : option Js.number;
  pullbackLow : option Js.number;
  confirmPrice : option Js.number }.
End KeyLevels.

Module Signal.
Record t := mk {
  id : string;
  symbol : string;
  market : MarketType;
  timeframe : Timeframe;
  type : SignalType;
  strength : Js.number;  (* 0-100 *)
  price : Js.number;
  time : Z;              (* Unix ms *)
  description : string;
  keyLevels : option KeyLevels.t;
  acknowledged : option bool }.
End Signal.

Module RSIPoint.
Record t := mk { time : Z; value : Js.number }.
End RSIPoint.

Module MACDPoint.
Record t := mk {
  time : Z;
  dif : Js.number;
  dea : Js.number;
  histogram : Js.number }.
End MACDPoint.

Module MAPoint.
Record t := mk { time : Z; value : Js.number }.
End MAPoint.

(** ** Technical indicators ([indicators.ts]) *)

Module Indicators.

(** [a[i]] used as an operand of arithmetic: an index outside the array
    reads [undefined], which arithmetic turns into [NaN]. *)
Definition at_ (a : list Js.number) (i : nat) : Js.number :=
  default PrimFloat.nan (a !! i).

(** [a.reduce((x, y) => x + y, 0)]. *)
Definition sum (a : list Js.number) : Js.number :=
  fold_left PrimFloat.add a 0%float.

(** [let i = from; i < to; i++]: the positions the loop visits. *)
Definition range (from to : nat) : list nat := seq from (to - from).

(** *** EMA

    [period] is a count of bars, a natural number. The loop of the source
    reads [result[i - 1]], the element that the iteration before wrote (or
    the seed written at [period - 1]); it is carried here as [prev]. With
    [period = 0] the seed [0 / 0] lands on the property [result[-1]], which
    is not an element of the array. *)
Fixpoint emaLoop (k : Js.number) (values : list Js.number) (positions : list nat)
    (prev : Js.number) (result : list Js.number) : list Js.number :=
  match positions with
  | [] => result
  | i :: rest =>
      let v := (at_ values i * k + prev * (1 - k))%float in
      emaLoop k values rest v (<[i := v]> result)
  end.

Definition calcEMA (values : list Js.number) (period : nat) : list Js.number :=
  if (length values <? period)%nat then []
  else
    let k := (2 / (Js.ofZ (Z.of_nat period) + 1))%float in
    let result := replicate (length values) PrimFloat.nan in
    (* First EMA = SMA *)
    let seed :=
      (fold_left (fun s i => s + at_ values i) (range 0 period) 0
       / Js.ofZ (Z.of_nat period))%float in
    let result :=
      match period with
      | O => result
      | S p => <[p := seed]> result
      end in
    emaLoop k values (range period (length values)) seed result.

(** *** RSI *)

(** The two lines that the seed position and every later position share:
    [rs = avgLoss === 0 ? 100 : avgGain / avgLoss] and the pushed value
    [100 - 100 / (1 + rs)]. *)
Definition rsiValue (avgGain avgLoss : Js.number) : Js.number :=
  let rs := if Js.eq avgLoss 0%float then 100%float else (avgGain / avgLoss)%float in
  (100 - 100 / (1 + rs))%float.

(** [bars[i].time]; the positions read are inside [bars]. *)
Definition timeAt (bars : list OHLCBar.t) (i : nat) : Z :=
  default 0 (OHLCBar.time <$> bars !! i).

(** The initial averages: the sums of the gains and of the losses over
    the first [period] differences. *)
Definition rsiSeed (closes : list Js.number) (period : nat)
  : Js.number * Js.number :=
  fold_left
    (fun '(avgGain, avgLoss) i =>
       let diff := (at_ closes i - at_ closes (i - 1))%float in
       if Js.gt diff 0%float then ((avgGain + diff)%float, avgLoss)
       else (avgGain, (avgLoss + Js.abs diff)%float))
    (range 1 (period + 1)) (0%float, 0%float).

Fixpoint rsiLoop (bars : list OHLCBar.t) (closes : list Js.number)
    (period : Js.number) (positions : list nat) (avgGain avgLoss : Js.number)
  : list RSIPoint.t :=
  match positions with
  | [] => []
  | i :: rest =>
      let diff := (at_ closes i - at_ closes (i - 1))%float in
      let gain := if Js.gt diff 0%float then diff else 0%float in
      let loss := if Js.lt diff 0%float then Js.abs diff else 0%float in
      let avgGain := ((avgGain * (period - 1) + gain) / period)%float in
      let avgLoss := ((avgLoss * (period - 1) + loss) / period)%float in
      RSIPoint.mk (timeAt bars i) (rsiValue avgGain avgLoss)
      :: rsiLoop bars closes period rest avgGain avgLoss
  end.

Definition calcRSI (bars : list OHLCBar.t) (period : nat) : list RSIPoint.t :=
  if (length bars <? period + 1)%nat then []
  else
    let closes := OHLCBar.close <$> bars in
    let p := Js.ofZ (Z.of_nat period) in
    let '(sumGain, sumLoss) := rsiSeed closes period in
    let avgGain := (sumGain / p)%float in
    let avgLoss := (sumLoss / p)%float in
    RSIPoint.mk (timeAt bars period) (rsiValue avgGain avgLoss)
    :: rsiLoop bars closes p (range (period + 1) (length bars)) avgGain avgLoss.

(** *** ATR *)

(** The true ranges of the bars at positions [1 .. bars.length - 1], with
    [prev] the bar before the first of [bars]. *)
Fixpoint trueRanges (prev : OHLCBar.t) (bars : list OHLCBar.t)
  : list Js.number :=
  match bars with
  | [] => []
  | cur :: rest =>
      let hl := (OHLCBar.high cur - OHLCBar.low cur)%float in
      let hc := Js.abs (OHLCBar.high cur - OHLCBar.close prev)%float in
      let lc := Js.abs (OHLCBar.low cur - OHLCBar.close prev)%float in
      Js.max3 hl hc lc :: trueRanges cur rest
  end.

Fixpoint atrLoop (trs : list Js.number) (period : Js.number)
    (positions : list nat) (atr : Js.number) (result : list Js.number)
  : list Js.number :=
  match positions with
  | [] => result
  | i :: rest =>
      let atr := ((atr * (period - 1) + at_ trs i) / period)%float in
      atrLoop trs period rest atr (<[S i := atr]> result)
  end.

Definition calcATR (bars : list OHLCBar.t) (period : nat) : list Js.number :=
  match bars with
  | [] | [_] => []
  | b0 :: rest =>
      let trs := trueRanges b0 rest in
      let result := replicate (length bars) PrimFloat.nan in
      if (length trs <? period)%nat then result
      else
        let p := Js.ofZ (Z.of_nat period) in
        let atr := (sum (take period trs) / p)%float in
        atrLoop trs p (range period (length trs)) atr (<[period := atr]> result)
  end.

(** *** SMA

    The outer loop starts at [period - 1]; with [period = 0] its first
    iteration, at [-1], writes [result[-1]], which is not an element of
    the array, and the inner loop of every iteration is empty. *)
Definition smaAt (values : list Js.number) (period : nat) (i : nat) : Js.number :=
  (fold_left (fun sum j => sum + at_ values j) (range (i + 1 - period) (i + 1)) 0
   / Js.ofZ (Z.of_nat period))%float.

Fixpoint smaLoop (values : list Js.number) (period : nat) (positions : list nat)
    (result : list Js.number) : list Js.number :=
  match positions with
  | [] => result
  | i :: rest => smaLoop values period rest (<[i := smaAt values period i]> result)
  end.

Definition calcSMA (values : list Js.number) (period : nat) : list Js.number :=
  smaLoop values period (range (period - 1) (length values))
    (replicate (length values) PrimFloat.nan).

(** *** MACD *)

(** [closes.map((_, i) => ...)]: the difference of the two EMAs where
    both are numbers, [NaN] elsewhere ([isNaN(undefined)] is true). *)
Definition difValues (closes emaFast emaSlow : list Js.number) : list Js.number :=
  (fun i =>
     if Js.isNaN (at_ emaFast i) || Js.isNaN (at_ emaSlow i) then PrimFloat.nan
     else (at_ emaFast i - at_ emaSlow i)%float)
  <$> seq 0 (length closes).

(** The last loop of [calcMACD], over the positions that remain, with the
    counter [deaIdx]. [deaRaw[deaIdx] ?? NaN] is [NaN] past the end. *)
Fixpoint macdLoop (bars : list OHLCBar.t) (difs deaRaw : list Js.number)
    (positions : list nat) (deaIdx : nat) : list MACDPoint.t :=
  match positions with
  | [] => []
  | i :: rest =>
      if Js.isNaN (at_ difs i) then macdLoop bars difs deaRaw rest deaIdx
      else
        let dif := at_ difs i in
        let dea := at_ deaRaw deaIdx in
        if Js.isNaN dea then macdLoop bars difs deaRaw rest (S deaIdx)
        else
          MACDPoint.mk (timeAt bars i) dif dea ((dif - dea) * 2)%float
          :: macdLoop bars difs deaRaw rest (S deaIdx)
  end.

Definition calcMACD (bars : list OHLCBar.t) (fast slow signal : nat)
  : list MACDPoint.t :=
  if (length bars <? slow + signal)%nat then []
  else
    let closes := OHLCBar.close <$> bars in
    let emaFast := calcEMA closes fast in
    let emaSlow := calcEMA closes slow in
    let difs := difValues closes emaFast emaSlow in
    (* Signal line = EMA of DIF *)
    let validDif := filter (fun v => Js.isNaN v = false) difs in
    let deaRaw := calcEMA validDif signal in
    macdLoop bars difs deaRaw (range 0 (length bars)) 0.

(** *** Moving average

    [None] is the [TypeError] of reading [bars[-1].time]: with
    [period = 0] the loop starts at [-1]. With a period of at least one
    every position that the loops read is a position of [bars]. *)
Definition maAt (bars : list OHLCBar.t) (period : nat) (i : nat) : MAPoint.t :=
  let sum :=
    fold_left
      (fun sum j => (sum + default PrimFloat.nan (OHLCBar.close <$> bars !! j))%float)
      (range (i + 1 - period) (i + 1)) 0%float in
  MAPoint.mk (timeAt bars i) (sum / Js.ofZ (Z.of_nat period))%float.

Definition calcMA (bars : list OHLCBar.t) (period : nat) : option (list MAPoint.t) :=
  if (length bars <? period)%nat then Some []
  else
    match period with
    | O => None
    | S _ => Some (maAt bars period <$> range (period - 1) (length bars))
    end.

End Indicators.

(** ** The Chanlun engine ([chanlunEngine.ts]) *)

Inductive ConfirmRule := new_high | break_pullback_high.

Module ChanlunParams.
Record t := mk {
  minBiKbars : Z;                      (* minimum K bars in a bi *)
  minBiMoveAtr : Js.number;            (* minimum move in ATR multiples *)
  breakoutAtr : Js.number;             (* breakout threshold (ATR multiples) *)
  pullbackToleranceAtr : Js.number;    (* pullback tolerance into zhongshu *)
  confirmRule : ConfirmRule }.
End ChanlunParams.

Definition DEFAULT_PARAMS (m : MarketType) : ChanlunParams.t :=
  match m with
  | crypto =>
      ChanlunParams.mk 4 0.8%float 0.4%float 0.4%float break_pullback_high
  | _ =>
      ChanlunParams.mk 5 1.0%float 0.5%float 0.3%float break_pullback_high
  end.

(** *** Step 1: containment processing *)

Module ProcessedBar.
Record t := mk {
  originalIndex : Z;
  time : Z;
  high : Js.number;
  low : Js.number;
  close : Js.number }.
End ProcessedBar.

(** The processed bar made of one source bar, at position [i]. *)
Definition processedOf (i : Z) (cur : OHLCBar.t) : ProcessedBar.t :=
  {| ProcessedBar.originalIndex := i;
     ProcessedBar.time := OHLCBar.time cur;
     ProcessedBar.high := OHLCBar.high cur;
     ProcessedBar.low := OHLCBar.low cur;
     ProcessedBar.close := OHLCBar.close cur |}.

(** The array [result] of the source is never empty inside its loop. It is
    kept as its last element [prev = result[result.length - 1]] and the
    elements before it, latest first (so [pp = result[result.length - 2]]
    is the head of [before]). A merge assigns to the fields of [prev],
    the object the array holds: the tail of [result] changes in place. *)
Definition ContainmentState : Type := ProcessedBar.t * list ProcessedBar.t.

(** One iteration of the loop, on the raw bar [cur] at position [i]. *)
Definition containmentStep (i : Z) (cur : OHLCBar.t) (st : ContainmentState)
  : ContainmentState :=
  let '(prev, before) := st in
  let curContainsPrev :=
    Js.ge (OHLCBar.high cur) (ProcessedBar.high prev)
    && Js.le (OHLCBar.low cur) (ProcessedBar.low prev) in
  let prevContainsCur :=
    Js.ge (ProcessedBar.high prev) (OHLCBar.high cur)
    && Js.le (ProcessedBar.low prev) (OHLCBar.low cur) in
  if curContainsPrev || prevContainsCur then
    let isUpTrend :=
      match before with
      | pp :: _ => Js.gt (ProcessedBar.high prev) (ProcessedBar.high pp)
      | [] => true
      end in
    let '(h, l) :=
      if isUpTrend
      then (Js.max (ProcessedBar.high prev) (OHLCBar.high cur),
            Js.max (ProcessedBar.low prev) (OHLCBar.low cur))
      else (Js.min (ProcessedBar.high prev) (OHLCBar.high cur),
            Js.min (ProcessedBar.low prev) (OHLCBar.low cur)) in
    ({| ProcessedBar.originalIndex := i;
        ProcessedBar.time := ProcessedBar.time prev;
        ProcessedBar.high := h;
        ProcessedBar.low := l;
        ProcessedBar.close := OHLCBar.close cur |}, before)
  else (processedOf i cur, prev :: before).

(** [for (let i = ...; i < bars.length; i++)] over the bars that remain. *)
Fixpoint containmentLoop (i : Z) (bars : list OHLCBar.t) (st : ContainmentState)
  : ContainmentState :=
  match bars with
  | [] => st
  | cur :: rest => containmentLoop (i + 1) rest (containmentStep i cur st)
  end.

Definition processContainment (bars : list OHLCBar.t) : list ProcessedBar.t :=
  match bars with
  | [] => []
  | b0 :: rest =>
      let '(prev, before) := containmentLoop 1 rest (processedOf 0 b0, []) in
      rev (prev :: before)
  end.

(** *** Step 2: fractal detection *)

(** The loop body at position [i], with the window [prev; cur; next; ...]
    that starts at position [i - 1]. *)
Fixpoint detectFractalsFrom (i : Z) (window : list ProcessedBar.t)
  : list Fractal.t :=
  match window with
  | prev :: ((cur :: next :: _) as tail) =>
      (if Js.gt (ProcessedBar.high cur) (ProcessedBar.high prev)
          && Js.gt (ProcessedBar.high cur) (ProcessedBar.high next)
       then [Fractal.mk i (ProcessedBar.time cur) (ProcessedBar.high cur) top]
       else if Js.lt (ProcessedBar.low cur) (ProcessedBar.low prev)
               && Js.lt (ProcessedBar.low cur) (ProcessedBar.low next)
       then [Fractal.mk i (ProcessedBar.time cur) (ProcessedBar.low cur) bottom]
       else [])
      ++ detectFractalsFrom (i + 1) tail
  | _ => []
  end.

Definition detectFractals (processed : list ProcessedBar.t) : list Fractal.t :=
  detectFractalsFrom 1 processed.

(** *** Step 3: bi formation *)

#[global] Instance FractalType_eq_dec : EqDecision FractalType.
Proof. solve_decision. Defined.

#[global] Instance BiDirection_eq_dec : EqDecision BiDirection.
Proof. solve_decision. Defined.

(** [atrValues[i]] for an integer [i]; [None] is [undefined] (a negative
    position or one past the end). *)
Definition atZ (a : list Js.number) (i : Z) : option Js.number :=
  if i <? 0 then None else a !! Z.to_nat i.

(** The integers [startIdx, startIdx + 1, ..., endIdx]. *)
Definition zrange (startIdx endIdx : Z) : list Z :=
  (fun k => startIdx + Z.of_nat k) <$> seq 0 (Z.to_nat (endIdx - startIdx + 1)).

(** The loop runs while [i <= endIdx && i < atrValues.length]; once
    [i < atrValues.length] fails it fails for every later [i], so leaving
    the loop there and skipping the positions past the end are the same.
    [isNaN(undefined)] is true: a negative position is skipped. *)
Definition getAvgATR (atrValues : list Js.number) (startIdx endIdx : Z)
  : Js.number :=
  let '(sum, count) :=
    fold_left
      (fun '(sum, count) i =>
         if i <? Z.of_nat (length atrValues) then
           match atZ atrValues i with
           | Some v =>
               if negb (Js.isNaN v) then ((sum + v)%float, (count + 1)%float)
               else (sum, count)
           | None => (sum, count)
           end
         else (sum, count))
      (zrange startIdx endIdx) (0%float, 0%float) in
  if Js.gt count 0%float then (sum / count)%float else 0%float.

(** The array [filtered] of the source is never empty: it is kept as its
    last element and the elements before it, latest first. *)
Definition filterStep (st : Fractal.t * list Fractal.t) (cur : Fractal.t)
  : Fractal.t * list Fractal.t :=
  let '(last, before) := st in
  if bool_decide (Fractal.type cur <> Fractal.type last) then
    (cur, last :: before)
  else
    (* Same type: keep the more extreme one *)
    if bool_decide (Fractal.type cur = top)
       && Js.gt (Fractal.price cur) (Fractal.price last)
    then (cur, before)
    else if bool_decide (Fractal.type cur = bottom)
            && Js.lt (Fractal.price cur) (Fractal.price last)
    then (cur, before)
    else (last, before).

(** Filter alternating top/bottom fractals. *)
Definition filterFractals (f0 : Fractal.t) (rest : list Fractal.t)
  : list Fractal.t :=
  let '(last, before) := fold_left filterStep rest (f0, []) in
  rev (last :: before).

(** The second loop of [formBis], over the pairs
    [(filtered[i], filtered[i + 1])], with the counter [biId]. *)
Fixpoint biLoop (atrValues : list Js.number) (params : ChanlunParams.t)
    (biId : Z) (filtered : list Fractal.t) : list Bi.t :=
  match filtered with
  | start :: ((end_ :: _) as rest) =>
      (* Check minimum K bar count *)
      let kbarCount := Fractal.index end_ - Fractal.index start in
      if kbarCount <? ChanlunParams.minBiKbars params then
        biLoop atrValues params biId rest
      else
        (* Check minimum move *)
        let avgAtr :=
          getAvgATR atrValues (Fractal.index start) (Fractal.index end_) in
        let move := Js.abs (Fractal.price end_ - Fractal.price start)%float in
        if Js.gt avgAtr 0%float
           && Js.lt move (ChanlunParams.minBiMoveAtr params * avgAtr)%float
        then biLoop atrValues params biId rest
        else
          let direction :=
            if bool_decide (Fractal.type start = bottom) then up else down in
          Bi.mk biId direction start end_ kbarCount
          :: biLoop atrValues params (biId + 1) rest
  | _ => []
  end.

Definition formBis (fractals : list Fractal.t) (processed : list ProcessedBar.t)
    (atrValues : list Js.number) (params : ChanlunParams.t) : list Bi.t :=
  match fractals with
  | [] | [_] => []
  | f0 :: rest => biLoop atrValues params 0 (filterFractals f0 rest)
  end.

(** *** Step 4: zhongshu detection *)

Module Range.
Record t := mk { high : Js.number; low : Js.number }.
End Range.

Definition getBiRange (bi : Bi.t) : Range.t :=
  {| Range.high :=
       Js.max (Fractal.price (Bi.startFractal bi)) (Fractal.price (Bi.endFractal bi));
     Range.low :=
       Js.min (Fractal.price (Bi.startFractal bi)) (Fractal.price (Bi.endFractal bi)) |}.

(** [a[a.length - 1]]: [None] is [undefined], on the empty array. *)
Definition lastOf {A : Type} (a : list A) : option A := last a.

(** The state of the loop: the array [zhongshus], latest first (so [lastZ]
    is its head), and the counter [zId]. An extension assigns to [endTime]
    of [lastZ] and pushes onto its [biIds]: the object that the array
    holds changes in place. *)
Definition ZhongshuState : Type := list Zhongshu.t * Z.

(** The extension of [lastZ] by the bi [b3]: the two assignments of the
    source. *)
Definition extendZhongshu (lastZ : Zhongshu.t) (b3 : Bi.t) : Zhongshu.t :=
  {| Zhongshu.id := Zhongshu.id lastZ;
     Zhongshu.high := Zhongshu.high lastZ;
     Zhongshu.low := Zhongshu.low lastZ;
     Zhongshu.startTime := Zhongshu.startTime lastZ;
     Zhongshu.endTime := Fractal.time (Bi.endFractal b3);
     Zhongshu.biIds := Zhongshu.biIds lastZ ++ [Bi.id b3];
     Zhongshu.isActive := Zhongshu.isActive lastZ |}.

(** [lastZ && lastZ.isActive && b1.id >= lastZ.biIds[lastZ.biIds.length - 1]]
    and, inside it, the test that the range of [b3] meets that of
    [lastZ]. A comparison with [undefined] is false. *)
Definition canExtend (lastZ : Zhongshu.t) (b1 b3 : Bi.t) : bool :=
  Zhongshu.isActive lastZ
  && match lastOf (Zhongshu.biIds lastZ) with
     | Some l => Bi.id b1 >=? l
     | None => false
     end
  && (let biRange := getBiRange b3 in
      Js.ge (Range.high biRange) (Zhongshu.low lastZ)
      && Js.le (Range.low biRange) (Zhongshu.high lastZ)).

(** The overlap of the price ranges of three consecutive bis: [zHigh] and
    [zLow]. *)
Definition overlapOf (b1 b2 b3 : Bi.t) : Range.t :=
  (* Get price ranges of three consecutive bis *)
  let range1 := getBiRange b1 in
  let range2 := getBiRange b2 in
  let range3 := getBiRange b3 in
  (* Overlap of all three *)
  {| Range.high := Js.min3 (Range.high range1) (Range.high range2) (Range.high range3);
     Range.low := Js.max3 (Range.low range1) (Range.low range2) (Range.low range3) |}.

(** One iteration of the loop, on the bis [b1 = bis[i]], [b2 = bis[i + 1]],
    [b3 = bis[i + 2]]. *)
Definition zhongshuStep (st : ZhongshuState) (b1 b2 b3 : Bi.t) : ZhongshuState :=
  let '(zhongshus, zId) := st in
  let zHigh := Range.high (overlapOf b1 b2 b3) in
  let zLow := Range.low (overlapOf b1 b2 b3) in
  if Js.le zHigh zLow then st (* No overlap *)
  else
    let pushed :=
      (Zhongshu.mk zId zHigh zLow
         (Fractal.time (Bi.startFractal b1)) (Fractal.time (Bi.endFractal b3))
         [Bi.id b1; Bi.id b2; Bi.id b3] true :: zhongshus, zId + 1) in
    (* Check if existing zhongshu can be extended *)
    match zhongshus with
    | lastZ :: before =>
        if canExtend lastZ b1 b3
        then (extendZhongshu lastZ b3 :: before, zId)
        else pushed
    | [] => pushed
    end.

Fixpoint zhongshuLoop (bis : list Bi.t) (st : ZhongshuState) : ZhongshuState :=
  match bis with
  | b1 :: ((b2 :: b3 :: _) as rest) => zhongshuLoop rest (zhongshuStep st b1 b2 b3)
  | _ => st
  end.

Definition detectZhongshu (bis : list Bi.t) : list Zhongshu.t :=
  if (length bis <? 3)%nat then []
  else rev (fst (zhongshuLoop bis ([], 0))).

(** *** Step 5: third-buy detection *)

(** [bis.findIndex(b => b.id === lastBiId)]; [None] is [-1]. With
    [lastBiId] undefined (no [biIds]) no bi matches. *)
Fixpoint findIndexFrom (lastBiId : Z) (i : nat) (bis : list Bi.t) : option nat :=
  match bis with
  | [] => None
  | b :: rest =>
      if Bi.id b =? lastBiId then Some i else findIndexFrom lastBiId (S i) rest
  end.

Definition findIndex (lastBiId : option Z) (bis : list Bi.t) : option nat :=
  match lastBiId with
  | Some l => findIndexFrom l 0 bis
  | None => None
  end.

(** The test of the breakout loop on one bi: an upward bi that ends above
    [z.high] by at least [breakoutAtr] times the average ATR of its span. *)
Definition isBreakout (atrValues : list Js.number) (params : ChanlunParams.t)
    (z : Zhongshu.t) (bi : Bi.t) : bool :=
  bool_decide (Bi.direction bi = up)
  && Js.gt (Fractal.price (Bi.endFractal bi)) (Zhongshu.high z)
  && (let avgAtr :=
        getAvgATR atrValues (Fractal.index (Bi.startFractal bi))
          (Fractal.index (Bi.endFractal bi)) in
      Js.ge (Fractal.price (Bi.endFractal bi) - Zhongshu.high z)%float
            (ChanlunParams.breakoutAtr params * avgAtr)%float).

(** The breakout loop from position [i] over the bis that remain: the
    first breakout bi and its position. *)
Fixpoint findBreakout (atrValues : list Js.number) (params : ChanlunParams.t)
    (z : Zhongshu.t) (i : nat) (bis : list Bi.t) : option (nat * Bi.t) :=
  match bis with
  | [] => None
  | bi :: rest =>
      if isBreakout atrValues params z bi then Some (i, bi)
      else findBreakout atrValues params z (S i) rest
  end.

Section ThirdBuys.

(** [nanoid()]: the [k]-th call of a run of the program returns [ids k].
    The functions below take the number [n] of calls made so far and
    return it updated. *)
Variable ids : nat -> string.

Variable bis : list Bi.t.
Variable atrValues : list Js.number.
Variable params : ChanlunParams.t.
Variable symbol : string.
Variable timeframe : Timeframe.
Variable market : MarketType.

(** The signal pushed when the breakout has no bi after it. *)
Definition breakoutCandidate (id : string) (z : Zhongshu.t) (breakoutBi : Bi.t)
  : ThirdBuySignal.t :=
  {| ThirdBuySignal.id := id;
     ThirdBuySignal.zhongshu := z;
     ThirdBuySignal.status := candidate;
     ThirdBuySignal.breakoutTime := Fractal.time (Bi.endFractal breakoutBi);
     ThirdBuySignal.breakoutPrice := Fractal.price (Bi.endFractal breakoutBi);
     ThirdBuySignal.pullbackLow := None;
     ThirdBuySignal.pullbackTime := None;
     ThirdBuySignal.confirmTime := None;
     ThirdBuySignal.confirmPrice := None;
     ThirdBuySignal.symbol := symbol;
     ThirdBuySignal.timeframe := timeframe;
     ThirdBuySignal.market := market |}.

(** [candidateSignal]: the candidate with its pullback. *)
Definition pullbackCandidate (id : string) (z : Zhongshu.t)
    (breakoutBi pullbackBi : Bi.t) : ThirdBuySignal.t :=
  {| ThirdBuySignal.id := id;
     ThirdBuySignal.zhongshu := z;
     ThirdBuySignal.status := candidate;
     ThirdBuySignal.breakoutTime := Fractal.time (Bi.endFractal breakoutBi);
     ThirdBuySignal.breakoutPrice := Fractal.price (Bi.endFractal breakoutBi);
     ThirdBuySignal.pullbackLow := Some (Fractal.price (Bi.endFractal pullbackBi));
     ThirdBuySignal.pullbackTime := Some (Fractal.time (Bi.endFractal pullbackBi));
     ThirdBuySignal.confirmTime := None;
     ThirdBuySignal.confirmPrice := None;
     ThirdBuySignal.symbol := symbol;
     ThirdBuySignal.timeframe := timeframe;
     ThirdBuySignal.market := market |}.

(** [{ ...candidateSignal, id: nanoid(), status: 'confirmed', confirmTime,
    confirmPrice }]. *)
Definition confirmedSignal (id : string) (candidateSignal : ThirdBuySignal.t)
    (confirmBi : Bi.t) : ThirdBuySignal.t :=
  {| ThirdBuySignal.id := id;
     ThirdBuySignal.zhongshu := ThirdBuySignal.zhongshu candidateSignal;
     ThirdBuySignal.status := confirmed;
     ThirdBuySignal.breakoutTime := ThirdBuySignal.breakoutTime candidateSignal;
     ThirdBuySignal.breakoutPrice := ThirdBuySignal.breakoutPrice candidateSignal;
     ThirdBuySignal.pullbackLow := ThirdBuySignal.pullbackLow candidateSignal;
     ThirdBuySignal.pullbackTime := ThirdBuySignal.pullbackTime candidateSignal;
     ThirdBuySignal.confirmTime := Some (Fractal.time (Bi.endFractal confirmBi));
     ThirdBuySignal.confirmPrice := Some (Fractal.price (Bi.endFractal confirmBi));
     ThirdBuySignal.symbol := ThirdBuySignal.symbol candidateSignal;
     ThirdBuySignal.timeframe := ThirdBuySignal.timeframe candidateSignal;
     ThirdBuySignal.market := ThirdBuySignal.market candidateSignal |}.

(** The pullback test: [pullbackLow < z.high - tolerance] (the pullback
    entered the zhongshu). *)
Definition pullbackEntered (z : Zhongshu.t) (pullbackBi : Bi.t) : bool :=
  let pullbackLow := Fractal.price (Bi.endFractal pullbackBi) in
  let avgAtr :=
    getAvgATR atrValues (Fractal.index (Bi.startFractal pullbackBi))
      (Fractal.index (Bi.endFractal pullbackBi)) in
  let tolerance := (ChanlunParams.pullbackToleranceAtr params * avgAtr)%float in
  Js.lt pullbackLow (Zhongshu.high z - tolerance)%float.

(** The confirmation condition. *)
Definition confirmation (breakoutBi pullbackBi confirmBi : Bi.t) : bool :=
  match ChanlunParams.confirmRule params with
  | new_high =>
      Js.gt (Fractal.price (Bi.endFractal confirmBi))
            (Fractal.price (Bi.endFractal breakoutBi))
  | break_pullback_high =>
      (* break above pullback start *)
      Js.gt (Fractal.price (Bi.endFractal confirmBi))
            (Fractal.price (Bi.startFractal pullbackBi))
  end.

(** What the body of the loop does once the breakout bi is found at
    [breakoutIdx]: the calls of [nanoid] made so far, updated, and the
    signals pushed (at most one). *)
Definition afterBreakout (z : Zhongshu.t) (breakoutIdx : nat) (breakoutBi : Bi.t)
    (n : nat) : nat * list ThirdBuySignal.t :=
  match bis !! (breakoutIdx + 1)%nat with
  | None =>
      (* Breakout happened but no pullback yet - candidate in progress *)
      (S n, [breakoutCandidate (ids n) z breakoutBi])
  | Some pullbackBi =>
      if bool_decide (Bi.direction pullbackBi <> down) then (n, [])
      else if pullbackEntered z pullbackBi then
        (* Pullback entered zhongshu - candidate invalid *)
        (n, [])
      else
        let candidateSignal := pullbackCandidate (ids n) z breakoutBi pullbackBi in
        match bis !! (breakoutIdx + 2)%nat with
        | None => (S n, [candidateSignal])
        | Some confirmBi =>
            if bool_decide (Bi.direction confirmBi <> up)
            then (S n, [candidateSignal])
            else if confirmation breakoutBi pullbackBi confirmBi
            then (S (S n), [confirmedSignal (ids (S n)) candidateSignal confirmBi])
            else (S n, [candidateSignal])
        end
  end.

(** The first half of the body of [for (const z of zhongshus)]: the bis
    after the zhongshu are searched for the breakout bi. [None] is one of
    the three [continue] of that half. *)
Definition breakoutOf (z : Zhongshu.t) : option (nat * Bi.t) :=
  (* Find bis after the zhongshu *)
  match findIndex (lastOf (Zhongshu.biIds z)) bis with
  | None => None
  | Some lastBiIdx =>
      if Z.of_nat (length bis) - 1 <=? Z.of_nat lastBiIdx then None
      else
        (* Step 1: Find breakout bi (upward bi that breaks Z.high) *)
        findBreakout atrValues params z (lastBiIdx + 1)
          (drop (lastBiIdx + 1) bis)
  end.

(** The body of [for (const z of zhongshus)]. *)
Definition thirdBuyStep (z : Zhongshu.t) (n : nat) : nat * list ThirdBuySignal.t :=
  match breakoutOf z with
  | None => (n, [])
  | Some (breakoutIdx, breakoutBi) => afterBreakout z breakoutIdx breakoutBi n
  end.

Fixpoint thirdBuyLoop (zhongshus : list Zhongshu.t) (n : nat)
    (signals : list ThirdBuySignal.t) : nat * list ThirdBuySignal.t :=
  match zhongshus with
  | [] => (n, signals)
  | z :: rest =>
      let '(n', pushed) := thirdBuyStep z n in
      thirdBuyLoop rest n' (signals ++ pushed)
  end.

(** [detectThirdBuys], started after [n] calls of [nanoid]: the calls
    made when it returns, and its result. *)
Definition detectThirdBuys (zhongshus : list Zhongshu.t) (n : nat)
  : nat * list ThirdBuySignal.t :=
  thirdBuyLoop zhongshus n [].

End ThirdBuys.

(** *** Main entry: the full Chanlun analysis *)

(** [Partial<ChanlunParams>]: a field that is absent is [None]. *)
Module PartialParams.
Record t := mk {
  minBiKbars : option Z;
  minBiMoveAtr : option Js.number;
  breakoutAtr : option Js.number;
  pullbackToleranceAtr : option Js.number;
  confirmRule : option ConfirmRule }.
Definition none : t := mk None None None None None.
End PartialParams.

(** [{ ...DEFAULT_PARAMS[market], ...params }]. *)
Definition mergeParams (d : ChanlunParams.t) (params : PartialParams.t)
  : ChanlunParams.t :=
  {| ChanlunParams.minBiKbars :=
       default (ChanlunParams.minBiKbars d) (PartialParams.minBiKbars params);
     ChanlunParams.minBiMoveAtr :=
       default (ChanlunParams.minBiMoveAtr d) (PartialParams.minBiMoveAtr params);
     ChanlunParams.breakoutAtr :=
       default (ChanlunParams.breakoutAtr d) (PartialParams.breakoutAtr params);
     ChanlunParams.pullbackToleranceAtr :=
       default (ChanlunParams.pullbackToleranceAtr d)
               (PartialParams.pullbackToleranceAtr params);
     ChanlunParams.confirmRule :=
       default (ChanlunParams.confirmRule d) (PartialParams.confirmRule params) |}.

Module ChanlunResult.
Record t := mk {
  processedBars : list ProcessedBar.t;
  fractals : list Fractal.t;
  bis : list Bi.t;
  zhongshus : list Zhongshu.t;
  thirdBuys : list ThirdBuySignal.t }.
End ChanlunResult.

(** [runChanlun], started after [n] calls of [nanoid]: the calls made when
    it returns, and its result. *)
Definition runChanlun (ids : nat -> string) (bars : list OHLCBar.t)
    (market : MarketType) (symbol : string) (timeframe : Timeframe)
    (params : PartialParams.t) (n : nat) : nat * ChanlunResult.t :=
  let p := mergeParams (DEFAULT_PARAMS market) params in
  let atrValues := Indicators.calcATR bars 14 in
  let processedBars := processContainment bars in
  let fractals := detectFractals processedBars in
  let bis := formBis fractals processedBars atrValues p in
  let zhongshus := detectZhongshu bis in
  let '(n', thirdBuys) :=
    detectThirdBuys ids bis atrValues p symbol timeframe market zhongshus n in
  (n', ChanlunResult.mk processedBars fractals bis zhongshus thirdBuys).

(** ** The signal engine: deduplication and the signal store *)

Module SignalEngine.

(** Signal deduplication window (ms). *)
Definition DEDUP_WINDOW_MS : Z := 5 * 60 * 1000. (* 5 minutes *)

Definition timeframeName (tf : Timeframe) : string :=
  match tf with
  | TF_1D => "1D" | TF_4H => "4H" | TF_15m => "15m" | TF_1H => "1H"
  | TF_5m => "5m"
  end.

Definition signalTypeName (type : SignalType) : string :=
  match type with
  | bollinger_breakout_up => "bollinger_breakout_up"
  | bollinger_breakout_down => "bollinger_breakout_down"
  | macd_golden_cross => "macd_golden_cross"
  | macd_death_cross => "macd_death_cross"
  | rsi_oversold_reversal => "rsi_oversold_reversal"
  | rsi_overbought_reversal => "rsi_overbought_reversal"
  | volatility_surge => "volatility_surge"
  | large_body_candle => "large_body_candle"
  | key_level_breakout => "key_level_breakout"
  | multi_timeframe_resonance => "multi_timeframe_resonance"
  | third_buy_candidate => "third_buy_candidate"
  | third_buy_confirmed => "third_buy_confirmed"
  end.

Definition dedupKey (symbol : string) (timeframe : Timeframe) (type : SignalType)
  : string :=
  symbol +:+ ":" +:+ timeframeName timeframe +:+ ":" +:+ signalTypeName type.

(** [signalHistory]: key -> last trigger time. The module-level map is
    passed in and returned; [now] is what [Date.now()] returns at the
    call, in milliseconds. *)
Definition isDuplicate (signalHistory : gmap string Z) (now : Z)
    (symbol : string) (timeframe : Timeframe) (type : SignalType) : bool :=
  let key := dedupKey symbol timeframe type in
  match signalHistory !! key with
  | None => false                           (* [!undefined] *)
  | Some last =>
      if last =? 0 then false               (* [!0] *)
      else now - last <? DEDUP_WINDOW_MS
  end.

Definition markTriggered (signalHistory : gmap string Z) (now : Z)
    (symbol : string) (timeframe : Timeframe) (type : SignalType)
  : gmap string Z :=
  <[dedupKey symbol timeframe type := now]> signalHistory.

(** *** Timeframe weight for scoring *)
Definition TF_WEIGHT (timeframe : Timeframe) : Js.number :=
  match timeframe with
  | TF_1D => 3.0 | TF_4H => 2.0 | TF_1H => 1.5 | TF_15m => 1.0 | TF_5m => 0.7
  end%float.

(** [Math.max(...xs)] and [Math.min(...xs)]: the arguments are compared one
    after the other, from [-Infinity] and from [Infinity]. *)
Definition mathMax (xs : list Js.number) : Js.number :=
  fold_left Js.max xs PrimFloat.neg_infinity.
Definition mathMin (xs : list Js.number) : Js.number :=
  fold_left Js.min xs PrimFloat.infinity.

(** [a.slice(start, end)] with both bounds negative: the positions from
    [a.length - back] (or 0) up to [a.length - stop], excluded. *)
Definition sliceFromEnd {A} (a : list A) (back stop : nat) : list A :=
  let first := (length a - back)%nat in
  take (length a - stop - first) (drop first a).

(** *** The world of the detectors

    The detection functions read and write the module-level
    [signalHistory], draw identifiers from [nanoid] and read the clock with
    [Date.now()]. The world records the map and how many identifiers and
    clock readings were drawn; [ids] and [clock] give the values drawn, in
    order. [toFixed x d] stands for [x.toFixed(d)]. *)
Module World.
Record t := mk {
  signalHistory : gmap string Z;
  nanoidCalls : nat;
  clockReads : nat }.
End World.

Section Detectors.

Variable ids : nat -> string.
Variable clock : nat -> Z.
Variable toFixed : Js.number -> nat -> string.

Definition nanoid (w : World.t) : string * World.t :=
  (ids (World.nanoidCalls w),
   World.mk (World.signalHistory w) (S (World.nanoidCalls w)) (World.clockReads w)).

Definition dateNow (w : World.t) : Z * World.t :=
  (clock (World.clockReads w),
   World.mk (World.signalHistory w) (World.nanoidCalls w) (S (World.clockReads w))).

(** [isDuplicate] in the world: the clock is read only when the key has a
    truthy entry. *)
Definition isDuplicateNow (w : World.t) (symbol : string) (timeframe : Timeframe)
    (type : SignalType) : bool * World.t :=
  match World.signalHistory w !! dedupKey symbol timeframe type with
  | None => (false, w)
  | Some last =>
      if last =? 0 then (false, w)
      else
        let '(now, w') := dateNow w in
        (isDuplicate (World.signalHistory w) now symbol timeframe type, w')
  end.

(** [markTriggered] in the world. *)
Definition markTriggeredNow (w : World.t) (symbol : string) (timeframe : Timeframe)
    (type : SignalType) : World.t :=
  let '(now, w') := dateNow w in
  World.mk (markTriggered (World.signalHistory w') now symbol timeframe type)
    (World.nanoidCalls w') (World.clockReads w').

Definition detectMACDSignals (macd : list MACDPoint.t) (symbol : string)
    (timeframe : Timeframe) (market : MarketType) (currentPrice : Js.number)
    (w : World.t) : list Signal.t * World.t :=
  if (length macd <? 2)%nat then ([], w)
  else
    match macd !! (length macd - 1)%nat, macd !! (length macd - 2)%nat with
    | Some last, Some prev =>
        (* Golden cross: DIF crosses above DEA *)
        let '(signals, w) :=
          if Js.le (MACDPoint.dif prev) (MACDPoint.dea prev)
             && Js.gt (MACDPoint.dif last) (MACDPoint.dea last)
          then
            let '(duplicate, w) :=
              isDuplicateNow w symbol timeframe macd_golden_cross in
            if duplicate then ([], w)
            else
              let strength := (30 + TF_WEIGHT timeframe * 12)%float in
              (* Near zero axis bonus *)
              let strength :=
                if Js.lt (Js.abs (MACDPoint.dif last))
                         (Js.abs (MACDPoint.dif last) * 0.1)%float
                then (strength + 10)%float else strength in
              let '(id, w) := nanoid w in
              let '(now, w) := dateNow w in
              let signal :=
                {| Signal.id := id;
                   Signal.symbol := symbol;
                   Signal.market := market;
                   Signal.timeframe := timeframe;
                   Signal.type := macd_golden_cross;
                   Signal.strength := Js.min 100%float strength;
                   Signal.price := currentPrice;
                   Signal.time := now;
                   Signal.description :=
                     symbol +:+ " MACD 金叉 (DIF="
                     +:+ toFixed (MACDPoint.dif last) 4 +:+ ", DEA="
                     +:+ toFixed (MACDPoint.dea last) 4 +:+ ")";
                   Signal.keyLevels := None;
                   Signal.acknowledged := None |} in
              ([signal], markTriggeredNow w symbol timeframe macd_golden_cross)
          else ([], w) in
        (* Death cross: DIF crosses below DEA *)
        if Js.ge (MACDPoint.dif prev) (MACDPoint.dea prev)
           && Js.lt (MACDPoint.dif last) (MACDPoint.dea last)
        then
          let '(duplicate, w) :=
            isDuplicateNow w symbol timeframe macd_death_cross in
          if duplicate then (signals, w)
          else
            let strength := Js.min 100%float (30 + TF_WEIGHT timeframe * 12)%float in
            let '(id, w) := nanoid w in
            let '(now, w) := dateNow w in
            let signal :=
              {| Signal.id := id;
                 Signal.symbol := symbol;
                 Signal.market := market;
                 Signal.timeframe := timeframe;
                 Signal.type := macd_death_cross;
                 Signal.strength := strength;
                 Signal.price := currentPrice;
                 Signal.time := now;
                 Signal.description :=
                   symbol +:+ " MACD 死叉 (DIF="
                   +:+ toFixed (MACDPoint.dif last) 4 +:+ ", DEA="
                   +:+ toFixed (MACDPoint.dea last) 4 +:+ ")";
                 Signal.keyLevels := None;
                 Signal.acknowledged := None |} in
            (signals ++ [signal],
             markTriggeredNow w symbol timeframe macd_death_cross)
        else (signals, w)
    | _, _ => ([], w)
    end.

(** [prevLow] is computed by the source and not used. *)
Definition detectKeyLevelBreakout (bars : list OHLCBar.t) (symbol : string)
    (timeframe : Timeframe) (market : MarketType) (w : World.t)
  : list Signal.t * World.t :=
  if (length bars <? 20)%nat then ([], w)
  else
    let lookback := (20 `min` (length bars - 1))%nat in
    let recentBars := sliceFromEnd bars (lookback + 1) 1 in
    match bars !! (length bars - 1)%nat, bars !! (length bars - 2)%nat with
    | Some lastBar, Some prevBar =>
        let prevHigh := mathMax (OHLCBar.high <$> recentBars) in
        if Js.le (OHLCBar.close prevBar) prevHigh
           && Js.gt (OHLCBar.close lastBar) prevHigh
        then
          let '(duplicate, w) :=
            isDuplicateNow w symbol timeframe key_level_breakout in
          if duplicate then ([], w)
          else
            let strength := Js.min 100%float (45 + TF_WEIGHT timeframe * 15)%float in
            let '(id, w) := nanoid w in
            let '(now, w) := dateNow w in
            let signal :=
              {| Signal.id := id;
                 Signal.symbol := symbol;
                 Signal.market := market;
                 Signal.timeframe := timeframe;
                 Signal.type := key_level_breakout;
                 Signal.strength := strength;
                 Signal.price := OHLCBar.close lastBar;
                 Signal.time := now;
                 Signal.description :=
                   symbol +:+ " 突破近" +:+ pretty lookback +:+ "根K线前高 "
                   +:+ toFixed prevHigh 4;
                 Signal.keyLevels :=
                   Some (KeyLevels.mk (Some prevHigh) None None None);
                 Signal.acknowledged := None |} in
            ([signal], markTriggeredNow w symbol timeframe key_level_breakout)
        else ([], w)
    | _, _ => ([], w)
    end.

(** [a ?? b]. *)
Definition orElse {A} (a : option A) (b : A) : A := default b a.

(** The number nearest to the integer [z]: [z] itself when it has at most
    53 significant bits, and otherwise [z] rounded to 53 significant bits,
    to nearest, ties to even. (Past the largest number, about 1.8e308, the
    source has [Infinity], which is no time: the embedding is for integers
    below it.) *)
Definition roundInteger (z : Z) : Z :=
  if Z.abs z <? 2 ^ 53 then z
  else
    let dropped := Z.log2 (Z.abs z) - 52 in
    let significand := Z.abs z / 2 ^ dropped in
    let remainder := Z.abs z mod 2 ^ dropped in
    let half := 2 ^ (dropped - 1) in
    let up :=
      (half <? remainder) || ((remainder =? half) && Z.odd significand) in
    Z.sgn z * ((if up then significand + 1 else significand) * 2 ^ dropped).

(** [x * y] on two integer-valued numbers: the exact product, rounded. *)
Definition mulInteger (x y : Z) : Z := roundInteger (x * y).

Definition convertThirdBuyToSignal (tb : ThirdBuySignal.t) : Signal.t :=
  let isConfirmed :=
    match ThirdBuySignal.status tb with confirmed => true | _ => false end in
  let type := if isConfirmed then third_buy_confirmed else third_buy_candidate in
  let strength := (if isConfirmed then 85 else 55)%float in
  {| Signal.id := ThirdBuySignal.id tb;
     Signal.symbol := ThirdBuySignal.symbol tb;
     Signal.market := ThirdBuySignal.market tb;
     Signal.timeframe := ThirdBuySignal.timeframe tb;
     Signal.type := type;
     Signal.strength := strength;
     Signal.price :=
       orElse (ThirdBuySignal.confirmPrice tb)
         (orElse (ThirdBuySignal.pullbackLow tb) (ThirdBuySignal.breakoutPrice tb));
     Signal.time :=
       mulInteger
         (orElse (ThirdBuySignal.confirmTime tb)
            (orElse (ThirdBuySignal.pullbackTime tb)
               (ThirdBuySignal.breakoutTime tb)))
         1000;
     Signal.description :=
       if isConfirmed then
         ThirdBuySignal.symbol tb +:+ " 三买确认 中枢["
         +:+ toFixed (Zhongshu.low (ThirdBuySignal.zhongshu tb)) 4 +:+ "-"
         +:+ toFixed (Zhongshu.high (ThirdBuySignal.zhongshu tb)) 4 +:+ "]"
       else
         ThirdBuySignal.symbol tb +:+ " 三买候选 回抽未入中枢 低点"
         +:+ match ThirdBuySignal.pullbackLow tb with
             | Some low => toFixed low 4
             | None => "-"
             end;
     Signal.keyLevels :=
       Some (KeyLevels.mk
               (Some (Zhongshu.high (ThirdBuySignal.zhongshu tb)))
               (Some (Zhongshu.low (ThirdBuySignal.zhongshu tb)))
               (ThirdBuySignal.pullbackLow tb)
               (ThirdBuySignal.confirmPrice tb));
     Signal.acknowledged := None |}.

End Detectors.

(** *** Global signal store

    A listener is a callback of the caller; what the store does with it is
    to call it with the array of signals. A listener is named by a number
    and a call is recorded as the pair of the listener and its argument.
    [listeners] is a [Set]: it keeps insertion order and holds a callback
    once. *)
Module SignalStore.
Record t := mk {
  signals : list Signal.t;
  listeners : list nat;
  maxSignals : nat }.

Definition new : t := mk [] [] 500.

Definition Call : Type := nat * list Signal.t.

(** [this.listeners.forEach(cb => cb(this.signals))]. *)
Definition notify (store : t) : list Call :=
  (fun cb => (cb, signals store)) <$> listeners store.

(** The store after the call and the calls of listeners it made. *)
Definition addSignals (store : t) (newSignals : list Signal.t) : t * list Call :=
  if (length newSignals =? 0)%nat then (store, [])
  else
    let store' :=
      mk (take (maxSignals store) (newSignals ++ signals store))
         (listeners store) (maxSignals store) in
    (store', notify store').

Definition getSignals (store : t) : list Signal.t := signals store.

Definition subscribe (store : t) (cb : nat) : t :=
  if bool_decide (cb ∈ listeners store) then store
  else mk (signals store) (listeners store ++ [cb]) (maxSignals store).

(** The function that [subscribe] returns. *)
Definition unsubscribe (store : t) (cb : nat) : t :=
  mk (signals store) (filter (fun c => c <> cb) (listeners store))
     (maxSignals store).

Definition clearAll (store : t) : t * list Call :=
  let store' := mk [] (listeners store) (maxSignals store) in
  (store', notify store').

End SignalStore.

End SignalEngine.

(** ** Market data service ([server/marketData.ts]) *)

Module MarketData.

(** A bar as the server holds it: the volume is always there. *)
Module Kline.
Record t := mk {
  time : Z;
  open : Js.number;
  high : Js.number;
  low : Js.number;
  close : Js.number;
  volume : Js.number }.
End Kline.

(** The bar made of a group that starts with [first]. *)
Definition aggregateGroup (first : Kline.t) (group : list Kline.t) : Kline.t :=
  {| Kline.time := Kline.time first;
     Kline.open := Kline.open first;
     Kline.high := SignalEngine.mathMax (Kline.high <$> group);
     Kline.low := SignalEngine.mathMin (Kline.low <$> group);
     Kline.close := default PrimFloat.nan (Kline.close <$> last group);
     Kline.volume := fold_left (fun s b => s + Kline.volume b) group 0 |}%float.

(** The [while] loop of [aggregateTo4H], from position [i] with [result]
    filled so far; [fuel] bounds the number of iterations. *)
Fixpoint aggregateLoop (fuel : nat) (bars : list Kline.t) (i : nat)
    (result : list Kline.t) : list Kline.t :=
  match fuel with
  | O => result
  | S fuel =>
      if (i <? length bars)%nat then
        let group := take 4 (drop i bars) in
        match group with
        | [] => result (* break *)
        | first :: _ =>
            aggregateLoop fuel bars (i + 4) (result ++ [aggregateGroup first group])
        end
      else result
  end.

(** Every iteration advances [i] by 4: [bars.length] iterations are more
    than the loop makes. *)
Definition aggregateTo4H (bars : list Kline.t) : list Kline.t :=
  aggregateLoop (length bars) bars 0 [].

End MarketData.

(** * Properties

    ** The order of the relational operators

    What the proofs below use of IEEE comparison: [<=] is transitive, [<]
    and [>=] exclude each other, and two numbers that compare neither way
    include a [NaN] (a number [x] is not [NaN] exactly when [x <= x]). *)

Lemma SFcompare_sym (a b : spec_float) :
  SFcompare b a = option_map CompOpp (SFcompare a b).
Proof.
  destruct a as [sa|sa| |sa ma ea], b as [sb|sb| |sb mb eb]; simpl;
    try reflexivity;
    try (destruct sa; reflexivity); try (destruct sb; reflexivity);
    try (destruct sa, sb; reflexivity).
  destruct sa, sb; simpl; try reflexivity; f_equal;
    rewrite (Z.compare_antisym ea eb);
    destruct (ea ?= eb)%Z eqn:E; simpl; try reflexivity;
    rewrite !Pos.compare_cont_spec; simpl;
    rewrite (Pos.compare_antisym ma mb);
    destruct (ma ?= mb)%positive; reflexivity.
Qed.

Lemma SFleb_trans (a b c : spec_float) :
  SFleb a b = true -> SFleb b c = true -> SFleb a c = true.
Proof.
  unfold SFleb.
  destruct a as [sa|sa| |sa ma ea], b as [sb|sb| |sb mb eb],
           c as [sc|sc| |sc mc ec]; simpl;
    try (intros; discriminate); try (intros; reflexivity);
    try (destruct sa; simpl; intros; (discriminate || reflexivity));
    try (destruct sb; simpl; intros; (discriminate || reflexivity));
    try (destruct sc; simpl; intros; (discriminate || reflexivity));
    try (destruct sa, sb; simpl; intros; (discriminate || reflexivity));
    try (destruct sa, sc; simpl; intros; (discriminate || reflexivity));
    try (destruct sb, sc; simpl; intros; (discriminate || reflexivity)).
  all: destruct sa, sb, sc; simpl; try (intros; (discriminate || reflexivity)).
  all: rewrite !Pos.compare_cont_spec.
  all: destruct (Z.compare_spec ea eb), (Z.compare_spec eb ec),
         (Z.compare_spec ea ec); simpl;
       try (intros; (discriminate || reflexivity)); try lia.
  all: destruct (Pos.compare_spec ma mb), (Pos.compare_spec mb mc),
         (Pos.compare_spec ma mc); simpl;
       try (intros; (discriminate || reflexivity)); try lia.
Qed.

Lemma SFcompare_refl (a : spec_float) :
  SFcompare a a = Some Eq \/ SFcompare a a = None.
Proof.
  destruct a as [sa|sa| |sa ma ea]; simpl; auto.
  - destruct sa; auto.
  - left. destruct sa; rewrite Z.compare_refl, Pos.compare_cont_spec,
      Pos.compare_refl; reflexivity.
Qed.

Lemma SFcompare_nan (a b : spec_float) :
  SFcompare a b = None -> SFcompare a a = None \/ SFcompare b b = None.
Proof.
  destruct a as [sa|sa| |sa ma ea], b as [sb|sb| |sb mb eb]; simpl; auto;
    discriminate.
Qed.

Lemma SFcompare_some (a b : spec_float) (c : comparison) :
  SFcompare a b = Some c ->
  SFcompare a a = Some Eq /\ SFcompare b b = Some Eq.
Proof.
  intros H.
  destruct (SFcompare_refl a) as [Ha|Ha], (SFcompare_refl b) as [Hb|Hb];
    auto; exfalso;
    destruct a as [sa|sa| |sa ma ea], b as [sb|sb| |sb mb eb];
    simpl in *; try discriminate;
    try (destruct sa; discriminate); try (destruct sb; discriminate).
Qed.

Module JsOrder.
Import Js.

Ltac to_spec :=
  unfold Js.le, Js.lt, Js.ge, Js.gt, Js.eq, Js.isNaN, PrimFloat.is_nan in *;
  rewrite ?FloatAxioms.leb_spec, ?FloatAxioms.ltb_spec, ?FloatAxioms.eqb_spec in *;
  unfold SFleb, SFltb, SFeqb in *.

Lemma ge_le (a b : number) : ge a b = le b a.
Proof. reflexivity. Qed.

Lemma gt_lt (a b : number) : gt a b = lt b a.
Proof. reflexivity. Qed.

Lemma le_trans (a b c : number) :
  le a b = true -> le b c = true -> le a c = true.
Proof. unfold le. rewrite !FloatAxioms.leb_spec. apply SFleb_trans. Qed.

Lemma lt_le (a b : number) : lt a b = true -> le a b = true.
Proof.
  to_spec. destruct (SFcompare (Prim2SF a) (Prim2SF b)) as [[]|];
    intros; congruence.
Qed.

Lemma lt_not_le (a b : number) : lt a b = true -> le b a = false.
Proof.
  to_spec. rewrite (SFcompare_sym (Prim2SF a) (Prim2SF b)).
  destruct (SFcompare (Prim2SF a) (Prim2SF b)) as [[]|]; simpl;
    intros; congruence.
Qed.

Lemma le_not_lt_le (a b : number) :
  le a b = true -> lt a b = false -> le b a = true.
Proof.
  to_spec. rewrite (SFcompare_sym (Prim2SF a) (Prim2SF b)).
  destruct (SFcompare (Prim2SF a) (Prim2SF b)) as [[]|]; simpl;
    intros; congruence.
Qed.

(** A number that takes part in a comparison that holds is not [NaN]. *)
Lemma le_refl_l (a b : number) : le a b = true -> le a a = true.
Proof.
  to_spec. destruct (SFcompare (Prim2SF a) (Prim2SF b)) as [c|] eqn:E;
    [|discriminate].
  destruct (SFcompare_some _ _ _ E) as [-> _]. reflexivity.
Qed.

Lemma le_refl_r (a b : number) : le a b = true -> le b b = true.
Proof.
  to_spec. destruct (SFcompare (Prim2SF a) (Prim2SF b)) as [c|] eqn:E;
    [|discriminate].
  destruct (SFcompare_some _ _ _ E) as [_ ->]. reflexivity.
Qed.

(** Two numbers neither of which is [NaN] compare one way or the other. *)
Lemma le_total (a b : number) :
  le a a = true -> le b b = true -> le a b = true \/ lt b a = true.
Proof.
  to_spec. rewrite (SFcompare_sym (Prim2SF a) (Prim2SF b)).
  destruct (SFcompare (Prim2SF a) (Prim2SF b)) as [[]|] eqn:E; simpl; auto.
  destruct (SFcompare_nan _ _ E) as [->| ->]; intros; discriminate.
Qed.

Lemma isNaN_false (a : number) : isNaN a = false <-> le a a = true.
Proof.
  to_spec. destruct (SFcompare_refl (Prim2SF a)) as [->| ->]; simpl;
    split; intros; try reflexivity; discriminate.
Qed.

Section MaxMin.
Variables x y : number.
Hypothesis Hx : le x x = true.
Hypothesis Hy : le y y = true.

Lemma max_cases : max x y = x \/ max x y = y.
Proof.
  unfold max. apply isNaN_false in Hx, Hy. rewrite Hx, Hy. simpl.
  destruct (lt x y), (lt y x), (get_sign x); auto.
Qed.

Lemma min_cases : min x y = x \/ min x y = y.
Proof.
  unfold min. apply isNaN_false in Hx, Hy. rewrite Hx, Hy. simpl.
  destruct (lt x y), (lt y x), (get_sign x); auto.
Qed.

Lemma le_max_l : le x (max x y) = true.
Proof.
  unfold max. rewrite (proj2 (isNaN_false x) Hx), (proj2 (isNaN_false y) Hy).
  simpl. destruct (lt x y) eqn:E1; [now apply lt_le|].
  destruct (lt y x) eqn:E2; [assumption|].
  destruct (le_total x y Hx Hy) as [H|H]; [|congruence].
  destruct (get_sign x); assumption.
Qed.

Lemma le_max_r : le y (max x y) = true.
Proof.
  unfold max. rewrite (proj2 (isNaN_false x) Hx), (proj2 (isNaN_false y) Hy).
  simpl. destruct (lt x y) eqn:E1; [assumption|].
  destruct (lt y x) eqn:E2; [now apply lt_le|].
  destruct (le_total y x Hy Hx) as [H|H]; [|congruence].
  destruct (get_sign x); assumption.
Qed.

Lemma le_min_l : le (min x y) x = true.
Proof.
  unfold min. rewrite (proj2 (isNaN_false x) Hx), (proj2 (isNaN_false y) Hy).
  simpl. destruct (lt x y) eqn:E1; [assumption|].
  destruct (lt y x) eqn:E2; [now apply lt_le|].
  destruct (le_total y x Hy Hx) as [H|H]; [|congruence].
  destruct (get_sign x); assumption.
Qed.

Lemma le_min_r : le (min x y) y = true.
Proof.
  unfold min. rewrite (proj2 (isNaN_false x) Hx), (proj2 (isNaN_false y) Hy).
  simpl. destruct (lt x y) eqn:E1; [now apply lt_le|].
  destruct (lt y x) eqn:E2; [assumption|].
  destruct (le_total x y Hx Hy) as [H|H]; [|congruence].
  destruct (get_sign x); assumption.
Qed.

End MaxMin.

End JsOrder.

(** ** Lists whose neighbours are related *)

(** [R] holds of every two neighbours of the list. *)
Fixpoint adjacentAll {A : Type} (R : A -> A -> bool) (l : list A) : bool :=
  match l with
  | a :: ((b :: _) as tail) => R a b && adjacentAll R tail
  | _ => true
  end.

Section AdjacentAll.
Context {A : Type} (R : A -> A -> bool).

Lemma adjacentAll_cons (a b : A) (l : list A) :
  adjacentAll R (a :: b :: l) = R a b && adjacentAll R (b :: l).
Proof. reflexivity. Qed.

Lemma adjacentAll_snoc (l : list A) (a b : A) :
  adjacentAll R ((l ++ [a]) ++ [b]) = adjacentAll R (l ++ [a]) && R a b.
Proof.
  induction l as [|x l IH].
  - cbn. destruct (R a b); reflexivity.
  - destruct l as [|y l].
    + cbn. destruct (R x a), (R a b); reflexivity.
    + cbn [app] in *. rewrite !adjacentAll_cons, IH. apply andb_assoc.
Qed.

Lemma adjacentAll_rev (l : list A) :
  (forall a b, R a b = R b a) ->
  adjacentAll R (rev l) = adjacentAll R l.
Proof.
  intros Hsym. induction l as [|a l IH]; [reflexivity|].
  destruct l as [|b l]; [reflexivity|].
  change (rev (a :: b :: l)) with ((rev l ++ [b]) ++ [a]).
  rewrite adjacentAll_snoc.
  change (rev l ++ [b]) with (rev (b :: l)). rewrite IH.
  rewrite adjacentAll_cons, (Hsym b a). apply andb_comm.
Qed.

End AdjacentAll.

(** ** Properties of containment processing *)

(** [a]'s interval [low, high] contains [b]'s, with the comparisons of the
    source ([a.high >= b.high && a.low <= b.low]). *)
Definition containsBar (a b : ProcessedBar.t) : bool :=
  Js.ge (ProcessedBar.high a) (ProcessedBar.high b)
  && Js.le (ProcessedBar.low a) (ProcessedBar.low b).

(** Neither of two bars contains the other. *)
Definition separate (a b : ProcessedBar.t) : bool :=
  negb (containsBar a b) && negb (containsBar b a).

(** No two neighbours of the list contain one another. *)
Definition noAdjacentContainment (l : list ProcessedBar.t) : bool :=
  adjacentAll separate l.

Lemma separate_sym (a b : ProcessedBar.t) : separate a b = separate b a.
Proof. unfold separate. apply andb_comm. Qed.

Lemma noAdjacentContainment_cons (a b : ProcessedBar.t) (l : list ProcessedBar.t) :
  noAdjacentContainment (a :: b :: l)
  = separate a b && noAdjacentContainment (b :: l).
Proof. reflexivity. Qed.

Lemma noAdjacentContainment_rev (l : list ProcessedBar.t) :
  noAdjacentContainment (rev l) = noAdjacentContainment l.
Proof. apply adjacentAll_rev, separate_sym. Qed.

(** A merge keeps the tail apart from the bar before it: in an up trend
    both ends of the tail only rise, in a down trend they only fall. *)
Lemma merge_keeps_separate (pp prev : ProcessedBar.t) (cur : OHLCBar.t) (i : Z) :
  separate prev pp = true ->
  Js.le (ProcessedBar.high prev) (ProcessedBar.high prev) = true ->
  Js.le (OHLCBar.high cur) (OHLCBar.high cur) = true ->
  Js.le (ProcessedBar.low prev) (ProcessedBar.low prev) = true ->
  Js.le (OHLCBar.low cur) (OHLCBar.low cur) = true ->
  let '(h, l) :=
    if Js.gt (ProcessedBar.high prev) (ProcessedBar.high pp)
    then (Js.max (ProcessedBar.high prev) (OHLCBar.high cur),
          Js.max (ProcessedBar.low prev) (OHLCBar.low cur))
    else (Js.min (ProcessedBar.high prev) (OHLCBar.high cur),
          Js.min (ProcessedBar.low prev) (OHLCBar.low cur)) in
  separate (ProcessedBar.mk i (ProcessedBar.time prev) h l (OHLCBar.close cur))
           pp = true.
Proof.
  intros Hsep Hph Hch Hpl Hcl.
  unfold separate, containsBar in *.
  rewrite ?JsOrder.ge_le, ?JsOrder.gt_lt in *.
  apply andb_true_iff in Hsep as [H1 H2].
  apply negb_true_iff in H1, H2.
  destruct (Js.lt (ProcessedBar.high pp) (ProcessedBar.high prev)) eqn:Etrend;
    cbn [ProcessedBar.high ProcessedBar.low]; rewrite ?JsOrder.ge_le.
  - (* up trend *)
    set (h := Js.max (ProcessedBar.high prev) (OHLCBar.high cur)).
    set (l := Js.max (ProcessedBar.low prev) (OHLCBar.low cur)).
    pose proof (JsOrder.le_max_l _ _ Hph Hch : Js.le _ h = true) as Mh.
    pose proof (JsOrder.le_max_l _ _ Hpl Hcl : Js.le _ l = true) as Ml.
    rewrite (JsOrder.lt_le _ _ Etrend) in H1. simpl in H1.
    apply andb_true_iff; split; apply negb_true_iff; apply andb_false_iff.
    + right. destruct (Js.le l (ProcessedBar.low pp)) eqn:E; auto.
      rewrite (JsOrder.le_trans _ _ _ Ml E) in H1. discriminate.
    + left. destruct (Js.le h (ProcessedBar.high pp)) eqn:E; auto.
      pose proof (JsOrder.le_trans _ _ _ Mh E) as C.
      rewrite (JsOrder.lt_not_le _ _ Etrend) in C. discriminate.
  - (* down trend *)
    set (h := Js.min (ProcessedBar.high prev) (OHLCBar.high cur)).
    set (l := Js.min (ProcessedBar.low prev) (OHLCBar.low cur)).
    pose proof (JsOrder.le_min_l _ _ Hph Hch : Js.le h _ = true) as Mh.
    pose proof (JsOrder.le_min_l _ _ Hpl Hcl : Js.le l _ = true) as Ml.
    apply andb_true_iff; split; apply negb_true_iff.
    + (* the merged tail does not contain pp *)
      destruct (Js.le (ProcessedBar.high pp) h) eqn:E1; [|reflexivity].
      destruct (Js.le l (ProcessedBar.low pp)) eqn:E2; [|reflexivity].
      exfalso.
      pose proof (JsOrder.le_trans _ _ _ E1 Mh) as A.
      rewrite A in H1. simpl in H1.
      rewrite (JsOrder.le_not_lt_le _ _ A Etrend) in H2. simpl in H2.
      destruct (JsOrder.le_total _ _ Hpl (JsOrder.le_refl_r _ _ E2)) as [C|C].
      * congruence.
      * apply JsOrder.lt_le in C. congruence.
    + (* pp does not contain the merged tail *)
      destruct (Js.le h (ProcessedBar.high pp)) eqn:E1; [|reflexivity].
      destruct (Js.le (ProcessedBar.low pp) l) eqn:E2; [|reflexivity].
      exfalso.
      pose proof (JsOrder.le_trans _ _ _ E2 Ml) as A.
      rewrite A in H2. rewrite andb_true_r in H2.
      destruct (JsOrder.le_total _ _ Hph (JsOrder.le_refl_r _ _ E1)) as [C|C];
        congruence.
Qed.

(** The invariant of the loop: the processed bars so far, the tail that
    later merges change included, have no containing neighbours. *)
Lemma containmentStep_invariant (i : Z) (cur : OHLCBar.t)
    (prev : ProcessedBar.t) (before : list ProcessedBar.t) :
  noAdjacentContainment (prev :: before) = true ->
  let '(prev', before') := containmentStep i cur (prev, before) in
  noAdjacentContainment (prev' :: before') = true.
Proof.
  intros Hinv. unfold containmentStep.
  destruct (_ || _) eqn:Hcond.
  - (* merge into the tail *)
    assert (Hnum : Js.le (ProcessedBar.high prev) (ProcessedBar.high prev) = true
                /\ Js.le (OHLCBar.high cur) (OHLCBar.high cur) = true
                /\ Js.le (ProcessedBar.low prev) (ProcessedBar.low prev) = true
                /\ Js.le (OHLCBar.low cur) (OHLCBar.low cur) = true).
    { rewrite !JsOrder.ge_le in Hcond.
      apply orb_true_iff in Hcond as [H|H];
        apply andb_true_iff in H as [Hh Hl];
        repeat split; eauto using JsOrder.le_refl_l, JsOrder.le_refl_r. }
    destruct Hnum as (Hph & Hch & Hpl & Hcl).
    destruct before as [|pp rest].
    + reflexivity.
    + rewrite noAdjacentContainment_cons in Hinv.
      apply andb_true_iff in Hinv as [Hsep Hrest].
      pose proof (merge_keeps_separate pp prev cur i Hsep Hph Hch Hpl Hcl) as M.
      destruct (if Js.gt _ _ then _ else _) as [h l].
      rewrite noAdjacentContainment_cons, M, Hrest. reflexivity.
  - (* append a new processed bar *)
    rewrite noAdjacentContainment_cons, Hinv, andb_true_r.
    apply orb_false_iff in Hcond as [H1 H2].
    unfold separate, containsBar, processedOf. simpl.
    rewrite H1, H2. reflexivity.
Qed.

Lemma containmentLoop_invariant (bars : list OHLCBar.t) :
  forall (i : Z) (prev : ProcessedBar.t) (before : list ProcessedBar.t),
  noAdjacentContainment (prev :: before) = true ->
  let '(prev', before') := containmentLoop i bars (prev, before) in
  noAdjacentContainment (prev' :: before') = true.
Proof.
  induction bars as [|cur rest IH]; intros i prev before Hinv;
    cbn [containmentLoop].
  - exact Hinv.
  - pose proof (containmentStep_invariant i cur prev before Hinv) as Hstep.
    destruct (containmentStep i cur (prev, before)) as [prev1 before1].
    apply IH, Hstep.
Qed.

(** C1. For every input bar sequence, the output of [processContainment]
    has no two adjacent processed bars one of which contains the other's
    [low, high] interval (non-strict comparisons, as in the code), although
    a merge changes the high and low of the tail bar after it was
    appended. *)
Theorem processContainment_no_adjacent_containment (bars : list OHLCBar.t) :
  noAdjacentContainment (processContainment bars) = true.
Proof.
  unfold processContainment. destruct bars as [|b0 rest]; [reflexivity|].
  pose proof (containmentLoop_invariant rest 1 (processedOf 0 b0) [] eq_refl)
    as Hloop.
  destruct (containmentLoop 1 rest (processedOf 0 b0, [])) as [prev before].
  rewrite noAdjacentContainment_rev. exact Hloop.
Qed.

(** ** Worked inputs

    Bar sequences short enough for [calcATR(bars, 14)] to be all [NaN]
    (fewer than 15 bars), so that every average ATR is 0 and the ATR
    thresholds of the pipeline do not bind. A bar is given by its time,
    low and high; it opens at its low and closes at its high. *)

Module Examples.

Definition bar (time low high : Z) : OHLCBar.t :=
  OHLCBar.mk time (Js.ofZ low) (Js.ofZ high) (Js.ofZ low) (Js.ofZ high) None.

(** The identifiers of a generator that never repeats one. *)
Definition ids (n : nat) : string := "id-" +:+ pretty n.

(** [{ minBiKbars: k }]. *)
Definition kbars (k : Z) : PartialParams.t :=
  PartialParams.mk (Some k) None None None None.

(** Tops at 1, 5, 9 and 12, bottoms at 3, 7 and 10. With [minBiKbars = 2]
    the pair (top 9, bottom 10) is too short to be a bi. *)
Definition zigzag14 : list OHLCBar.t :=
  [bar 0 10 20; bar 1 15 30; bar 2 10 26; bar 3 5 22; bar 4 8 25;
   bar 5 12 28; bar 6 10 26; bar 7 8 24; bar 8 11 32; bar 9 14 40;
   bar 10 12 35; bar 11 13 38; bar 12 16 45; bar 13 15 42].

(** Tops at 1, 3 and 5, bottoms at 2 and 4: three bis that overlap on
    [8, 28] and an upward bi that leaves the overlap. *)
Definition breakout7 : list OHLCBar.t :=
  [bar 0 10 20; bar 1 15 30; bar 2 5 22; bar 3 12 28; bar 4 8 24;
   bar 5 14 40; bar 6 11 35].

(** As [breakout7], followed by a pullback that stays above 28 and an
    upward bi above the start of the pullback. *)
Definition confirmed9 : list OHLCBar.t :=
  [bar 0 10 20; bar 1 15 30; bar 2 5 22; bar 3 12 28; bar 4 8 24;
   bar 5 30 40; bar 6 29 36; bar 7 31 50; bar 8 30 45].

(** A bi given by its identifier, its direction and the position and
    price of its two fractals (the time of a fractal is its position). *)
Definition bi (id : Z) (direction : BiDirection) (i1 p1 i2 p2 : Z) : Bi.t :=
  let kind1 := match direction with up => bottom | down => top end in
  let kind2 := match direction with up => top | down => bottom end in
  Bi.mk id direction (Fractal.mk i1 i1 (Js.ofZ p1) kind1)
        (Fractal.mk i2 i2 (Js.ofZ p2) kind2) (i2 - i1).

(** Three bis over [0, 10], then, after a gap, bis over [20, 30],
    [5, 25] and [8, 22]: the last triple overlaps on [20, 22] and its
    third bi meets [0, 10]. *)
Definition gapBis : list Bi.t :=
  [bi 0 up 1 0 6 10; bi 1 down 6 10 11 0; bi 2 up 11 0 16 10;
   bi 3 up 20 20 25 30; bi 4 down 25 25 30 5; bi 5 up 30 8 35 22].

(** The zhongshu of the first three bis of [gapBis]. *)
Definition gapZ : Zhongshu.t :=
  Zhongshu.mk 0 (Js.ofZ 10) (Js.ofZ 0) 1 16 [0; 1; 2] true.

(** The stages of [runChanlun] on [bars] with the parameters of the [fx]
    market and [minBiKbars = k]. *)
Definition paramsOf (k : Z) : ChanlunParams.t :=
  mergeParams (DEFAULT_PARAMS fx) (kbars k).
Definition atrOf (bars : list OHLCBar.t) : list Js.number :=
  Indicators.calcATR bars 14.
Definition bisOf (k : Z) (bars : list OHLCBar.t) : list Bi.t :=
  let processed := processContainment bars in
  formBis (detectFractals processed) processed (atrOf bars) (paramsOf k).

End Examples.

(** *** Runs of the stages on small inputs *)

(** A merge in an up trend keeps the larger high and the larger low, a
    merge in a down trend the smaller ones; the merged bar takes the
    position and the close of the bar it absorbed and keeps its time. *)
Lemma processContainment_merge_up :
  processContainment [Examples.bar 0 10 20; Examples.bar 1 15 25; Examples.bar 2 16 24]
  = [ProcessedBar.mk 0 0 20%float 10%float 20%float;
     ProcessedBar.mk 2 1 25%float 16%float 24%float].
Proof. vm_compute. reflexivity. Qed.

Lemma processContainment_merge_down :
  processContainment [Examples.bar 0 20 30; Examples.bar 1 15 25; Examples.bar 2 16 24]
  = [ProcessedBar.mk 0 0 30%float 20%float 30%float;
     ProcessedBar.mk 2 1 24%float 15%float 24%float].
Proof. vm_compute. reflexivity. Qed.

(** The fractals of [zigzag14]: tops and bottoms in turn, by position. *)
Lemma detectFractals_zigzag14 :
  (fun f => (Fractal.index f, Fractal.type f))
  <$> detectFractals (processContainment Examples.zigzag14)
  = [(1, top); (3, bottom); (5, top); (7, bottom); (9, top); (10, bottom);
     (12, top)].
Proof. vm_compute. reflexivity. Qed.

(** Three bis over [100, 110], [105, 112] and [104, 109] make one
    zhongshu, over [105, 109]. *)
Lemma detectZhongshu_three_bis :
  detectZhongshu
    [Examples.bi 0 up 1 100 6 110; Examples.bi 1 down 6 112 11 105;
     Examples.bi 2 up 11 104 16 109]
  = [Zhongshu.mk 0 109%float 105%float 1 16 [0; 1; 2] true].
Proof. vm_compute. reflexivity. Qed.

(** ** Properties of bi formation *)

(** The fractals of the list alternate between tops and bottoms. *)
Definition alternatingTypes (l : list Fractal.t) : bool :=
  adjacentAll (fun a b => bool_decide (Fractal.type a <> Fractal.type b)) l.

(** The directions of the bis alternate: each bi differs from the one
    before it. *)
Definition alternatingDirections (bis : list Bi.t) : bool :=
  adjacentAll (fun a b => bool_decide (Bi.direction b <> Bi.direction a)) bis.

(** A bi joins two fractals of different kinds, upward from a bottom and
    downward from a top. *)
Definition joinsOpposite (b : Bi.t) : Prop :=
  Fractal.type (Bi.endFractal b) <> Fractal.type (Bi.startFractal b)
  /\ Bi.direction b
     = if bool_decide (Fractal.type (Bi.startFractal b) = bottom) then up else down.

Lemma filterStep_alternating (last cur : Fractal.t) (before : list Fractal.t) :
  alternatingTypes (last :: before) = true ->
  let '(last', before') := filterStep (last, before) cur in
  alternatingTypes (last' :: before') = true.
Proof.
  intros Halt. unfold filterStep.
  assert (Hkeep : Fractal.type cur = Fractal.type last ->
                  alternatingTypes (cur :: before) = true).
  { intros Heq. destruct before as [|pp rest]; [reflexivity|].
    unfold alternatingTypes in *. rewrite adjacentAll_cons in *.
    rewrite Heq. exact Halt. }
  case_bool_decide as Hne.
  - unfold alternatingTypes in *. rewrite adjacentAll_cons, Halt.
    rewrite bool_decide_eq_true_2; [reflexivity | exact Hne].
  - assert (Heq : Fractal.type cur = Fractal.type last).
    { destruct (Fractal.type cur), (Fractal.type last); congruence. }
    repeat (destruct (_ && _)); auto.
Qed.

Lemma filterFractals_alternating (f0 : Fractal.t) (rest : list Fractal.t) :
  alternatingTypes (filterFractals f0 rest) = true.
Proof.
  unfold filterFractals.
  assert (Hfold : forall st,
            alternatingTypes (fst st :: snd st) = true ->
            alternatingTypes (fst (fold_left filterStep rest st)
                              :: snd (fold_left filterStep rest st)) = true).
  { induction rest as [|cur rest IH]; intros [last before] Hst; [exact Hst|].
    cbn [fold_left]. apply IH.
    pose proof (filterStep_alternating last cur before Hst) as Hstep.
    destruct (filterStep (last, before) cur). exact Hstep. }
  specialize (Hfold (f0, []) eq_refl).
  destruct (fold_left filterStep rest (f0, [])) as [last before].
  unfold alternatingTypes. rewrite adjacentAll_rev; [exact Hfold|].
  intros a b. apply bool_decide_ext. split; congruence.
Qed.

Lemma biLoop_joinsOpposite (atrValues : list Js.number) (params : ChanlunParams.t)
    (filtered : list Fractal.t) :
  forall biId : Z,
  alternatingTypes filtered = true ->
  Forall joinsOpposite (biLoop atrValues params biId filtered).
Proof.
  induction filtered as [|start rest IH]; intros biId Halt; [constructor|].
  destruct rest as [|end_ rest]; [constructor|].
  unfold alternatingTypes in Halt. rewrite adjacentAll_cons in Halt.
  apply andb_true_iff in Halt as [Hne Hrest].
  apply bool_decide_eq_true_1 in Hne.
  cbn [biLoop].
  destruct (_ <? _); [now apply IH|].
  destruct (_ && _); [now apply IH|].
  constructor; [|now apply IH].
  split; simpl; [congruence | reflexivity].
Qed.

Lemma formBis_joinsOpposite (fractals : list Fractal.t)
    (processed : list ProcessedBar.t) (atrValues : list Js.number)
    (params : ChanlunParams.t) :
  Forall joinsOpposite (formBis fractals processed atrValues params).
Proof.
  unfold formBis. destruct fractals as [|f0 [|f1 rest]]; try constructor.
  apply biLoop_joinsOpposite, filterFractals_alternating.
Qed.

(** C5, as stated, fails: on [zigzag14] with [minBiKbars = 2] the pair
    (top 9, bottom 10) is rejected, and the bis on either side of it,
    bottom 7 to top 9 and bottom 10 to top 12, are both upward. *)
Lemma formBis_directions_repeat :
  Bi.direction <$> Examples.bisOf 2 Examples.zigzag14 = [down; up; down; up; up]
  /\ alternatingDirections (Examples.bisOf 2 Examples.zigzag14) = false.
Proof. split; vm_compute; reflexivity. Qed.

(** The two checks of the loop of [formBis] on a pair of fractals: the
    pair spans fewer than [minBiKbars] bars, or its move is too small; the
    loop then goes on to the next pair. *)
Definition rejects (atrValues : list Js.number) (params : ChanlunParams.t)
    (start end_ : Fractal.t) : bool :=
  (Fractal.index end_ - Fractal.index start <? ChanlunParams.minBiKbars params)
  || (let avgAtr :=
        getAvgATR atrValues (Fractal.index start) (Fractal.index end_) in
      let move := Js.abs (Fractal.price end_ - Fractal.price start)%float in
      Js.gt avgAtr 0%float
      && Js.lt move (ChanlunParams.minBiMoveAtr params * avgAtr)%float).

(** The array [filtered] of [formBis]. *)
Definition filteredOf (fractals : list Fractal.t) : list Fractal.t :=
  match fractals with
  | [] => []
  | f0 :: rest => filterFractals f0 rest
  end.

Lemma formBis_filteredOf (fractals : list Fractal.t)
    (processed : list ProcessedBar.t) (atrValues : list Js.number)
    (params : ChanlunParams.t) :
  formBis fractals processed atrValues params
  = biLoop atrValues params 0 (filteredOf fractals).
Proof. destruct fractals as [|f0 [|f1 rest]]; reflexivity. Qed.

Lemma filteredOf_alternating (fractals : list Fractal.t) :
  alternatingTypes (filteredOf fractals) = true.
Proof.
  destruct fractals as [|f0 rest]; [reflexivity|].
  apply filterFractals_alternating.
Qed.

Lemma adjacentAll_app_inv {A : Type} (R : A -> A -> bool) (l1 l2 : list A) :
  adjacentAll R (l1 ++ l2) = true ->
  adjacentAll R l1 = true /\ adjacentAll R l2 = true.
Proof.
  induction l1 as [|a l1 IH]; [now split|].
  destruct l1 as [|b l1]; cbn [app] in *.
  - destruct l2 as [|b l2]; [now split|].
    rewrite adjacentAll_cons. intros H.
    apply andb_true_iff in H as [_ H]. now split.
  - rewrite !adjacentAll_cons. intros H.
    apply andb_true_iff in H as [Hab H].
    destruct (IH H) as [H1 H2]. split; [|exact H2].
    now rewrite Hab, H1.
Qed.

Section BiLoopPairs.

Variable atrValues : list Js.number.
Variable params : ChanlunParams.t.

(** One iteration of the loop. *)
Lemma biLoop_rejects (biId : Z) (start end_ : Fractal.t) (rest : list Fractal.t) :
  biLoop atrValues params biId (start :: end_ :: rest)
  = if rejects atrValues params start end_
    then biLoop atrValues params biId (end_ :: rest)
    else
      Bi.mk biId
        (if bool_decide (Fractal.type start = bottom) then up else down)
        start end_ (Fractal.index end_ - Fractal.index start)
      :: biLoop atrValues params (biId + 1) (end_ :: rest).
Proof.
  unfold rejects. cbn [biLoop].
  destruct (_ <? _); [reflexivity|]. cbn [orb].
  destruct (_ && _); reflexivity.
Qed.

(** The first bi of the loop: the pairs before its own were rejected, and
    the loop goes on from its end fractal. *)
Lemma biLoop_first (filtered : list Fractal.t) :
  forall (biId : Z) (b : Bi.t) (bs : list Bi.t),
  biLoop atrValues params biId filtered = b :: bs ->
  exists (pre : list Fractal.t) (start end_ : Fractal.t) (rest : list Fractal.t),
    filtered = pre ++ start :: end_ :: rest
    /\ adjacentAll (rejects atrValues params) (pre ++ [start]) = true
    /\ Bi.startFractal b = start
    /\ Bi.endFractal b = end_
    /\ Bi.direction b
       = (if bool_decide (Fractal.type start = bottom) then up else down)
    /\ exists biId' : Z, bs = biLoop atrValues params biId' (end_ :: rest).
Proof.
  induction filtered as [|s filtered IH]; intros biId b bs Hrun;
    [discriminate Hrun|].
  destruct filtered as [|e r]; [discriminate Hrun|].
  rewrite biLoop_rejects in Hrun.
  destruct (rejects atrValues params s e) eqn:Hrej.
  - destruct (IH _ _ _ Hrun)
      as (pre & start & end_ & rest & Hsplit & Hpre & Hb).
    exists (s :: pre), start, end_, rest.
    split; [cbn [app]; now rewrite Hsplit|]. split; [|exact Hb].
    destruct pre as [|p pre]; cbn [app] in *.
    + injection Hsplit as -> _. cbn. now rewrite Hrej.
    + injection Hsplit as -> _. rewrite adjacentAll_cons, Hrej. exact Hpre.
  - injection Hrun as <- <-. exists [], s, e, r.
    repeat split. now exists (biId + 1).
Qed.

(** Every tail of the bi list is what the loop gives from a later
    position of [filtered]. *)
Lemma biLoop_drop (i : nat) :
  forall (filtered : list Fractal.t) (biId : Z) (b : Bi.t) (bs : list Bi.t),
  drop i (biLoop atrValues params biId filtered) = b :: bs ->
  exists (before later : list Fractal.t) (biId' : Z),
    filtered = before ++ later
    /\ biLoop atrValues params biId' later = b :: bs.
Proof.
  induction i as [|i IH]; intros filtered biId b bs Hdrop.
  - exists [], filtered, biId. split; [reflexivity | exact Hdrop].
  - destruct (biLoop atrValues params biId filtered) as [|b0 bs0] eqn:Hrun;
      [discriminate Hdrop|].
    destruct (biLoop_first _ _ _ _ Hrun)
      as (pre & start & end_ & rest & -> & _ & _ & _ & _ & biId' & ->).
    cbn [drop] in Hdrop.
    destruct (IH _ _ _ _ Hdrop) as (before & later & biId'' & Hsplit & Hlater).
    exists (pre ++ start :: before), later, biId''.
    split; [|exact Hlater].
    rewrite <- app_assoc. cbn [app]. now rewrite Hsplit.
Qed.

(** Without a rejected pair the loop makes a bi of every pair. *)
Lemma biLoop_all_accepted (filtered : list Fractal.t) :
  forall biId : Z,
  alternatingTypes filtered = true ->
  adjacentAll (fun a b => negb (rejects atrValues params a b)) filtered = true ->
  alternatingDirections (biLoop atrValues params biId filtered) = true.
Proof.
  induction filtered as [|s filtered IH]; intros biId Halt Hacc; [reflexivity|].
  destruct filtered as [|e r]; [reflexivity|].
  unfold alternatingTypes in Halt. rewrite adjacentAll_cons in Halt, Hacc.
  apply andb_true_iff in Halt as [Hne Halt], Hacc as [Hse Hacc].
  apply bool_decide_eq_true_1 in Hne. apply negb_true_iff in Hse.
  specialize (IH (biId + 1) Halt Hacc).
  rewrite biLoop_rejects, Hse.
  destruct r as [|e2 r]; [reflexivity|].
  rewrite adjacentAll_cons in Hacc, Halt.
  apply andb_true_iff in Hacc as [Hee _], Halt as [Hne2 _].
  apply negb_true_iff in Hee. apply bool_decide_eq_true_1 in Hne2.
  rewrite biLoop_rejects, Hee in IH |- *.
  unfold alternatingDirections in *. rewrite adjacentAll_cons, IH.
  cbn [Bi.direction]. rewrite andb_true_r. apply bool_decide_eq_true_2.
  destruct (Fractal.type s), (Fractal.type e); repeat case_bool_decide;
    congruence.
Qed.

End BiLoopPairs.

(** Along fractals that alternate between tops and bottoms, the last has
    the kind of the first exactly when their number is odd. *)
Lemma alternatingTypes_ends (path : list Fractal.t) :
  forall first final : Fractal.t,
  alternatingTypes path = true ->
  head path = Some first -> last path = Some final ->
  Fractal.type final = Fractal.type first <-> Nat.odd (length path) = true.
Proof.
  induction path as [|x path IH]; intros first final Halt Hfirst Hfinal;
    [discriminate Hfirst|].
  injection Hfirst as ->.
  destruct path as [|y path].
  - injection Hfinal as ->. split; reflexivity.
  - unfold alternatingTypes in Halt. rewrite adjacentAll_cons in Halt.
    apply andb_true_iff in Halt as [Hne Halt].
    apply bool_decide_eq_true_1 in Hne.
    specialize (IH y final Halt eq_refl Hfinal).
    change (length (first :: y :: path)) with (S (length (y :: path))).
    rewrite Nat.odd_succ, <- Nat.negb_odd.
    destruct (Nat.odd (length (y :: path)));
      destruct (Fractal.type final), (Fractal.type first), (Fractal.type y);
      cbn in *; intuition congruence.
Qed.

(** C5, amended. In the bi list produced by [formBis]: when no pair of
    neighbours of [filtered] is rejected, the directions strictly
    alternate; and in every case, between two consecutive bis lie the
    fractals of [filtered] from the end of the first to the start of the
    second, every pair of neighbours among them was rejected, and the two
    directions differ exactly when these fractals are odd in number, that
    is, when an even number of pairs (none, for instance: the second bi
    then starts where the first ends) was rejected between the two bis. *)
Theorem formBis_directions_alternate_unless_rejected (fractals : list Fractal.t)
    (processed : list ProcessedBar.t) (atrValues : list Js.number)
    (params : ChanlunParams.t) :
  let bis := formBis fractals processed atrValues params in
  let filtered := filteredOf fractals in
  (adjacentAll (fun a b => negb (rejects atrValues params a b)) filtered = true ->
   alternatingDirections bis = true)
  /\ forall (i : nat) (b1 b2 : Bi.t),
       bis !! i = Some b1 -> bis !! S i = Some b2 ->
       exists before path after : list Fractal.t,
         filtered
         = before ++ Bi.startFractal b1 :: path ++ Bi.endFractal b2 :: after
         /\ head path = Some (Bi.endFractal b1)
         /\ last path = Some (Bi.startFractal b2)
         /\ adjacentAll (rejects atrValues params) path = true
         /\ (Bi.direction b2 <> Bi.direction b1
             <-> Nat.odd (length path) = true).
Proof.
  cbv zeta. rewrite formBis_filteredOf.
  pose proof (filteredOf_alternating fractals) as Halt.
  split; [now apply biLoop_all_accepted|].
  intros i b1 b2 H1 H2.
  assert (Hdrop : exists bs,
            drop i (biLoop atrValues params 0 (filteredOf fractals))
            = b1 :: b2 :: bs).
  { exists (drop (S (S i)) (biLoop atrValues params 0 (filteredOf fractals))).
    rewrite (drop_S _ _ _ H1), (drop_S _ _ _ H2). reflexivity. }
  destruct Hdrop as [bs Hdrop].
  destruct (biLoop_drop _ _ _ _ _ _ _ Hdrop)
    as (before & later & biId & Hsplit & Hlater).
  destruct (biLoop_first _ _ _ _ _ _ Hlater)
    as (pre & start1 & end1 & rest1 & -> & _ & Hs1 & He1 & Hd1 & biId1 & Hnext).
  symmetry in Hnext.
  destruct (biLoop_first _ _ _ _ _ _ Hnext)
    as (pre2 & start2 & end2 & rest2 & Hrest & Hpath & Hs2 & He2 & Hd2 & _).
  exists (before ++ pre), (pre2 ++ [start2]), rest2.
  assert (Hhead : head (pre2 ++ [start2]) = Some end1).
  { destruct pre2 as [|p pre2]; cbn [app] in Hrest |- *;
      injection Hrest as -> _; reflexivity. }
  assert (Hfiltered : filteredOf fractals
            = (before ++ pre) ++ start1 :: (pre2 ++ [start2]) ++ end2 :: rest2).
  { rewrite Hsplit, <- !app_assoc. cbn [app]. now rewrite Hrest. }
  rewrite Hs1, He1, Hs2, He2.
  split; [exact Hfiltered|]. split; [exact Hhead|].
  split; [apply last_snoc|]. split; [exact Hpath|].
  rewrite Hfiltered in Halt.
  apply adjacentAll_app_inv in Halt as [_ Halt].
  assert (Hne : Fractal.type start1 <> Fractal.type end1).
  { destruct pre2 as [|p pre2]; cbn [app] in Hhead, Halt;
      injection Hhead as ->;
      change (alternatingTypes ?l) with
        (adjacentAll (fun a b => bool_decide (Fractal.type a <> Fractal.type b)) l)
        in Halt;
      rewrite adjacentAll_cons in Halt;
      apply andb_true_iff in Halt as [Hne _];
      now apply bool_decide_eq_true_1 in Hne. }
  change (start1 :: (pre2 ++ [start2]) ++ end2 :: rest2)
    with ([start1] ++ (pre2 ++ [start2]) ++ end2 :: rest2) in Halt.
  apply adjacentAll_app_inv in Halt as [_ Halt].
  apply adjacentAll_app_inv in Halt as [Halt _].
  rewrite <- (alternatingTypes_ends _ end1 start2 Halt Hhead (last_snoc _ _)).
  rewrite Hd1, Hd2.
  destruct (Fractal.type start1), (Fractal.type end1), (Fractal.type start2);
    repeat case_bool_decide; intuition congruence.
Qed.

(** With [minBiKbars = 1] no pair of [zigzag14] is rejected, and the six
    bis alternate. *)
Lemma formBis_directions_alternate_unless_rejected_witness :
  alternatingDirections (Examples.bisOf 1 Examples.zigzag14) = true.
Proof.
  apply (proj1 (formBis_directions_alternate_unless_rejected
                  (detectFractals (processContainment Examples.zigzag14))
                  (processContainment Examples.zigzag14)
                  (Examples.atrOf Examples.zigzag14) (Examples.paramsOf 1))).
  vm_compute. reflexivity.
Defined.

(** On [zigzag14] with [minBiKbars = 2] the filtered fractals stand at 1,
    3, 5, 7, 9, 10 and 12 and the pair (9, 10) alone is rejected: one pair
    between the last two bis, which are both upward. *)
Lemma zigzag14_rejected_pair :
  let filtered :=
    filteredOf (detectFractals (processContainment Examples.zigzag14)) in
  Fractal.index <$> filtered = [1; 3; 5; 7; 9; 10; 12]
  /\ zip_with (rejects (Examples.atrOf Examples.zigzag14) (Examples.paramsOf 2))
       filtered (tail filtered)
     = [false; false; false; false; true; false].
Proof. split; vm_compute; reflexivity. Qed.

(** ** Properties of third-buy detection *)

Section ThirdBuyFacts.

Variable ids : nat -> string.
Variable bis : list Bi.t.
Variable atrValues : list Js.number.
Variable params : ChanlunParams.t.
Variable symbol : string.
Variable timeframe : Timeframe.
Variable market : MarketType.

Local Abbreviation step := (thirdBuyStep ids bis atrValues params symbol timeframe market).
Local Abbreviation loop := (thirdBuyLoop ids bis atrValues params symbol timeframe market).
Local Abbreviation detect := (detectThirdBuys ids bis atrValues params symbol timeframe market).

(** The signals pushed before the loop reaches a zhongshu stay in front of
    what the rest of the loop pushes. *)
Lemma thirdBuyLoop_signals (zhongshus : list Zhongshu.t) :
  forall (n : nat) (signals : list ThirdBuySignal.t),
  loop zhongshus n signals
  = ((loop zhongshus n []).1, signals ++ (loop zhongshus n []).2).
Proof.
  induction zhongshus as [|z rest IH]; intros n signals; cbn [thirdBuyLoop].
  - now rewrite app_nil_r.
  - destruct (step z n) as [n' pushed].
    rewrite (IH n' (signals ++ pushed)), (IH n' ([] ++ pushed)).
    cbn [fst snd]. now rewrite app_assoc.
Qed.

(** The loop, one zhongshu at a time. *)
Lemma detectThirdBuys_cons (z : Zhongshu.t) (rest : list Zhongshu.t) (n : nat) :
  detect (z :: rest) n
  = ((detect rest (step z n).1).1, (step z n).2 ++ (detect rest (step z n).1).2).
Proof.
  unfold detectThirdBuys. cbn [thirdBuyLoop].
  destruct (step z n) as [n' pushed]. cbn [fst snd].
  now rewrite thirdBuyLoop_signals.
Qed.

Lemma detectThirdBuys_app (before after : list Zhongshu.t) :
  forall n : nat,
  detect (before ++ after) n
  = ((detect after (detect before n).1).1,
     (detect before n).2 ++ (detect after (detect before n).1).2).
Proof.
  induction before as [|z before IH]; intros n.
  - change (detect [] n) with (n, @nil ThirdBuySignal.t).
    cbn [fst snd app]. now destruct (detect after n).
  - rewrite <- app_comm_cons, !detectThirdBuys_cons, IH. cbn [fst snd].
    now rewrite app_assoc.
Qed.

(** A zhongshu on which the body of the loop pushes nothing and draws no
    identifier can be left out of the input. *)
Lemma detectThirdBuys_skip (z : Zhongshu.t) (before after : list Zhongshu.t)
    (n : nat) :
  (forall m, step z m = (m, [])) ->
  detect (before ++ z :: after) n = detect (before ++ after) n.
Proof.
  intros Hskip.
  rewrite !detectThirdBuys_app, detectThirdBuys_cons, Hskip. reflexivity.
Qed.

End ThirdBuyFacts.

(** C2, as stated, fails: on [zigzag14] with [minBiKbars = 2] the first
    zhongshu (bis 0, 1, 2) has its breakout at bi 3, the bi after it is
    upward, and [detectThirdBuys] returns no signal for that zhongshu
    (the whole run yields one candidate, for the second zhongshu). *)
Lemma detectThirdBuys_non_down_follower_no_signal :
  exists (z : Zhongshu.t) (breakoutBi followerBi : Bi.t),
    let bis := Examples.bisOf 2 Examples.zigzag14 in
    let atr := Examples.atrOf Examples.zigzag14 in
    detectZhongshu bis !! 0%nat = Some z
    /\ breakoutOf bis atr (Examples.paramsOf 2) z = Some (3%nat, breakoutBi)
    /\ bis !! 4%nat = Some followerBi
    /\ Bi.direction followerBi = up
    /\ detectThirdBuys Examples.ids bis atr (Examples.paramsOf 2)
         "X" TF_1D fx [z] 0 = (0%nat, [])
    /\ (fun s => (Zhongshu.id (ThirdBuySignal.zhongshu s), ThirdBuySignal.status s))
       <$> ChanlunResult.thirdBuys
             (runChanlun Examples.ids Examples.zigzag14 fx "X" TF_1D
                (Examples.kbars 2) 0).2
       = [(1, candidate)].
Proof.
  eexists _, _, _. cbv zeta.
  repeat split; vm_compute; reflexivity.
Qed.

(** C2, amended. For every zhongshu whose breakout bi is followed by a bi
    that is not down-directed, [detectThirdBuys] emits no signal: the
    body of its loop pushes nothing and draws no identifier, and the
    result is the one without that zhongshu. *)
Theorem detectThirdBuys_non_down_follower (ids : nat -> string)
    (bis : list Bi.t) (atrValues : list Js.number) (params : ChanlunParams.t)
    (symbol : string) (timeframe : Timeframe) (market : MarketType)
    (z : Zhongshu.t) (breakoutIdx : nat) (breakoutBi followerBi : Bi.t)
    (before after : list Zhongshu.t) (n : nat) :
  breakoutOf bis atrValues params z = Some (breakoutIdx, breakoutBi) ->
  bis !! (breakoutIdx + 1)%nat = Some followerBi ->
  Bi.direction followerBi <> down ->
  thirdBuyStep ids bis atrValues params symbol timeframe market z n = (n, [])
  /\ detectThirdBuys ids bis atrValues params symbol timeframe market
       (before ++ z :: after) n
     = detectThirdBuys ids bis atrValues params symbol timeframe market
         (before ++ after) n.
Proof.
  intros Hout Hfollower Hdir.
  assert (Hstep : forall m,
            thirdBuyStep ids bis atrValues params symbol timeframe market z m
            = (m, [])).
  { intros m. unfold thirdBuyStep, afterBreakout.
    rewrite Hout, Hfollower.
    rewrite bool_decide_eq_true_2; [reflexivity | exact Hdir]. }
  split; [apply Hstep | now apply detectThirdBuys_skip].
Qed.

Lemma detectThirdBuys_non_down_follower_witness :
  exists z : Zhongshu.t,
    detectZhongshu (Examples.bisOf 2 Examples.zigzag14) !! 0%nat = Some z
    /\ detectThirdBuys Examples.ids (Examples.bisOf 2 Examples.zigzag14)
         (Examples.atrOf Examples.zigzag14) (Examples.paramsOf 2)
         "X" TF_1D fx ([] ++ z :: []) 0
       = detectThirdBuys Examples.ids (Examples.bisOf 2 Examples.zigzag14)
           (Examples.atrOf Examples.zigzag14) (Examples.paramsOf 2)
           "X" TF_1D fx ([] ++ []) 0.
Proof.
  eexists. split; [vm_compute; reflexivity|].
  eapply (detectThirdBuys_non_down_follower Examples.ids
            (Examples.bisOf 2 Examples.zigzag14)
            (Examples.atrOf Examples.zigzag14) (Examples.paramsOf 2)
            "X" TF_1D fx _ 3 _ _ [] [] 0).
  - vm_compute; reflexivity.
  - vm_compute; reflexivity.
  - vm_compute; discriminate.
Defined.

(** C4, as stated, fails: on [confirmed9] with [minBiKbars = 1] the first
    zhongshu has its breakout at bi 3, a pullback at bi 4 that holds, and
    the upward bi 5 passes the confirmation check. The result holds the
    confirmed signal of that zhongshu and no candidate for it: the held
    candidate drew the identifier [id-0] and was not pushed. *)
Lemma detectThirdBuys_confirmed_without_candidate :
  exists (z : Zhongshu.t) (breakoutBi pullbackBi confirmBi : Bi.t),
    let bis := Examples.bisOf 1 Examples.confirmed9 in
    let atr := Examples.atrOf Examples.confirmed9 in
    detectZhongshu bis !! 0%nat = Some z
    /\ breakoutOf bis atr (Examples.paramsOf 1) z = Some (3%nat, breakoutBi)
    /\ bis !! 4%nat = Some pullbackBi
    /\ bis !! 5%nat = Some confirmBi
    /\ confirmation (Examples.paramsOf 1) breakoutBi pullbackBi confirmBi = true
    /\ (fun s => (Zhongshu.id (ThirdBuySignal.zhongshu s),
                  ThirdBuySignal.status s, ThirdBuySignal.id s))
       <$> ChanlunResult.thirdBuys
             (runChanlun Examples.ids Examples.confirmed9 fx "X" TF_1D
                (Examples.kbars 1) 0).2
       = [(0, confirmed, "id-1"); (1, candidate, "id-2")].
Proof.
  eexists _, _, _, _. cbv zeta.
  repeat split; vm_compute; reflexivity.
Qed.

(** C4, amended. Whenever a third-buy passes the confirmation check,
    [detectThirdBuys] emits for that zhongshu the confirmed signal alone:
    the held candidate is built, with the first identifier drawn, and is
    not pushed; the confirmed signal carries the second identifier. *)
Theorem detectThirdBuys_confirmed_only (ids : nat -> string)
    (bis : list Bi.t) (atrValues : list Js.number) (params : ChanlunParams.t)
    (symbol : string) (timeframe : Timeframe) (market : MarketType)
    (z : Zhongshu.t) (breakoutIdx : nat) (breakoutBi pullbackBi confirmBi : Bi.t)
    (before after : list Zhongshu.t) (n : nat) :
  breakoutOf bis atrValues params z = Some (breakoutIdx, breakoutBi) ->
  bis !! (breakoutIdx + 1)%nat = Some pullbackBi ->
  Bi.direction pullbackBi = down ->
  pullbackEntered atrValues params z pullbackBi = false ->
  bis !! (breakoutIdx + 2)%nat = Some confirmBi ->
  Bi.direction confirmBi = up ->
  confirmation params breakoutBi pullbackBi confirmBi = true ->
  let detect :=
    detectThirdBuys ids bis atrValues params symbol timeframe market in
  let n1 := (detect before n).1 in
  let held :=
    pullbackCandidate symbol timeframe market (ids n1) z breakoutBi pullbackBi in
  detect (before ++ z :: after) n
  = ((detect after (S (S n1))).1,
     (detect before n).2
     ++ confirmedSignal (ids (S n1)) held confirmBi
     :: (detect after (S (S n1))).2).
Proof.
  intros Hout Hback Hdown Hheld Hconf Hup Hok detect n1 held.
  assert (Hstep : forall m,
            thirdBuyStep ids bis atrValues params symbol timeframe market z m
            = (S (S m),
               [confirmedSignal (ids (S m))
                  (pullbackCandidate symbol timeframe market (ids m) z
                     breakoutBi pullbackBi) confirmBi])).
  { intros m. unfold thirdBuyStep, afterBreakout.
    rewrite Hout, Hback, Hdown, Hheld, Hconf, Hup, Hok.
    rewrite !bool_decide_eq_false_2 by (intros H; now apply H).
    reflexivity. }
  unfold detect. rewrite detectThirdBuys_app, detectThirdBuys_cons, Hstep.
  reflexivity.
Qed.

Lemma detectThirdBuys_confirmed_only_witness :
  exists (z : Zhongshu.t) (s : ThirdBuySignal.t),
    detectZhongshu (Examples.bisOf 1 Examples.confirmed9) !! 0%nat = Some z
    /\ ThirdBuySignal.status s = confirmed
    /\ ThirdBuySignal.id s = "id-1"
    /\ detectThirdBuys Examples.ids (Examples.bisOf 1 Examples.confirmed9)
         (Examples.atrOf Examples.confirmed9) (Examples.paramsOf 1)
         "X" TF_1D fx ([] ++ z :: []) 0
       = (2%nat, [] ++ s :: []).
Proof.
  eexists _, _. split; [vm_compute; reflexivity|].
  split; [|split];
    [| | eapply (detectThirdBuys_confirmed_only Examples.ids
                   (Examples.bisOf 1 Examples.confirmed9)
                   (Examples.atrOf Examples.confirmed9) (Examples.paramsOf 1)
                   "X" TF_1D fx _ 3 _ _ _ [] [] 0);
         vm_compute; reflexivity].
  - reflexivity.
  - vm_compute; reflexivity.
Defined.

(** ** Determinism of the pipeline *)

(** A third-buy signal with its identifier blanked. *)
Definition withoutId (s : ThirdBuySignal.t) : ThirdBuySignal.t :=
  {| ThirdBuySignal.id := "";
     ThirdBuySignal.zhongshu := ThirdBuySignal.zhongshu s;
     ThirdBuySignal.status := ThirdBuySignal.status s;
     ThirdBuySignal.breakoutTime := ThirdBuySignal.breakoutTime s;
     ThirdBuySignal.breakoutPrice := ThirdBuySignal.breakoutPrice s;
     ThirdBuySignal.pullbackLow := ThirdBuySignal.pullbackLow s;
     ThirdBuySignal.pullbackTime := ThirdBuySignal.pullbackTime s;
     ThirdBuySignal.confirmTime := ThirdBuySignal.confirmTime s;
     ThirdBuySignal.confirmPrice := ThirdBuySignal.confirmPrice s;
     ThirdBuySignal.symbol := ThirdBuySignal.symbol s;
     ThirdBuySignal.timeframe := ThirdBuySignal.timeframe s;
     ThirdBuySignal.market := ThirdBuySignal.market s |}.

Section IdsDoNotMatter.

Variables ids1 ids2 : nat -> string.
Variable bis : list Bi.t.
Variable atrValues : list Js.number.
Variable params : ChanlunParams.t.
Variable symbol : string.
Variable timeframe : Timeframe.
Variable market : MarketType.

Lemma thirdBuyStep_withoutId (z : Zhongshu.t) (n1 n2 : nat) :
  withoutId <$> (thirdBuyStep ids1 bis atrValues params symbol timeframe market z n1).2
  = withoutId <$> (thirdBuyStep ids2 bis atrValues params symbol timeframe market z n2).2.
Proof.
  unfold thirdBuyStep, afterBreakout.
  repeat case_match; reflexivity.
Qed.

Lemma detectThirdBuys_withoutId (zhongshus : list Zhongshu.t) :
  forall n1 n2 : nat,
  withoutId <$> (detectThirdBuys ids1 bis atrValues params symbol timeframe market
                   zhongshus n1).2
  = withoutId <$> (detectThirdBuys ids2 bis atrValues params symbol timeframe market
                     zhongshus n2).2.
Proof.
  induction zhongshus as [|z rest IH]; intros n1 n2; [reflexivity|].
  rewrite !detectThirdBuys_cons. cbn [snd]. rewrite !fmap_app.
  f_equal; [apply thirdBuyStep_withoutId | apply IH].
Qed.

End IdsDoNotMatter.

(** The generator of the worked inputs never repeats an identifier. *)
Lemma example_ids_never_repeat : Inj (=) (=) Examples.ids.
Proof.
  intros m n H. unfold Examples.ids in H.
  apply (inj (String.app "id-")) in H. now apply (inj pretty) in H.
Qed.

(** C3, as stated, fails: two runs on [breakout7], the second after the
    first in the same process, with a generator that never repeats an
    identifier. Each yields one candidate; the two differ in their [id]. *)
Lemma runChanlun_twice_differs :
  let run1 :=
    runChanlun Examples.ids Examples.breakout7 fx "X" TF_1D (Examples.kbars 1) 0 in
  let run2 :=
    runChanlun Examples.ids Examples.breakout7 fx "X" TF_1D (Examples.kbars 1)
      run1.1 in
  ThirdBuySignal.id <$> ChanlunResult.thirdBuys run1.2 = ["id-0"]
  /\ ThirdBuySignal.id <$> ChanlunResult.thirdBuys run2.2 = ["id-1"]
  /\ ChanlunResult.thirdBuys run1.2 <> ChanlunResult.thirdBuys run2.2.
Proof.
  cbv zeta. split; [vm_compute; reflexivity|].
  split; [vm_compute; reflexivity|].
  intros Heq. apply (f_equal (fmap ThirdBuySignal.id)) in Heq.
  vm_compute in Heq. discriminate.
Qed.

(** C3, amended. For every bar sequence, market, symbol, timeframe and
    parameter set, two runs of [runChanlun] on the same inputs yield equal
    processed bars, fractals, bis and zhongshus, and third-buy signals
    that are equal up to their [id] field, whatever identifiers [nanoid]
    returns in either run. *)
Theorem runChanlun_deterministic_up_to_ids (ids1 ids2 : nat -> string)
    (bars : list OHLCBar.t) (market : MarketType) (symbol : string)
    (timeframe : Timeframe) (params : PartialParams.t) (n1 n2 : nat) :
  let r1 := (runChanlun ids1 bars market symbol timeframe params n1).2 in
  let r2 := (runChanlun ids2 bars market symbol timeframe params n2).2 in
  ChanlunResult.processedBars r1 = ChanlunResult.processedBars r2
  /\ ChanlunResult.fractals r1 = ChanlunResult.fractals r2
  /\ ChanlunResult.bis r1 = ChanlunResult.bis r2
  /\ ChanlunResult.zhongshus r1 = ChanlunResult.zhongshus r2
  /\ withoutId <$> ChanlunResult.thirdBuys r1
     = withoutId <$> ChanlunResult.thirdBuys r2.
Proof.
  unfold runChanlun. cbv zeta.
  set (p := mergeParams (DEFAULT_PARAMS market) params).
  set (atr := Indicators.calcATR bars 14).
  set (bis := formBis _ _ atr p).
  pose proof (detectThirdBuys_withoutId ids1 ids2 bis atr p symbol timeframe
                market (detectZhongshu bis) n1 n2) as Hids.
  destruct (detectThirdBuys ids1 _ _ _ _ _ _ _ n1) as [m1 s1].
  destruct (detectThirdBuys ids2 _ _ _ _ _ _ _ n2) as [m2 s2].
  cbn [snd ChanlunResult.processedBars ChanlunResult.fractals ChanlunResult.bis
       ChanlunResult.zhongshus ChanlunResult.thirdBuys] in *.
  repeat split; try reflexivity. exact Hids.
Qed.

(** ** Properties of zhongshu detection *)

(** What an extension leaves alone. *)
Definition frameOf (z : Zhongshu.t) : Z * Js.number * Js.number * Z * bool :=
  (Zhongshu.id z, Zhongshu.high z, Zhongshu.low z, Zhongshu.startTime z,
   Zhongshu.isActive z).

Lemma extendZhongshu_frame (lastZ : Zhongshu.t) (b3 : Bi.t) :
  frameOf (extendZhongshu lastZ b3) = frameOf lastZ.
Proof. reflexivity. Qed.

(** An iteration leaves the state alone, pushes a zhongshu, or extends
    the last one. *)
Lemma zhongshuStep_cases (zhongshus : list Zhongshu.t) (zId : Z) (b1 b2 b3 : Bi.t) :
  zhongshuStep (zhongshus, zId) b1 b2 b3 = (zhongshus, zId)
  \/ (exists z, zhongshuStep (zhongshus, zId) b1 b2 b3 = (z :: zhongshus, zId + 1))
  \/ (exists lastZ before,
        zhongshus = lastZ :: before
        /\ canExtend lastZ b1 b3 = true
        /\ zhongshuStep (zhongshus, zId) b1 b2 b3
           = (extendZhongshu lastZ b3 :: before, zId)).
Proof.
  unfold zhongshuStep. destruct (Js.le _ _); [now left|].
  destruct zhongshus as [|lastZ before]; [right; left; eauto|].
  destruct (canExtend lastZ b1 b3) eqn:E; [|right; left; eauto].
  right; right. eauto.
Qed.

Lemma zhongshuLoop_unfold (b1 b2 b3 : Bi.t) (rest : list Bi.t) (st : ZhongshuState) :
  zhongshuLoop (b1 :: b2 :: b3 :: rest) st
  = zhongshuLoop (b2 :: b3 :: rest) (zhongshuStep st b1 b2 b3).
Proof. reflexivity. Qed.

(** Through the whole loop, the zhongshus already found keep their id,
    range, start time and active flag: the list of frames only grows at
    its head. *)
Lemma zhongshuLoop_frames (bis : list Bi.t) :
  forall st : ZhongshuState,
  exists added, frameOf <$> (zhongshuLoop bis st).1 = added ++ (frameOf <$> st.1).
Proof.
  induction bis as [|b1 rest IH]; intros st; [now exists []|].
  destruct rest as [|b2 [|b3 rest]]; try (now exists []).
  rewrite zhongshuLoop_unfold.
  destruct (IH (zhongshuStep st b1 b2 b3)) as [added Hadded].
  rewrite Hadded. destruct st as [zhongshus zId].
  destruct (zhongshuStep_cases zhongshus zId b1 b2 b3)
    as [-> | [[z ->] | (lastZ & before & -> & _ & ->)]]; cbn [fst fmap list_fmap].
  - now exists added.
  - exists (added ++ [frameOf z]). now rewrite <- app_assoc.
  - exists added. now rewrite extendZhongshu_frame.
Qed.

(** C9. When [detectZhongshu] extends an existing active zhongshu with a
    later bi, only the [endTime] and the [biIds] of that zhongshu change:
    its [high], [low], [id], [startTime] and [isActive] are those of
    before, and so is every other zhongshu. *)
Theorem zhongshuStep_extension_frame (lastZ : Zhongshu.t)
    (before : list Zhongshu.t) (zId : Z) (b1 b2 b3 : Bi.t) :
  Js.le (Range.high (overlapOf b1 b2 b3)) (Range.low (overlapOf b1 b2 b3)) = false ->
  canExtend lastZ b1 b3 = true ->
  exists z' : Zhongshu.t,
    zhongshuStep (lastZ :: before, zId) b1 b2 b3 = (z' :: before, zId)
    /\ Zhongshu.high z' = Zhongshu.high lastZ
    /\ Zhongshu.low z' = Zhongshu.low lastZ
    /\ Zhongshu.id z' = Zhongshu.id lastZ
    /\ Zhongshu.startTime z' = Zhongshu.startTime lastZ
    /\ Zhongshu.isActive z' = Zhongshu.isActive lastZ
    /\ Zhongshu.endTime z' = Fractal.time (Bi.endFractal b3)
    /\ Zhongshu.biIds z' = Zhongshu.biIds lastZ ++ [Bi.id b3].
Proof.
  intros Hoverlap Hextend. exists (extendZhongshu lastZ b3).
  unfold zhongshuStep. rewrite Hoverlap, Hextend.
  repeat split; reflexivity.
Qed.

(** On [gapBis] the loop reaches the extension: the zhongshu of bis 0, 1, 2
    is extended by bi 5. *)
Lemma detectZhongshu_extends_gapBis :
  zhongshuLoop (take 5 Examples.gapBis) ([], 0) = ([Examples.gapZ], 1)
  /\ Zhongshu.biIds <$> detectZhongshu Examples.gapBis = [[0; 1; 2; 5]].
Proof. split; vm_compute; reflexivity. Qed.

Lemma zhongshuStep_extension_frame_witness :
  exists z' : Zhongshu.t,
    zhongshuStep ([Examples.gapZ], 1)
      (Examples.bi 3 up 20 20 25 30) (Examples.bi 4 down 25 25 30 5)
      (Examples.bi 5 up 30 8 35 22) = ([z'], 1)
    /\ Zhongshu.high z' = Zhongshu.high Examples.gapZ
    /\ Zhongshu.low z' = Zhongshu.low Examples.gapZ
    /\ Zhongshu.id z' = Zhongshu.id Examples.gapZ
    /\ Zhongshu.startTime z' = Zhongshu.startTime Examples.gapZ
    /\ Zhongshu.isActive z' = Zhongshu.isActive Examples.gapZ
    /\ Zhongshu.endTime z' = 35
    /\ Zhongshu.biIds z' = [0; 1; 2] ++ [5].
Proof.
  apply (zhongshuStep_extension_frame Examples.gapZ [] 1
           (Examples.bi 3 up 20 20 25 30) (Examples.bi 4 down 25 25 30 5)
           (Examples.bi 5 up 30 8 35 22)); vm_compute; reflexivity.
Defined.

(** ** Properties of the indicators *)

Section Ema.
Import Indicators.

Lemma emaLoop_length (k : Js.number) (values : list Js.number)
    (positions : list nat) :
  forall (prev : Js.number) (result : list Js.number),
  length (emaLoop k values positions prev result) = length result.
Proof.
  induction positions as [|i rest IH]; intros prev result; simpl.
  - reflexivity.
  - rewrite IH. apply length_insert.
Qed.

(** The loop writes at the positions it visits and nowhere else. *)
Lemma emaLoop_lookup_before (k : Js.number) (values : list Js.number)
    (positions : list nat) (j : nat) :
  Forall (fun i => (j < i)%nat) positions ->
  forall (prev : Js.number) (result : list Js.number),
  emaLoop k values positions prev result !! j = result !! j.
Proof.
  induction 1 as [|i rest Hi _ IH]; intros prev result; simpl.
  - reflexivity.
  - rewrite IH. apply list_lookup_insert_ne. lia.
Qed.

Lemma range_after (from to j : nat) :
  (j < from)%nat -> Forall (fun i => (j < i)%nat) (range from to).
Proof.
  intros Hj. unfold range. apply Forall_forall. intros i Hi.
  apply elem_of_seq in Hi. lia.
Qed.

End Ema.

(** C7, as stated, fails: with fewer values than the period the result is
    the empty array, not an array of the length of the input. *)
Lemma calcEMA_short_input :
  Indicators.calcEMA [1%float] 2 = []
  /\ length (Indicators.calcEMA [1%float] 2) <> length [1%float].
Proof. split; [reflexivity | vm_compute; discriminate]. Qed.

(** [calcEMA] on fewer values than the period. *)
Lemma calcEMA_too_short (values : list Js.number) (period : nat) :
  (length values < period)%nat -> Indicators.calcEMA values period = [].
Proof.
  intros Hlen. unfold Indicators.calcEMA.
  destruct (Nat.ltb_spec (length values) period); [reflexivity | lia].
Qed.

(** C7, amended. For every list of values and every period that is at
    most the number of values, the array returned by [calcEMA] has the
    length of the input, with [NaN] at every position before index
    [period - 1]. *)
Theorem calcEMA_length_and_nan_prefix (values : list Js.number) (period : nat) :
  (period <= length values)%nat ->
  length (Indicators.calcEMA values period) = length values
  /\ forall i : nat, (i + 1 < period)%nat ->
       Indicators.calcEMA values period !! i = Some PrimFloat.nan.
Proof.
  intros Hlen. unfold Indicators.calcEMA.
  destruct (Nat.ltb_spec (length values) period); [lia|].
  split.
  - rewrite emaLoop_length. destruct period as [|p].
    + apply length_replicate.
    + rewrite length_insert. apply length_replicate.
  - intros i Hi. rewrite emaLoop_lookup_before by (apply range_after; lia).
    destruct period as [|p]; [lia|].
    rewrite list_lookup_insert_ne by lia.
    apply lookup_replicate_2. lia.
Qed.

Lemma calcEMA_length_and_nan_prefix_witness :
  length (Indicators.calcEMA [1; 2; 3; 4; 5]%float 3) = 5%nat
  /\ forall i : nat, (i + 1 < 3)%nat ->
       Indicators.calcEMA [1; 2; 3; 4; 5]%float 3 !! i = Some PrimFloat.nan.
Proof.
  apply (calcEMA_length_and_nan_prefix [1; 2; 3; 4; 5]%float 3).
  simpl. lia.
Defined.

(** The values of that run: the seed at index 2 and the recurrence with
    [k = 2 / 4] after it. *)
Lemma calcEMA_values_example :
  Indicators.calcEMA [1; 2; 3; 4; 5]%float 3
  = [PrimFloat.nan; PrimFloat.nan; 2; 3; 4]%float.
Proof. vm_compute. reflexivity. Qed.

(** *** RSI with no loss *)

(** Sixteen bars whose closes rise by one from 100: no loss at the seed
    position (index 14) nor at the position after it. *)
Definition rising16 : list OHLCBar.t :=
  (fun i =>
     let c := Js.ofZ (100 + Z.of_nat i) in
     OHLCBar.mk (Z.of_nat i) c c c c None) <$> seq 0 16.

(** With an average loss of 0 the value pushed is [100 - 100 / 101]: the
    100 of the source is given to [rs], not to the RSI. *)
Lemma rsiValue_zero_loss (avgGain avgLoss : Js.number) :
  Js.eq avgLoss 0%float = true ->
  Indicators.rsiValue avgGain avgLoss = 99.00990099009901%float.
Proof. intros H. unfold Indicators.rsiValue. rewrite H. reflexivity. Qed.

(** C6 fails on the code. On [rising16] with period 14 the average loss
    is 0 at the seed position and stays 0 after it, and the two RSI values
    produced are [99.00990099009901], not 100. *)
Theorem calcRSI_zero_loss_is_not_100 :
  (Indicators.rsiSeed (OHLCBar.close <$> rising16) 14).2 = 0%float
  /\ Indicators.calcRSI rising16 14
     = [RSIPoint.mk 14 99.00990099009901%float;
        RSIPoint.mk 15 99.00990099009901%float]
  /\ Js.eq 99.00990099009901%float 100%float = false.
Proof. repeat split; vm_compute; reflexivity. Qed.

(** ** Properties of the deduper *)

Section Deduper.
Import SignalEngine.

(** What [isDuplicate] decides: a signal may be emitted when the key has
    no entry, when its entry is 0, or when the window has passed. *)
Lemma isDuplicate_false_iff (signalHistory : gmap string Z) (now : Z)
    (symbol : string) (timeframe : Timeframe) (type : SignalType) :
  isDuplicate signalHistory now symbol timeframe type = false
  <-> signalHistory !! dedupKey symbol timeframe type = None
      \/ signalHistory !! dedupKey symbol timeframe type = Some 0
      \/ exists last,
           signalHistory !! dedupKey symbol timeframe type = Some last
           /\ now - last >= DEDUP_WINDOW_MS.
Proof.
  unfold isDuplicate.
  destruct (signalHistory !! dedupKey symbol timeframe type) as [last|].
  - destruct (Z.eqb_spec last 0) as [->|Hne].
    + split; auto.
    + rewrite Z.ltb_ge. split.
      * intros H. right; right. exists last. split; [reflexivity | lia].
      * intros [H | [H | (l & H & Hl)]]; try congruence.
        injection H as <-. lia.
  - split; auto.
Qed.

(** Between two emissions for one key of which the first is not at time
    0, the window has passed. *)
Lemma emissions_apart (signalHistory : gmap string Z) (t1 t2 : Z)
    (symbol : string) (timeframe : Timeframe) (type : SignalType) :
  t1 <> 0 ->
  isDuplicate (markTriggered signalHistory t1 symbol timeframe type) t2
    symbol timeframe type = false ->
  t2 - t1 >= DEDUP_WINDOW_MS.
Proof.
  intros Hne Hdup. apply isDuplicate_false_iff in Hdup.
  unfold markTriggered in Hdup. rewrite lookup_insert_eq in Hdup.
  destruct Hdup as [H | [H | (l & H & Hl)]]; congruence.
Qed.

End Deduper.

(** C8 fails on the code. After an emission at time 0 the key has the
    entry 0, which [!last] takes for a missing entry: 60 000 ms later, well
    inside the window of 300 000 ms, the signal is not a duplicate and is
    emitted again. *)
Theorem isDuplicate_after_emission_at_zero :
  let history :=
    SignalEngine.markTriggered ∅ 0 "EURUSD" TF_1H macd_golden_cross in
  history !! SignalEngine.dedupKey "EURUSD" TF_1H macd_golden_cross = Some 0
  /\ 60000 - 0 < SignalEngine.DEDUP_WINDOW_MS
  /\ SignalEngine.isDuplicate history 60000 "EURUSD" TF_1H macd_golden_cross
     = false.
Proof.
  cbv zeta. unfold SignalEngine.isDuplicate, SignalEngine.markTriggered.
  rewrite lookup_insert_eq. repeat split; reflexivity.
Qed.

(** ** Properties of the signal store *)

(** C10. [addSignals] with an empty batch leaves the store (its buffer
    included) as it was and calls no listener; with a batch that is not
    empty it calls every listener once, in order, with the new buffer. So
    listeners are notified only for non-empty batches. *)
Theorem addSignals_empty_batch (store : SignalEngine.SignalStore.t) :
  SignalEngine.SignalStore.addSignals store [] = (store, [])
  /\ forall (s : Signal.t) (rest : list Signal.t),
       (SignalEngine.SignalStore.addSignals store (s :: rest)).2
       = (fun cb =>
            (cb, take (SignalEngine.SignalStore.maxSignals store)
                   ((s :: rest) ++ SignalEngine.SignalStore.signals store)))
         <$> SignalEngine.SignalStore.listeners store.
Proof. split; reflexivity. Qed.

(** A call of a listener by [addSignals] shows a batch that is not empty. *)
Lemma addSignals_notifies_only_nonempty (store : SignalEngine.SignalStore.t)
    (newSignals : list Signal.t) :
  (SignalEngine.SignalStore.addSignals store newSignals).2 <> [] ->
  newSignals <> [].
Proof. intros Hcalls ->. now apply Hcalls. Qed.

(** * Further properties of the code

    ** Containment processing: the shape of the output *)

(** What the loop keeps, besides the absence of containing neighbours:
    the tail carries the position and the close of the latest bar, the
    positions fall from the tail backwards, and no more processed bars
    exist than bars were read. *)
Definition containmentShape (i : Z) (close : Js.number) (n : nat)
    (st : ContainmentState) : Prop :=
  ProcessedBar.originalIndex st.1 = i
  /\ ProcessedBar.close st.1 = close
  /\ adjacentAll (fun a b => ProcessedBar.originalIndex b <? ProcessedBar.originalIndex a)
       (st.1 :: st.2) = true
  /\ (length (st.1 :: st.2) <= n)%nat.

Lemma containmentStep_shape (i j : Z) (cur : OHLCBar.t) (c : Js.number) (n : nat)
    (st : ContainmentState) :
  containmentShape j c n st -> j < i ->
  containmentShape i (OHLCBar.close cur) (S n) (containmentStep i cur st).
Proof.
  destruct st as [prev before]. intros (Hidx & _ & Hchain & Hlen) Hji.
  cbn [fst snd] in *. unfold containmentStep.
  destruct (_ || _).
  - destruct (if _ : bool then _ else _) as [h l].
    repeat split; cbn [fst snd ProcessedBar.originalIndex ProcessedBar.close].
    + destruct before as [|pp rest]; [reflexivity|].
      rewrite adjacentAll_cons in *. cbn [ProcessedBar.originalIndex].
      apply andb_true_iff in Hchain as [Hlt Hrest]. rewrite Hrest, andb_true_r.
      apply Z.ltb_lt in Hlt. apply Z.ltb_lt. lia.
    + simpl in *. lia.
  - repeat split; cbn [fst snd].
    + rewrite adjacentAll_cons, Hchain, andb_true_r.
      apply Z.ltb_lt. simpl. lia.
    + simpl in *. lia.
Qed.

Lemma containmentLoop_shape (bars : list OHLCBar.t) :
  forall (i : Z) (c : Js.number) (n : nat) (st : ContainmentState),
  containmentShape (i - 1) c n st ->
  containmentShape (i - 1 + Z.of_nat (length bars))
    (default c (OHLCBar.close <$> last bars)) (n + length bars)
    (containmentLoop i bars st).
Proof.
  induction bars as [|cur rest IH]; intros i c n st Hst.
  - cbn. now rewrite Z.add_0_r, Nat.add_0_r.
  - cbn [containmentLoop].
    pose proof (containmentStep_shape i (i - 1) cur c n st Hst ltac:(lia))
      as Hstep.
    replace i with (i + 1 - 1) in Hstep at 1 by lia.
    pose proof (IH (i + 1) _ _ _ Hstep) as H.
    replace (i - 1 + Z.of_nat (length (cur :: rest)))
      with (i + 1 - 1 + Z.of_nat (length rest)) by (cbn [length]; lia).
    replace (n + length (cur :: rest))%nat with (S n + length rest)%nat
      by (cbn [length]; lia).
    replace (default c (OHLCBar.close <$> last (cur :: rest)))
      with (default (OHLCBar.close cur) (OHLCBar.close <$> last rest)); [exact H|].
    destruct rest as [|b rest']; [reflexivity|].
    change (last (cur :: b :: rest')) with (last (b :: rest')).
    destruct (proj2 (last_is_Some (b :: rest')) ltac:(discriminate)) as [x ->].
    reflexivity.
Qed.

(** The state with which [processContainment] leaves its loop. *)
Lemma processContainment_final (b0 : OHLCBar.t) (rest : list OHLCBar.t) :
  exists prev before,
    processContainment (b0 :: rest) = rev (prev :: before)
    /\ containmentShape (Z.of_nat (length rest))
         (default (OHLCBar.close b0) (OHLCBar.close <$> last rest))
         (S (length rest)) (prev, before).
Proof.
  pose proof (containmentLoop_shape rest 1 (OHLCBar.close b0) 1
                (processedOf 0 b0, [])) as H.
  cbn [processContainment].
  destruct (containmentLoop 1 rest (processedOf 0 b0, [])) as [prev before].
  exists prev, before. split; [reflexivity|].
  rewrite Z.sub_diag, Z.add_0_l in H. apply H.
  repeat split; simpl; lia.
Qed.

Lemma adjacentAll_rev_flip {A : Type} (R : A -> A -> bool) (l : list A) :
  adjacentAll R (rev l) = adjacentAll (fun a b => R b a) l.
Proof.
  induction l as [|a l IH]; [reflexivity|].
  destruct l as [|b l]; [reflexivity|].
  change (rev (a :: b :: l)) with ((rev l ++ [b]) ++ [a]).
  rewrite adjacentAll_snoc.
  change (rev l ++ [b]) with (rev (b :: l)). rewrite IH.
  rewrite adjacentAll_cons. apply andb_comm.
Qed.

(** X1. [processContainment] never returns more processed bars than it was
    given bars, and returns none exactly on the empty input. *)
Theorem processContainment_length (bars : list OHLCBar.t) :
  (length (processContainment bars) <= length bars)%nat
  /\ (processContainment bars = [] <-> bars = []).
Proof.
  destruct bars as [|b0 rest]; [split; [reflexivity | tauto]|].
  destruct (processContainment_final b0 rest)
    as (prev & before & -> & _ & _ & _ & Hlen).
  cbn [fst snd] in Hlen. split.
  - rewrite length_rev. exact Hlen.
  - split; [|discriminate]. intros H. apply (f_equal length) in H.
    rewrite length_rev in H. discriminate.
Qed.

(** X2. The last processed bar follows the latest source bar: its
    [originalIndex] is [bars.length - 1] and its [close] is the close of
    the last bar, whether that bar was appended or merged. *)
Theorem processContainment_tail (bars : list OHLCBar.t) :
  ProcessedBar.originalIndex <$> last (processContainment bars)
  = (fun _ => Z.of_nat (length bars) - 1) <$> last bars
  /\ ProcessedBar.close <$> last (processContainment bars)
     = OHLCBar.close <$> last bars.
Proof.
  destruct bars as [|b0 rest]; [split; reflexivity|].
  destruct (processContainment_final b0 rest)
    as (prev & before & -> & Hidx & Hclose & _ & _).
  cbn [fst snd] in *. cbn [rev]. rewrite last_snoc. cbn [fmap option_fmap option_map].
  rewrite Hidx, Hclose.
  destruct rest as [|b rest']; [split; reflexivity|].
  change (last (b0 :: b :: rest')) with (last (b :: rest')).
  destruct (proj2 (last_is_Some (b :: rest')) ltac:(discriminate)) as [x ->].
  cbn [fmap option_fmap option_map default]. split; [f_equal|reflexivity].
  cbn [length]. lia.
Qed.

(** X3. Along the output of [processContainment] the [originalIndex]
    strictly increases: every source bar is absorbed by one processed bar,
    in order. *)
Theorem processContainment_originalIndex_increasing (bars : list OHLCBar.t) :
  adjacentAll
    (fun a b => ProcessedBar.originalIndex a <? ProcessedBar.originalIndex b)
    (processContainment bars) = true.
Proof.
  destruct bars as [|b0 rest]; [reflexivity|].
  destruct (processContainment_final b0 rest)
    as (prev & before & -> & _ & _ & Hchain & _).
  rewrite adjacentAll_rev_flip. exact Hchain.
Qed.

(** [bars[i].time] for an integer [i] inside the array. *)
Definition barTime (bars : list OHLCBar.t) (i : Z) : option Z :=
  OHLCBar.time <$> bars !! Z.to_nat i.

(** Along [out], every processed bar has the time of the source bar at
    [start], and the next one starts after its [originalIndex]. *)
Fixpoint startsGroups (bars : list OHLCBar.t) (start : Z)
    (out : list ProcessedBar.t) : Prop :=
  match out with
  | [] => True
  | p :: tail =>
      barTime bars start = Some (ProcessedBar.time p)
      /\ startsGroups bars (ProcessedBar.originalIndex p + 1) tail
  end.

Lemma startsGroups_snoc (bars : list OHLCBar.t) (out : list ProcessedBar.t)
    (p : ProcessedBar.t) :
  forall start : Z,
  startsGroups bars start (out ++ [p])
  <-> startsGroups bars start out
      /\ barTime bars
           (default start ((fun q => ProcessedBar.originalIndex q + 1) <$> last out))
         = Some (ProcessedBar.time p).
Proof.
  induction out as [|q out IH]; intros start; cbn [app startsGroups].
  - cbn. tauto.
  - rewrite IH. destruct out as [|r out']; [cbn; tauto|].
    change (last (q :: r :: out')) with (last (r :: out')).
    destruct (proj2 (last_is_Some (r :: out')) ltac:(discriminate)) as [x ->].
    cbn. tauto.
Qed.

(** The loop keeps the times of the groups: a merge leaves the time of the
    tail as it is, an append takes the time of the bar appended. *)
Lemma containmentLoop_groups (bars : list OHLCBar.t) (remaining : list OHLCBar.t) :
  forall (done : list OHLCBar.t) (c : Js.number) (n : nat) (st : ContainmentState),
  bars = done ++ remaining ->
  containmentShape (Z.of_nat (length done) - 1) c n st ->
  startsGroups bars 0 (rev (st.1 :: st.2)) ->
  startsGroups bars 0
    (rev ((containmentLoop (Z.of_nat (length done)) remaining st).1
          :: (containmentLoop (Z.of_nat (length done)) remaining st).2)).
Proof.
  induction remaining as [|cur rest IH]; intros done c n st Hbars Hshape Hgroups.
  - exact Hgroups.
  - cbn [containmentLoop].
    pose proof (containmentStep_shape (Z.of_nat (length done))
                  (Z.of_nat (length done) - 1) cur c n st Hshape ltac:(lia))
      as Hstep.
    replace (Z.of_nat (length done) + 1)
      with (Z.of_nat (length (done ++ [cur]))) by (rewrite length_app; cbn; lia).
    apply (IH (done ++ [cur]) (OHLCBar.close cur) (S n)).
    + now rewrite <- app_assoc.
    + replace (Z.of_nat (length (done ++ [cur])) - 1)
        with (Z.of_nat (length done)) by (rewrite length_app; cbn; lia).
      exact Hstep.
    + destruct st as [prev before]. destruct Hshape as (Hidx & _).
      cbn [fst snd] in *. unfold containmentStep.
      destruct (_ || _).
      * destruct (if _ : bool then _ else _) as [h l]. cbn [fst snd rev] in *.
        apply startsGroups_snoc in Hgroups as [Hbefore Htime].
        apply startsGroups_snoc. split; [exact Hbefore | exact Htime].
      * cbn [fst snd]. change (rev (processedOf (Z.of_nat (length done)) cur
                                    :: prev :: before))
          with (rev (prev :: before) ++ [processedOf (Z.of_nat (length done)) cur]).
        apply startsGroups_snoc. split; [exact Hgroups|].
        cbn [rev]. rewrite last_snoc. cbn [fmap option_fmap option_map default].
        rewrite Hidx. unfold barTime, processedOf. cbn [ProcessedBar.time].
        match goal with
        | |- context [Z.to_nat ?z] =>
            replace (Z.to_nat z) with (length done) by (unfold id; lia)
        end.
        rewrite Hbars, list_lookup_middle by reflexivity. reflexivity.
Qed.

(** X4. A processed bar carries the [time] of the first source bar of its
    group and the [originalIndex] of the last: the first processed bar has
    the time of [bars[0]], and each later one the time of the source bar
    right after the [originalIndex] of the processed bar before it. A merge
    does not move the time of the bar it merges into. *)
Theorem processContainment_times (bars : list OHLCBar.t) :
  startsGroups bars 0 (processContainment bars).
Proof.
  destruct bars as [|b0 rest]; [exact I|].
  pose proof (containmentLoop_groups (b0 :: rest) rest [b0] (OHLCBar.close b0) 1
                (processedOf 0 b0, []) eq_refl) as H.
  cbn [processContainment].
  change (Z.of_nat (length [b0])) with 1 in H.
  destruct (containmentLoop 1 rest (processedOf 0 b0, [])) as [prev before].
  apply H.
  - repeat split; cbn; lia.
  - cbn. split; [reflexivity | exact I].
Qed.

(** ** Fractal detection *)

(** The fractal, if any, of the processed bar [cur] at position [i],
    between [prev] and [next]: a top when its high is strictly above both
    neighbours' highs, otherwise a bottom when its low is strictly below
    both neighbours' lows. *)
Definition fractalAt (i : Z) (prev cur next : ProcessedBar.t) : option Fractal.t :=
  if Js.gt (ProcessedBar.high cur) (ProcessedBar.high prev)
     && Js.gt (ProcessedBar.high cur) (ProcessedBar.high next)
  then Some (Fractal.mk i (ProcessedBar.time cur) (ProcessedBar.high cur) top)
  else if Js.lt (ProcessedBar.low cur) (ProcessedBar.low prev)
          && Js.lt (ProcessedBar.low cur) (ProcessedBar.low next)
  then Some (Fractal.mk i (ProcessedBar.time cur) (ProcessedBar.low cur) bottom)
  else None.

Lemma detectFractalsFrom_unfold (i : Z) (prev cur next : ProcessedBar.t)
    (rest : list ProcessedBar.t) :
  detectFractalsFrom i (prev :: cur :: next :: rest)
  = option_list (fractalAt i prev cur next)
    ++ detectFractalsFrom (i + 1) (cur :: next :: rest).
Proof.
  cbn [detectFractalsFrom]. unfold fractalAt.
  repeat (destruct (_ && _)); reflexivity.
Qed.

Lemma detectFractalsFrom_elem (window : list ProcessedBar.t) :
  forall (i : Z) (f : Fractal.t),
  f ∈ detectFractalsFrom i window
  <-> exists (k : nat) (prev cur next : ProcessedBar.t),
        window !! k = Some prev /\ window !! S k = Some cur
        /\ window !! S (S k) = Some next
        /\ fractalAt (i + Z.of_nat k) prev cur next = Some f.
Proof.
  induction window as [|prev window IH]; intros i f.
  - split; [intros H; inversion H | intros (k & ? & ? & ? & H & _); discriminate].
  - destruct window as [|cur [|next rest]].
    + split; [intros H; inversion H|].
      intros (k & ? & ? & ? & _ & H & _). destruct k; discriminate.
    + split; [intros H; inversion H|].
      intros (k & ? & ? & ? & _ & _ & H & _). destruct k as [|[|k]]; discriminate.
    + rewrite detectFractalsFrom_unfold, elem_of_app, IH. split.
      * intros [H | (k & p & c & n & Hp & Hc & Hn & Hf)].
        -- exists 0%nat, prev, cur, next. rewrite Z.add_0_r.
           repeat split; try reflexivity.
           destruct (fractalAt i prev cur next); [|inversion H].
           apply list_elem_of_singleton in H. now subst.
        -- exists (S k), p, c, n. repeat split; try assumption.
           rewrite <- Hf. f_equal. lia.
      * intros (k & p & c & n & Hp & Hc & Hn & Hf). destruct k as [|k].
        -- left. cbn in Hp, Hc, Hn. injection Hp as <-. injection Hc as <-.
           injection Hn as <-. rewrite Z.add_0_r in Hf. rewrite Hf.
           apply list_elem_of_singleton. reflexivity.
        -- right. exists k, p, c, n. repeat split; try assumption.
           rewrite <- Hf. f_equal. lia.
Qed.

(** X5. The fractals returned by [detectFractals] are exactly those of the
    interior positions: [f] is in the output if and only if it is the top
    or bottom made at some position [k + 1] from the processed bars at
    [k], [k + 1] and [k + 2], with the high or low of the middle bar as
    its price and the time of the middle bar as its time. *)
Theorem detectFractals_elem (processed : list ProcessedBar.t) (f : Fractal.t) :
  f ∈ detectFractals processed
  <-> exists (k : nat) (prev cur next : ProcessedBar.t),
        processed !! k = Some prev /\ processed !! S k = Some cur
        /\ processed !! S (S k) = Some next
        /\ fractalAt (Z.of_nat (S k)) prev cur next = Some f.
Proof.
  unfold detectFractals. rewrite detectFractalsFrom_elem.
  split; intros (k & p & c & n & Hp & Hc & Hn & Hf);
    exists k, p, c, n; repeat split; try assumption;
    rewrite <- Hf; f_equal; lia.
Qed.

Lemma detectFractalsFrom_indices (window : list ProcessedBar.t) :
  forall i : Z,
  adjacentAll (fun a b => Fractal.index a <? Fractal.index b)
    (detectFractalsFrom i window) = true
  /\ Forall (fun f => i <= Fractal.index f
                      /\ Fractal.index f < i + Z.of_nat (length window) - 2)
       (detectFractalsFrom i window).
Proof.
  induction window as [|prev window IH]; intros i; [split; [reflexivity|constructor]|].
  destruct window as [|cur [|next rest]]; try (split; [reflexivity|constructor]).
  rewrite detectFractalsFrom_unfold.
  destruct (IH (i + 1)) as [Hsorted Hbounds].
  assert (Hbounds' :
            Forall (fun f => i + 1 <= Fractal.index f
                             /\ Fractal.index f
                                < i + Z.of_nat (length (prev :: cur :: next :: rest)) - 2)
              (detectFractalsFrom (i + 1) (cur :: next :: rest))).
  { eapply Forall_impl; [exact Hbounds|]. cbn [length]. intros f [? ?]. lia. }
  assert (Hidx : forall f, fractalAt i prev cur next = Some f -> Fractal.index f = i).
  { unfold fractalAt. intros f. repeat (destruct (_ && _)); intros H;
      try discriminate; injection H as <-; reflexivity. }
  destruct (fractalAt i prev cur next) as [f|] eqn:Ef;
    unfold option_list; cbn [option_rect app].
  - specialize (Hidx f eq_refl). split.
    + destruct (detectFractalsFrom (i + 1) (cur :: next :: rest)) as [|g tail] eqn:Eg;
        [reflexivity|].
      rewrite adjacentAll_cons, Hsorted, andb_true_r.
      apply Forall_cons in Hbounds' as [[Hg _] _]. apply Z.ltb_lt. lia.
    + constructor.
      * cbn [length]. lia.
      * eapply Forall_impl; [exact Hbounds'|]. intros g [? ?]. lia.
  - split; [exact Hsorted|].
    eapply Forall_impl; [exact Hbounds'|]. intros g [? ?]. lia.
Qed.

(** X6. The fractals come out in order of position: their [index] strictly
    increases (so a position holds at most one fractal, never a top and a
    bottom), and every index is an interior position, from 1 to
    [processed.length - 2]. *)
Theorem detectFractals_indices (processed : list ProcessedBar.t) :
  adjacentAll (fun a b => Fractal.index a <? Fractal.index b)
    (detectFractals processed) = true
  /\ Forall (fun f => 1 <= Fractal.index f
                      /\ Fractal.index f <= Z.of_nat (length processed) - 2)
       (detectFractals processed).
Proof.
  destruct (detectFractalsFrom_indices processed 1) as [Hsorted Hbounds].
  split; [exact Hsorted|].
  eapply Forall_impl; [exact Hbounds|]. intros f [? ?]. lia.
Qed.

(** ** Bi formation *)

Lemma biLoop_unfold (atrValues : list Js.number) (params : ChanlunParams.t)
    (biId : Z) (start end_ : Fractal.t) (rest : list Fractal.t) :
  biLoop atrValues params biId (start :: end_ :: rest)
  = let kbarCount := Fractal.index end_ - Fractal.index start in
    if kbarCount <? ChanlunParams.minBiKbars params then
      biLoop atrValues params biId (end_ :: rest)
    else
      let avgAtr :=
        getAvgATR atrValues (Fractal.index start) (Fractal.index end_) in
      let move := Js.abs (Fractal.price end_ - Fractal.price start)%float in
      if Js.gt avgAtr 0%float
         && Js.lt move (ChanlunParams.minBiMoveAtr params * avgAtr)%float
      then biLoop atrValues params biId (end_ :: rest)
      else
        Bi.mk biId
          (if bool_decide (Fractal.type start = bottom) then up else down)
          start end_ kbarCount
        :: biLoop atrValues params (biId + 1) (end_ :: rest).
Proof. reflexivity. Qed.

Lemma biLoop_ids (atrValues : list Js.number) (params : ChanlunParams.t)
    (filtered : list Fractal.t) :
  forall biId : Z,
  Bi.id <$> biLoop atrValues params biId filtered
  = (fun k => biId + Z.of_nat k)
    <$> seq 0 (length (biLoop atrValues params biId filtered)).
Proof.
  induction filtered as [|start rest IH]; intros biId; [reflexivity|].
  destruct rest as [|end_ rest]; [reflexivity|].
  rewrite biLoop_unfold. cbv zeta.
  destruct (_ <? _); [apply IH|].
  destruct (_ && _); [apply IH|].
  cbn [fmap list_fmap length seq Bi.id]. rewrite Z.add_0_r. f_equal.
  change (list_fmap _ _ Bi.id ?l) with (Bi.id <$> l). rewrite IH.
  rewrite <- seq_shift, <- list_fmap_compose.
  apply list_fmap_ext. intros _ k _. cbn. lia.
Qed.

(** X7. The ids of the bis returned by [formBis] are 0, 1, 2, ... in
    emission order, whatever pairs of fractals were rejected in between. *)
Theorem formBis_ids_dense (fractals : list Fractal.t)
    (processed : list ProcessedBar.t) (atrValues : list Js.number)
    (params : ChanlunParams.t) :
  Bi.id <$> formBis fractals processed atrValues params
  = Z.of_nat <$> seq 0 (length (formBis fractals processed atrValues params)).
Proof.
  unfold formBis. destruct fractals as [|f0 [|f1 rest]]; try reflexivity.
  rewrite biLoop_ids. apply list_fmap_ext. intros _ k _. lia.
Qed.

(** The thresholds a pair of fractals passes to become a bi. *)
Definition passesThresholds (atrValues : list Js.number)
    (params : ChanlunParams.t) (b : Bi.t) : Prop :=
  let start := Bi.startFractal b in
  let end_ := Bi.endFractal b in
  let avgAtr := getAvgATR atrValues (Fractal.index start) (Fractal.index end_) in
  let move := Js.abs (Fractal.price end_ - Fractal.price start)%float in
  Bi.kbarCount b = Fractal.index end_ - Fractal.index start
  /\ ChanlunParams.minBiKbars params <= Bi.kbarCount b
  /\ Js.gt avgAtr 0%float
     && Js.lt move (ChanlunParams.minBiMoveAtr params * avgAtr)%float = false.

Lemma biLoop_thresholds (atrValues : list Js.number) (params : ChanlunParams.t)
    (filtered : list Fractal.t) :
  forall biId : Z,
  Forall (fun b => passesThresholds atrValues params b
                   /\ Bi.startFractal b ∈ filtered
                   /\ Bi.endFractal b ∈ filtered)
    (biLoop atrValues params biId filtered).
Proof.
  induction filtered as [|start rest IH]; intros biId; [constructor|].
  destruct rest as [|end_ rest]; [constructor|].
  assert (Hrest : forall id,
            Forall (fun b => passesThresholds atrValues params b
                             /\ Bi.startFractal b ∈ start :: end_ :: rest
                             /\ Bi.endFractal b ∈ start :: end_ :: rest)
              (biLoop atrValues params id (end_ :: rest))).
  { intros id. eapply Forall_impl; [apply IH|].
    intros b (? & ? & ?).
    split; [assumption|]. split; now apply list_elem_of_further. }
  rewrite biLoop_unfold. cbv zeta.
  destruct (_ <? _) eqn:Ek; [apply Hrest|].
  destruct (_ && _) eqn:Em; [apply Hrest|].
  constructor; [|apply Hrest].
  split; [|split].
  - unfold passesThresholds. cbn. apply Z.ltb_ge in Ek.
    split; [reflexivity|]. split; [exact Ek | exact Em].
  - cbn. apply list_elem_of_here.
  - cbn. apply list_elem_of_further, list_elem_of_here.
Qed.

(** The fractals that the filter keeps are fractals of the input. *)
Lemma filterFractals_subset (f0 : Fractal.t) (rest : list Fractal.t) :
  forall f, f ∈ filterFractals f0 rest -> f ∈ f0 :: rest.
Proof.
  unfold filterFractals.
  assert (Hfold : forall (seen : list Fractal.t) st,
            (forall f, f ∈ st.1 :: st.2 -> f ∈ f0 :: seen) ->
            forall f, f ∈ (fold_left filterStep rest st).1
                          :: (fold_left filterStep rest st).2 ->
                      f ∈ f0 :: seen ++ rest).
  { induction rest as [|cur rest IH]; intros seen [last before] Hst f Hf.
    - rewrite app_nil_r. now apply Hst.
    - cbn [fold_left] in Hf.
      replace (seen ++ cur :: rest) with ((seen ++ [cur]) ++ rest)
        by now rewrite <- app_assoc.
      apply (IH (seen ++ [cur]) (filterStep (last, before) cur)); [|exact Hf].
      intros g Hg. cbn [fst snd] in Hst.
      assert (Hcur : cur ∈ f0 :: seen ++ [cur]).
      { apply list_elem_of_further, elem_of_app. right. apply list_elem_of_here. }
      assert (Hold : forall x, x ∈ last :: before -> x ∈ f0 :: seen ++ [cur]).
      { intros x Hx. specialize (Hst x Hx).
        apply elem_of_cons in Hst as [->|Hs]; [apply list_elem_of_here|].
        apply list_elem_of_further, elem_of_app. now left. }
      assert (Hstep : g = cur \/ g ∈ last :: before).
      { unfold filterStep in Hg. repeat case_match; cbn [fst snd] in Hg;
          apply elem_of_cons in Hg as [->|Hin];
          auto using list_elem_of_here, list_elem_of_further. }
      destruct Hstep as [->|Hg']; [exact Hcur | now apply Hold].
  }
  specialize (Hfold [] (f0, [])).
  destruct (fold_left filterStep rest (f0, [])) as [last before].
  intros f Hf. apply (Hfold ltac:(intros g Hg; exact Hg) f).
  cbn [fst snd]. apply list_elem_of_In, in_rev, list_elem_of_In. exact Hf.
Qed.

(** X8. Every bi returned by [formBis] joins two fractals of the input of
    different kinds, upward from a bottom and downward from a top, counts
    [kbarCount = end.index - start.index >= minBiKbars] bars, and moves by
    at least [minBiMoveAtr] average ATRs when the average ATR of its span
    is positive. *)
Theorem formBis_bis_well_formed (fractals : list Fractal.t)
    (processed : list ProcessedBar.t) (atrValues : list Js.number)
    (params : ChanlunParams.t) :
  Forall (fun b => joinsOpposite b
                   /\ passesThresholds atrValues params b
                   /\ Bi.startFractal b ∈ fractals
                   /\ Bi.endFractal b ∈ fractals)
    (formBis fractals processed atrValues params).
Proof.
  pose proof (formBis_joinsOpposite fractals processed atrValues params) as Hkinds.
  unfold formBis in *. destruct fractals as [|f0 [|f1 rest]]; try constructor.
  pose proof (biLoop_thresholds atrValues params (filterFractals f0 (f1 :: rest)) 0)
    as Hthr.
  rewrite Forall_forall in *. intros b Hb.
  destruct (Hthr b Hb) as (Hp & Hs & He).
  split; [exact (Hkinds b Hb)|]. split; [exact Hp|].
  split; now apply filterFractals_subset.
Qed.

(** ** Zhongshu detection *)

Section ZhongshuInvariants.

(** The triple [b1], [b2], [b3] stands at consecutive positions of [bis]. *)
Definition consecutiveIn (bis : list Bi.t) (b1 b2 b3 : Bi.t) : Prop :=
  exists before after, bis = before ++ b1 :: b2 :: b3 :: after.

(** What holds of every zhongshu of the output, for the input [bis]. *)
Definition zhongshuOf (bis : list Bi.t) (z : Zhongshu.t) : Prop :=
  Js.le (Zhongshu.high z) (Zhongshu.low z) = false
  /\ Zhongshu.isActive z = true
  /\ exists (b1 b2 b3 : Bi.t) (later : list Z),
       consecutiveIn bis b1 b2 b3
       /\ Zhongshu.high z = Range.high (overlapOf b1 b2 b3)
       /\ Zhongshu.low z = Range.low (overlapOf b1 b2 b3)
       /\ Zhongshu.startTime z = Fractal.time (Bi.startFractal b1)
       /\ Zhongshu.biIds z = [Bi.id b1; Bi.id b2; Bi.id b3] ++ later
       /\ Forall (fun i => exists b, b ∈ bis /\ Bi.id b = i) later.

Lemma zhongshuStep_invariant (bis : list Bi.t) (st : ZhongshuState)
    (b1 b2 b3 : Bi.t) :
  consecutiveIn bis b1 b2 b3 ->
  Forall (zhongshuOf bis) st.1 ->
  Forall (zhongshuOf bis) (zhongshuStep st b1 b2 b3).1.
Proof.
  intros Hcons Hst. destruct st as [zhongshus zId]. cbn [fst] in Hst.
  unfold zhongshuStep.
  destruct (Js.le _ _) eqn:Hoverlap; [exact Hst|].
  assert (Hpushed :
            zhongshuOf bis
              (Zhongshu.mk zId (Range.high (overlapOf b1 b2 b3))
                 (Range.low (overlapOf b1 b2 b3))
                 (Fractal.time (Bi.startFractal b1))
                 (Fractal.time (Bi.endFractal b3))
                 [Bi.id b1; Bi.id b2; Bi.id b3] true)).
  { split; [exact Hoverlap|]. split; [reflexivity|].
    exists b1, b2, b3, []. repeat split; try reflexivity; [exact Hcons | constructor]. }
  destruct zhongshus as [|lastZ before];
    [constructor; [exact Hpushed | constructor]|].
  destruct (canExtend lastZ b1 b3); [|constructor; [exact Hpushed | exact Hst]].
  apply Forall_cons in Hst as [(Hr & Ha & c1 & c2 & c3 & later & Hc & Hh & Hl & Hs & Hids & Hlater) Hrest].
  constructor; [|exact Hrest].
  split; [exact Hr|]. split; [exact Ha|].
  exists c1, c2, c3, (later ++ [Bi.id b3]).
  repeat split; try assumption.
  - cbn. rewrite Hids. now rewrite <- app_assoc.
  - apply Forall_app. split; [exact Hlater|]. constructor; [|constructor].
    exists b3. split; [|reflexivity].
    destruct Hcons as (pre & post & ->).
    apply elem_of_app. right.
    do 2 apply list_elem_of_further. apply list_elem_of_here.
Qed.

Lemma zhongshuLoop_invariant (bis : list Bi.t) (remaining : list Bi.t) :
  forall (done : list Bi.t) (st : ZhongshuState),
  bis = done ++ remaining ->
  Forall (zhongshuOf bis) st.1 ->
  Forall (zhongshuOf bis) (zhongshuLoop remaining st).1.
Proof.
  induction remaining as [|b1 rest IH]; intros done st Hbis Hst; [exact Hst|].
  destruct rest as [|b2 [|b3 rest]]; try exact Hst.
  rewrite zhongshuLoop_unfold.
  apply (IH (done ++ [b1])); [now rewrite <- app_assoc|].
  apply zhongshuStep_invariant; [|exact Hst].
  now exists done, rest.
Qed.

(** The counter [zId] is the number of zhongshus found, and the ids are
    0, 1, 2, ... from the oldest to the latest. *)
Definition idsDense (st : ZhongshuState) : Prop :=
  st.2 = Z.of_nat (length st.1)
  /\ Zhongshu.id <$> rev st.1 = Z.of_nat <$> seq 0 (length st.1).

Lemma zhongshuStep_idsDense (st : ZhongshuState) (b1 b2 b3 : Bi.t) :
  idsDense st -> idsDense (zhongshuStep st b1 b2 b3).
Proof.
  destruct st as [zhongshus zId]. intros [Hn Hids]. cbn [fst snd] in *.
  destruct (zhongshuStep_cases zhongshus zId b1 b2 b3)
    as [-> | [[z Hz] | (lastZ & before & -> & _ & ->)]].
  - now split.
  - unfold zhongshuStep in *. destruct (Js.le _ _); [injection Hz; lia|].
    assert (Hpush : forall high low t1 t2 ids,
              idsDense (Zhongshu.mk zId high low t1 t2 ids true :: zhongshus,
                        zId + 1)).
    { intros. split; cbn [fst snd length rev].
      - lia.
      - rewrite fmap_app, Hids, seq_S, fmap_app. cbn. now rewrite Hn. }
    destruct zhongshus as [|lastZ before]; [apply Hpush|].
    destruct (canExtend lastZ b1 b3); [|apply Hpush].
    injection Hz; intros; lia.
  - split; cbn [fst snd length rev] in *; [exact Hn|].
    rewrite fmap_app in *. exact Hids.
Qed.

Lemma zhongshuLoop_idsDense (bis : list Bi.t) :
  forall st : ZhongshuState, idsDense st -> idsDense (zhongshuLoop bis st).
Proof.
  induction bis as [|b1 rest IH]; intros st Hst; [exact Hst|].
  destruct rest as [|b2 [|b3 rest]]; try exact Hst.
  rewrite zhongshuLoop_unfold. now apply IH, zhongshuStep_idsDense.
Qed.

End ZhongshuInvariants.

(** X9. Every zhongshu returned by [detectZhongshu] is active, has a range
    with [high <= low] false, and comes from three consecutive bis of the
    input: its range is their overlap, it starts when the first of them
    starts, and its [biIds] are the ids of the three followed by the ids
    of the bis of the input that extended it. *)
Theorem detectZhongshu_zhongshus (bis : list Bi.t) :
  Forall (zhongshuOf bis) (detectZhongshu bis).
Proof.
  unfold detectZhongshu. destruct (_ <? _)%nat; [constructor|].
  pose proof (zhongshuLoop_invariant bis bis [] ([], 0) eq_refl
                ltac:(constructor)) as H.
  rewrite Forall_forall in *. intros z Hz. apply H.
  apply list_elem_of_In, in_rev, list_elem_of_In. exact Hz.
Qed.

(** X10. The ids of the zhongshus returned by [detectZhongshu] are
    0, 1, 2, ... in order: an extension does not use up an id. *)
Theorem detectZhongshu_ids_dense (bis : list Bi.t) :
  Zhongshu.id <$> detectZhongshu bis
  = Z.of_nat <$> seq 0 (length (detectZhongshu bis)).
Proof.
  unfold detectZhongshu. destruct (_ <? _)%nat; [reflexivity|].
  destruct (zhongshuLoop_idsDense bis ([], 0)) as [_ Hids]; [now split|].
  rewrite length_rev. exact Hids.
Qed.

(** ** Third-buy detection *)

Lemma findIndexFrom_Some (lastBiId : Z) (bis : list Bi.t) :
  forall (i k : nat),
  findIndexFrom lastBiId i bis = Some k ->
  exists (off : nat) (b : Bi.t),
    k = (i + off)%nat /\ bis !! off = Some b /\ Bi.id b = lastBiId.
Proof.
  induction bis as [|b rest IH]; intros i k H; [discriminate|].
  cbn [findIndexFrom] in H. destruct (Z.eqb_spec (Bi.id b) lastBiId) as [Heq|Hne].
  - injection H as <-. exists 0%nat, b. repeat split; [lia | exact Heq].
  - destruct (IH _ _ H) as (off & b' & -> & Hb' & Hid).
    exists (S off), b'. repeat split; [lia | exact Hb' | exact Hid].
Qed.

Lemma findBreakout_Some (atrValues : list Js.number) (params : ChanlunParams.t)
    (z : Zhongshu.t) (bis : list Bi.t) :
  forall (i k : nat) (b : Bi.t),
  findBreakout atrValues params z i bis = Some (k, b) ->
  exists off : nat,
    k = (i + off)%nat /\ bis !! off = Some b
    /\ isBreakout atrValues params z b = true
    /\ forall (j : nat) (b' : Bi.t),
         (j < off)%nat -> bis !! j = Some b' ->
         isBreakout atrValues params z b' = false.
Proof.
  induction bis as [|b0 rest IH]; intros i k b H; [discriminate|].
  cbn [findBreakout] in H. destruct (isBreakout atrValues params z b0) eqn:E.
  - injection H as <- <-. exists 0%nat. repeat split; [lia | exact E|].
    intros j b' Hj. lia.
  - destruct (IH _ _ _ H) as (off & -> & Hb & Hout & Hfirst).
    exists (S off). repeat split; [lia | exact Hb | exact Hout|].
    intros [|j] b' Hj Hb'; [cbn in Hb'; congruence|].
    apply (Hfirst j b'); [lia | exact Hb'].
Qed.

(** X11. The breakout bi that [detectThirdBuys] works with is the first
    bi after the last contributing bi of the zhongshu that is upward, ends
    above [z.high] and clears it by [breakoutAtr] average ATRs: it stands
    at the position returned, after the position of the bi whose id is the
    last of [z.biIds], and no bi in between passes that test. *)
Theorem breakoutOf_first_breakout (bis : list Bi.t) (atrValues : list Js.number)
    (params : ChanlunParams.t) (z : Zhongshu.t) (breakoutIdx : nat)
    (breakoutBi : Bi.t) :
  breakoutOf bis atrValues params z = Some (breakoutIdx, breakoutBi) ->
  bis !! breakoutIdx = Some breakoutBi
  /\ isBreakout atrValues params z breakoutBi = true
  /\ exists (lastBiIdx : nat) (lastBi : Bi.t),
       bis !! lastBiIdx = Some lastBi
       /\ Some (Bi.id lastBi) = lastOf (Zhongshu.biIds z)
       /\ (lastBiIdx < breakoutIdx)%nat
       /\ forall (j : nat) (b : Bi.t),
            (lastBiIdx < j < breakoutIdx)%nat -> bis !! j = Some b ->
            isBreakout atrValues params z b = false.
Proof.
  unfold breakoutOf, findIndex. intros H.
  destruct (lastOf (Zhongshu.biIds z)) as [l|]; [|discriminate].
  destruct (findIndexFrom l 0 bis) as [lastBiIdx|] eqn:Eidx; [|discriminate].
  destruct (_ <=? _); [discriminate|].
  apply findIndexFrom_Some in Eidx as (off & lastBi & -> & HlastBi & Hid).
  apply findBreakout_Some in H as (k & -> & Hb & Hout & Hfirst).
  rewrite lookup_drop in Hb.
  split; [rewrite <- Hb; f_equal; lia|]. split; [exact Hout|].
  exists off, lastBi. repeat split; [exact HlastBi | now rewrite Hid | lia|].
  intros j b Hj Hbj. apply (Hfirst (j - (off + 1))%nat b); [lia|].
  rewrite lookup_drop. rewrite <- Hbj. f_equal. lia.
Qed.

(** The first zhongshu of [confirmed9] with [minBiKbars = 1]. *)
Definition confirmed9Z : Zhongshu.t :=
  Zhongshu.mk 0 (Js.ofZ 28) (Js.ofZ 8) 1 4 [0; 1; 2] true.

Lemma breakoutOf_first_breakout_witness :
  exists breakoutBi : Bi.t,
    Examples.bisOf 1 Examples.confirmed9 !! 3%nat = Some breakoutBi
    /\ isBreakout (Examples.atrOf Examples.confirmed9) (Examples.paramsOf 1)
         confirmed9Z breakoutBi = true
    /\ exists (lastBiIdx : nat) (lastBi : Bi.t),
         Examples.bisOf 1 Examples.confirmed9 !! lastBiIdx = Some lastBi
         /\ Some (Bi.id lastBi) = lastOf (Zhongshu.biIds confirmed9Z)
         /\ (lastBiIdx < 3)%nat
         /\ forall (j : nat) (b : Bi.t),
              (lastBiIdx < j < 3)%nat ->
              Examples.bisOf 1 Examples.confirmed9 !! j = Some b ->
              isBreakout (Examples.atrOf Examples.confirmed9)
                (Examples.paramsOf 1) confirmed9Z b = false.
Proof.
  eexists.
  eapply (breakoutOf_first_breakout (Examples.bisOf 1 Examples.confirmed9)
            (Examples.atrOf Examples.confirmed9) (Examples.paramsOf 1)
            confirmed9Z 3).
  vm_compute. reflexivity.
Defined.

Section ThirdBuySoundness.

Variable ids : nat -> string.
Variable bis : list Bi.t.
Variable atrValues : list Js.number.
Variable params : ChanlunParams.t.
Variable symbol : string.
Variable timeframe : Timeframe.
Variable market : MarketType.

Local Abbreviation step :=
  (thirdBuyStep ids bis atrValues params symbol timeframe market).
Local Abbreviation detect :=
  (detectThirdBuys ids bis atrValues params symbol timeframe market).

(** The signal [s] has no pullback and no confirmation. *)
Definition breakoutOnly (s : ThirdBuySignal.t) : Prop :=
  ThirdBuySignal.status s = candidate
  /\ ThirdBuySignal.pullbackLow s = None
  /\ ThirdBuySignal.pullbackTime s = None
  /\ ThirdBuySignal.confirmTime s = None
  /\ ThirdBuySignal.confirmPrice s = None.

(** The signal [s] carries the pullback [pullbackBi]. *)
Definition carriesPullback (s : ThirdBuySignal.t) (pullbackBi : Bi.t) : Prop :=
  ThirdBuySignal.pullbackLow s = Some (Fractal.price (Bi.endFractal pullbackBi))
  /\ ThirdBuySignal.pullbackTime s = Some (Fractal.time (Bi.endFractal pullbackBi)).

(** The signal [s] is the confirmation by [confirmBi]. *)
Definition carriesConfirmation (s : ThirdBuySignal.t) (confirmBi : Bi.t) : Prop :=
  ThirdBuySignal.status s = confirmed
  /\ ThirdBuySignal.confirmTime s = Some (Fractal.time (Bi.endFractal confirmBi))
  /\ ThirdBuySignal.confirmPrice s = Some (Fractal.price (Bi.endFractal confirmBi)).

(** What a signal emitted for the zhongshu [z] is: it refers to [z] and to
    the arguments of the call, carries the breakout of [z], and is one of
    a candidate without pullback (no bi after the breakout), a candidate
    with a pullback that held and no confirmation, or a confirmed signal
    with the pullback and the confirming bi. *)
Definition signalOf (z : Zhongshu.t) (s : ThirdBuySignal.t) : Prop :=
  ThirdBuySignal.zhongshu s = z
  /\ ThirdBuySignal.symbol s = symbol
  /\ ThirdBuySignal.timeframe s = timeframe
  /\ ThirdBuySignal.market s = market
  /\ exists (i : nat) (breakoutBi : Bi.t),
       breakoutOf bis atrValues params z = Some (i, breakoutBi)
       /\ ThirdBuySignal.breakoutTime s = Fractal.time (Bi.endFractal breakoutBi)
       /\ ThirdBuySignal.breakoutPrice s = Fractal.price (Bi.endFractal breakoutBi)
       /\ ((bis !! (i + 1)%nat = None /\ breakoutOnly s)
           \/ exists pullbackBi : Bi.t,
                bis !! (i + 1)%nat = Some pullbackBi
                /\ Bi.direction pullbackBi = down
                /\ pullbackEntered atrValues params z pullbackBi = false
                /\ carriesPullback s pullbackBi
                /\ ((ThirdBuySignal.status s = candidate
                     /\ ThirdBuySignal.confirmTime s = None
                     /\ ThirdBuySignal.confirmPrice s = None
                     /\ forall confirmBi : Bi.t,
                          bis !! (i + 2)%nat = Some confirmBi ->
                          Bi.direction confirmBi = up ->
                          confirmation params breakoutBi pullbackBi confirmBi
                          = false)
                    \/ exists confirmBi : Bi.t,
                         bis !! (i + 2)%nat = Some confirmBi
                         /\ Bi.direction confirmBi = up
                         /\ confirmation params breakoutBi pullbackBi confirmBi
                            = true
                         /\ carriesConfirmation s confirmBi)).

Lemma thirdBuyStep_signalOf (z : Zhongshu.t) (n : nat) :
  Forall (signalOf z) (step z n).2.
Proof.
  unfold thirdBuyStep.
  destruct (breakoutOf bis atrValues params z) as [[i breakoutBi]|] eqn:Hout;
    [|constructor].
  unfold afterBreakout.
  destruct (bis !! (i + 1)%nat) as [pullbackBi|] eqn:Hback.
  - case_bool_decide as Hdir; [constructor|].
    assert (Hdown : Bi.direction pullbackBi = down).
    { destruct (Bi.direction pullbackBi); [exfalso|reflexivity].
      first [discriminate Hdir | apply Hdir; discriminate]. }
    destruct (pullbackEntered atrValues params z pullbackBi) eqn:Hheld; [constructor|].
    assert (Hcandidate : forall id,
              (forall confirmBi, bis !! (i + 2)%nat = Some confirmBi ->
                 Bi.direction confirmBi = up ->
                 confirmation params breakoutBi pullbackBi confirmBi = false) ->
              signalOf z (pullbackCandidate symbol timeframe market id z
                            breakoutBi pullbackBi)).
    { intros id Hno. repeat split.
      exists i, breakoutBi. split; [exact Hout|]. split; [reflexivity|].
      split; [reflexivity|]. right. exists pullbackBi.
      split; [exact Hback|]. split; [exact Hdown|]. split; [exact Hheld|].
      split; [split; reflexivity|]. left. repeat split. exact Hno. }
    destruct (bis !! (i + 2)%nat) as [confirmBi|] eqn:Hconf.
    + case_bool_decide as Hup.
      * constructor; [|constructor]. apply Hcandidate.
        intros c Hc Hcup. congruence.
      * assert (Hup' : Bi.direction confirmBi = up).
        { destruct (Bi.direction confirmBi); [reflexivity|exfalso].
          first [discriminate Hup | apply Hup; discriminate]. }
        destruct (confirmation params breakoutBi pullbackBi confirmBi) eqn:Hok.
        -- constructor; [|constructor]. repeat split.
           exists i, breakoutBi. split; [exact Hout|]. split; [reflexivity|].
           split; [reflexivity|]. right. exists pullbackBi.
           split; [exact Hback|]. split; [exact Hdown|]. split; [exact Hheld|].
           split; [split; reflexivity|]. right. exists confirmBi.
           repeat split; assumption.
        -- constructor; [|constructor]. apply Hcandidate.
           intros c Hc Hcup. congruence.
    + constructor; [|constructor]. apply Hcandidate. intros c Hc. discriminate.
  - constructor; [|constructor]. repeat split.
    exists i, breakoutBi. split; [exact Hout|]. split; [reflexivity|].
    split; [reflexivity|]. left. split; [exact Hback|]. repeat split.
Qed.

(** The identifiers that an iteration draws and the one it keeps: it
    pushes nothing, or one signal with the last identifier it drew. *)
Lemma thirdBuyStep_ids (z : Zhongshu.t) (n : nat) :
  (step z n = (n, []))
  \/ (exists s, step z n = (S n, [s]) /\ ThirdBuySignal.id s = ids n)
  \/ (exists s, step z n = (S (S n), [s]) /\ ThirdBuySignal.id s = ids (S n)).
Proof.
  unfold thirdBuyStep, afterBreakout.
  repeat case_match; eauto.
Qed.

Lemma detectThirdBuys_ids (zhongshus : list Zhongshu.t) :
  forall n : nat,
  exists ks : list nat,
    ThirdBuySignal.id <$> (detect zhongshus n).2 = ids <$> ks
    /\ NoDup ks
    /\ Forall (fun k => (n <= k < (detect zhongshus n).1)%nat) ks
    /\ (n <= (detect zhongshus n).1 <= n + 2 * length zhongshus)%nat
    /\ (length ks <= length zhongshus)%nat.
Proof.
  induction zhongshus as [|z rest IH]; intros n.
  - exists []. repeat split; cbn; try constructor; lia.
  - rewrite detectThirdBuys_cons. cbn [fst snd length].
    destruct (thirdBuyStep_ids z n) as [-> | [(s & -> & Hs) | (s & -> & Hs)]];
      cbn [fst snd app fmap list_fmap].
    + destruct (IH n) as (ks & Hids & Hnd & Hks & Hn & Hlen).
      exists ks. repeat split; try assumption; lia.
    + destruct (IH (S n)) as (ks & Hids & Hnd & Hks & Hn & Hlen).
      exists (n :: ks). cbn [fmap list_fmap length].
      change (list_fmap _ _ ThirdBuySignal.id ?l) with (ThirdBuySignal.id <$> l).
      rewrite Hids, Hs. repeat split; try lia.
      * constructor; [|exact Hnd]. intros Hin.
        rewrite Forall_forall in Hks. specialize (Hks n Hin). lia.
      * constructor; [lia|]. eapply Forall_impl; [exact Hks|]. cbn. lia.
    + destruct (IH (S (S n))) as (ks & Hids & Hnd & Hks & Hn & Hlen).
      exists (S n :: ks). cbn [fmap list_fmap length].
      change (list_fmap _ _ ThirdBuySignal.id ?l) with (ThirdBuySignal.id <$> l).
      rewrite Hids, Hs. repeat split; try lia.
      * constructor; [|exact Hnd]. intros Hin.
        rewrite Forall_forall in Hks. specialize (Hks (S n) Hin). lia.
      * constructor; [lia|]. eapply Forall_impl; [exact Hks|]. cbn. lia.
Qed.

End ThirdBuySoundness.

(** X12. Every signal returned by [detectThirdBuys] belongs to one of the
    zhongshus given, repeats the symbol, timeframe and market of the call,
    carries the time and price of the breakout of its zhongshu, and is a
    candidate without pullback, a candidate with a pullback that held, or
    a confirmed signal whose breakout, pullback and confirming bis stand at
    three consecutive positions and pass the confirmation rule. No signal
    has the status [invalid]. *)
Theorem detectThirdBuys_signals_sound (ids : nat -> string) (bis : list Bi.t)
    (atrValues : list Js.number) (params : ChanlunParams.t) (symbol : string)
    (timeframe : Timeframe) (market : MarketType)
    (zhongshus : list Zhongshu.t) (n : nat) :
  Forall (fun s => exists z, z ∈ zhongshus
                             /\ signalOf bis atrValues params symbol timeframe
                                  market z s)
    (detectThirdBuys ids bis atrValues params symbol timeframe market
       zhongshus n).2.
Proof.
  revert n. induction zhongshus as [|z rest IH]; intros n; [constructor|].
  rewrite detectThirdBuys_cons. cbn [snd]. apply Forall_app. split.
  - eapply Forall_impl; [apply thirdBuyStep_signalOf|].
    intros s Hs. exists z. split; [apply list_elem_of_here | exact Hs].
  - eapply Forall_impl; [apply IH|].
    intros s (z' & Hz' & Hs). exists z'.
    split; [now apply list_elem_of_further | exact Hs].
Qed.

(** X13. [detectThirdBuys] returns at most one signal per zhongshu, draws
    at most two identifiers per zhongshu, and never returns more signals
    than it drew identifiers. *)
Theorem detectThirdBuys_counts (ids : nat -> string) (bis : list Bi.t)
    (atrValues : list Js.number) (params : ChanlunParams.t) (symbol : string)
    (timeframe : Timeframe) (market : MarketType)
    (zhongshus : list Zhongshu.t) (n : nat) :
  let result :=
    detectThirdBuys ids bis atrValues params symbol timeframe market
      zhongshus n in
  (length result.2 <= length zhongshus)%nat
  /\ (n <= result.1 <= n + 2 * length zhongshus)%nat
  /\ (length result.2 <= result.1 - n)%nat.
Proof.
  cbv zeta.
  destruct (detectThirdBuys_ids ids bis atrValues params symbol timeframe market
              zhongshus n) as (ks & Hids & Hnd & Hks & Hn & Hlen).
  apply (f_equal length) in Hids. rewrite !length_fmap in Hids.
  rewrite Hids. repeat split; try lia.
  set (n' := (detectThirdBuys ids bis atrValues params symbol timeframe market
                zhongshus n).1) in *.
  assert (Hsub : ks ⊆+ seq n (n' - n)).
  { apply NoDup_submseteq; [exact Hnd|]. intros k Hk.
    rewrite Forall_forall in Hks. apply elem_of_seq. specialize (Hks k Hk). lia. }
  apply submseteq_length in Hsub. now rewrite length_seq in Hsub.
Qed.

(** X14. When [nanoid] never returns the same identifier twice, the
    signals returned by one call of [detectThirdBuys] have pairwise
    different ids (the identifier drawn for a held candidate that is then
    confirmed is not used by any signal). *)
Theorem detectThirdBuys_ids_distinct (ids : nat -> string) (bis : list Bi.t)
    (atrValues : list Js.number) (params : ChanlunParams.t) (symbol : string)
    (timeframe : Timeframe) (market : MarketType)
    (zhongshus : list Zhongshu.t) (n : nat) :
  Inj (=) (=) ids ->
  NoDup (ThirdBuySignal.id
         <$> (detectThirdBuys ids bis atrValues params symbol timeframe market
                zhongshus n).2).
Proof.
  intros Hinj.
  destruct (detectThirdBuys_ids ids bis atrValues params symbol timeframe market
              zhongshus n) as (ks & -> & Hnd & _).
  now apply NoDup_fmap_2.
Qed.

Lemma detectThirdBuys_ids_distinct_witness :
  NoDup (ThirdBuySignal.id
         <$> (detectThirdBuys Examples.ids (Examples.bisOf 1 Examples.confirmed9)
                (Examples.atrOf Examples.confirmed9) (Examples.paramsOf 1)
                "X" TF_1D fx
                (detectZhongshu (Examples.bisOf 1 Examples.confirmed9)) 0).2).
Proof.
  apply (detectThirdBuys_ids_distinct Examples.ids).
  exact example_ids_never_repeat.
Defined.

(** ** The sizes of the stages *)

Lemma detectFractalsFrom_length (window : list ProcessedBar.t) :
  forall i : Z,
  (length (detectFractalsFrom i window) <= length window - 2)%nat.
Proof.
  induction window as [|prev window IH]; intros i; [cbn; lia|].
  destruct window as [|cur [|next rest]]; try (cbn; lia).
  rewrite detectFractalsFrom_unfold, length_app.
  specialize (IH (i + 1)). cbn [length] in *.
  destruct (fractalAt i prev cur next); cbn [option_list option_rect length]; lia.
Qed.

Lemma filterFractals_length (f0 : Fractal.t) (rest : list Fractal.t) :
  (length (filterFractals f0 rest) <= S (length rest))%nat.
Proof.
  unfold filterFractals.
  assert (Hfold : forall st,
            (length (fold_left filterStep rest st).2
             <= length st.2 + length rest)%nat).
  { induction rest as [|cur rest IH]; intros st; [cbn; lia|].
    cbn [fold_left length]. specialize (IH (filterStep st cur)).
    assert (length (filterStep st cur).2 <= S (length st.2))%nat.
    { destruct st as [last before]. unfold filterStep.
      repeat case_match; cbn; lia. }
    lia. }
  specialize (Hfold (f0, [])).
  destruct (fold_left filterStep rest (f0, [])) as [last before].
  rewrite length_rev. cbn in *. lia.
Qed.

Lemma biLoop_length (atrValues : list Js.number) (params : ChanlunParams.t)
    (filtered : list Fractal.t) :
  forall biId : Z,
  (length (biLoop atrValues params biId filtered) <= length filtered - 1)%nat.
Proof.
  induction filtered as [|start rest IH]; intros biId; [cbn; lia|].
  destruct rest as [|end_ rest]; [cbn; lia|].
  rewrite biLoop_unfold. cbv zeta.
  pose proof (IH biId). pose proof (IH (biId + 1)).
  repeat case_match; cbn [length] in *; lia.
Qed.

Lemma zhongshuLoop_length (bis : list Bi.t) :
  forall st : ZhongshuState,
  (length (zhongshuLoop bis st).1 <= length st.1 + (length bis - 2))%nat.
Proof.
  induction bis as [|b1 rest IH]; intros st; [cbn; lia|].
  destruct rest as [|b2 [|b3 rest]]; try (cbn; lia).
  rewrite zhongshuLoop_unfold. specialize (IH (zhongshuStep st b1 b2 b3)).
  assert (length (zhongshuStep st b1 b2 b3).1 <= S (length st.1))%nat.
  { destruct st as [zhongshus zId].
    destruct (zhongshuStep_cases zhongshus zId b1 b2 b3)
      as [-> | [[z ->] | (lastZ & before & -> & _ & ->)]]; cbn; lia. }
  cbn [length] in *. lia.
Qed.

(** X15. The stages of [runChanlun] shrink their input: there are at
    least two bars more than fractals, one fractal more than bis, two bis
    more than zhongshus (when there are any), and no more third-buy
    signals than zhongshus. So fewer than 3 bars give no fractal, fewer
    than 4 no bi, fewer than 6 no zhongshu and no third-buy signal. *)
Theorem runChanlun_sizes (ids : nat -> string) (bars : list OHLCBar.t)
    (market : MarketType) (symbol : string) (timeframe : Timeframe)
    (params : PartialParams.t) (n : nat) :
  let r := (runChanlun ids bars market symbol timeframe params n).2 in
  (length (ChanlunResult.processedBars r) <= length bars)%nat
  /\ (length (ChanlunResult.fractals r)
      <= length (ChanlunResult.processedBars r) - 2)%nat
  /\ (length (ChanlunResult.bis r) <= length (ChanlunResult.fractals r) - 1)%nat
  /\ (length (ChanlunResult.zhongshus r) <= length (ChanlunResult.bis r) - 2)%nat
  /\ (length (ChanlunResult.thirdBuys r)
      <= length (ChanlunResult.zhongshus r))%nat.
Proof.
  unfold runChanlun. cbv zeta.
  set (p := mergeParams (DEFAULT_PARAMS market) params).
  set (atr := Indicators.calcATR bars 14).
  set (processed := processContainment bars).
  set (fractals := detectFractals processed).
  set (bis := formBis fractals processed atr p).
  destruct (detectThirdBuys_ids ids bis atr p symbol timeframe market
              (detectZhongshu bis) n) as (ks & Hids & _ & _ & _ & Hlen).
  apply (f_equal length) in Hids. rewrite !length_fmap in Hids.
  destruct (detectThirdBuys ids bis atr p symbol timeframe market
              (detectZhongshu bis) n) as [n' signals].
  cbn [snd ChanlunResult.processedBars ChanlunResult.fractals ChanlunResult.bis
       ChanlunResult.zhongshus ChanlunResult.thirdBuys] in *.
  repeat split.
  - subst processed. destruct bars as [|b0 rest]; [reflexivity|].
    destruct (processContainment_final b0 rest)
      as (prev & before & -> & _ & _ & _ & Hl).
    rewrite length_rev. exact Hl.
  - apply detectFractalsFrom_length.
  - subst bis. unfold formBis. destruct fractals as [|f0 [|f1 rest]]; try (cbn; lia).
    pose proof (biLoop_length atr p (filterFractals f0 (f1 :: rest)) 0).
    pose proof (filterFractals_length f0 (f1 :: rest)).
    cbn [length] in *. lia.
  - unfold detectZhongshu. destruct (_ <? _)%nat; [cbn; lia|].
    rewrite length_rev.
    pose proof (zhongshuLoop_length bis ([], 0)). cbn in *. lia.
  - lia.
Qed.

(** ** The shape of the indicator arrays *)

Section IndicatorShapes.
Import Indicators.

Lemma atrLoop_length (trs : list Js.number) (period : Js.number)
    (positions : list nat) :
  forall (atr : Js.number) (result : list Js.number),
  length (atrLoop trs period positions atr result) = length result.
Proof.
  induction positions as [|i rest IH]; intros atr result; cbn [atrLoop].
  - reflexivity.
  - rewrite IH. apply length_insert.
Qed.

Lemma atrLoop_lookup_before (trs : list Js.number) (period : Js.number)
    (positions : list nat) (j : nat) :
  Forall (fun i => (j <= i)%nat) positions ->
  forall (atr : Js.number) (result : list Js.number),
  atrLoop trs period positions atr result !! j = result !! j.
Proof.
  induction 1 as [|i rest Hi _ IH]; intros atr result; cbn [atrLoop].
  - reflexivity.
  - rewrite IH. apply list_lookup_insert_ne. lia.
Qed.

Lemma trueRanges_length (prev : OHLCBar.t) (bars : list OHLCBar.t) :
  length (trueRanges prev bars) = length bars.
Proof.
  revert prev. induction bars as [|cur rest IH]; intros prev; cbn; [|rewrite IH];
    reflexivity.
Qed.

Lemma range_from (from to j : nat) :
  (j <= from)%nat -> Forall (fun i => (j <= i)%nat) (range from to).
Proof.
  intros Hj. unfold range. apply Forall_forall. intros i Hi.
  apply elem_of_seq in Hi. lia.
Qed.

(** The times of the bars from position [from] on, read by position. *)
Lemma timeAt_range (bars : list OHLCBar.t) (from : nat) :
  timeAt bars <$> range from (length bars) = OHLCBar.time <$> drop from bars.
Proof.
  apply list_eq. intros i. unfold range, timeAt.
  rewrite !list_lookup_fmap, lookup_drop.
  destruct (decide (i < length bars - from)%nat) as [Hi|Hi].
  - rewrite lookup_seq_lt by exact Hi. cbn.
    destruct (lookup_lt_is_Some_2 bars (from + i) ltac:(lia)) as [b ->].
    reflexivity.
  - rewrite lookup_seq_ge by lia. rewrite lookup_ge_None_2 by lia. reflexivity.
Qed.

Lemma rsiLoop_times (bars : list OHLCBar.t) (closes : list Js.number)
    (period : Js.number) (positions : list nat) :
  forall avgGain avgLoss : Js.number,
  RSIPoint.time <$> rsiLoop bars closes period positions avgGain avgLoss
  = timeAt bars <$> positions.
Proof.
  induction positions as [|i rest IH]; intros avgGain avgLoss; [reflexivity|].
  cbn [rsiLoop fmap list_fmap RSIPoint.time]. f_equal. apply IH.
Qed.

Lemma smaLoop_length (values : list Js.number) (period : nat)
    (positions : list nat) :
  forall result : list Js.number,
  length (smaLoop values period positions result) = length result.
Proof.
  induction positions as [|i rest IH]; intros result; cbn [smaLoop].
  - reflexivity.
  - rewrite IH. apply length_insert.
Qed.

(** The loop writes the mean of the window at each position it visits. *)
Lemma smaLoop_lookup (values : list Js.number) (period : nat)
    (positions : list nat) (j : nat) :
  forall result : list Js.number,
  (j < length result)%nat ->
  smaLoop values period positions result !! j
  = if decide (j ∈ positions) then Some (smaAt values period j) else result !! j.
Proof.
  induction positions as [|i rest IH]; intros result Hj; cbn [smaLoop].
  - destruct (decide (j ∈ [])) as [H|_]; [inversion H | reflexivity].
  - rewrite IH by now rewrite length_insert.
    destruct (decide (j ∈ rest)) as [Hin|Hnin].
    + rewrite decide_True; [reflexivity | now apply list_elem_of_further].
    + destruct (decide (j = i)) as [->|Hne].
      * rewrite decide_True by apply list_elem_of_here.
        now apply list_lookup_insert_eq.
      * rewrite decide_False.
        -- apply list_lookup_insert_ne. congruence.
        -- intros H. apply elem_of_cons in H as [?|?]; contradiction.
Qed.

End IndicatorShapes.

(** X16. [calcATR] returns the empty array on fewer than two bars and
    otherwise an array of the length of [bars]; every position before
    [period] holds [NaN], and with fewer than [period + 1] bars the whole
    array does. *)
Theorem calcATR_shape (bars : list OHLCBar.t) (period : nat) :
  length (Indicators.calcATR bars period)
  = (if (length bars <? 2)%nat then 0%nat else length bars)
  /\ (forall j : nat,
        (j < period)%nat -> (j < length (Indicators.calcATR bars period))%nat ->
        Indicators.calcATR bars period !! j = Some PrimFloat.nan)
  /\ ((length bars <= period)%nat ->
      Forall (fun v => v = PrimFloat.nan) (Indicators.calcATR bars period)).
Proof.
  unfold Indicators.calcATR.
  destruct bars as [|b0 [|b1 rest]].
  - repeat split; [intros j _ Hj; cbn in Hj; lia | constructor].
  - repeat split; [intros j _ Hj; cbn in Hj; lia | constructor].
  - set (bars := b0 :: b1 :: rest).
    assert (Hlen : length (Indicators.trueRanges b0 (b1 :: rest)) = S (length rest))
      by apply trueRanges_length.
    change (length bars <? 2)%nat with false.
    destruct (Nat.ltb_spec (length (Indicators.trueRanges b0 (b1 :: rest))) period)
      as [Hshort|Hlong].
    + repeat split.
      * apply length_replicate.
      * intros j _ Hj. rewrite length_replicate in Hj. now apply lookup_replicate_2.
      * intros _. apply Forall_forall. intros v Hv.
        now apply elem_of_replicate in Hv as [-> _].
    + repeat split.
      * rewrite atrLoop_length, length_insert. apply length_replicate.
      * intros j Hjp Hj.
        rewrite atrLoop_length, length_insert, length_replicate in Hj.
        rewrite atrLoop_lookup_before by (apply range_from; lia).
        rewrite list_lookup_insert_ne by lia. now apply lookup_replicate_2.
      * intros Hle. subst bars. cbn [length] in Hle. lia.
Qed.

(** X17. [calcRSI] returns the empty array on fewer than [period + 1]
    bars, and otherwise one point for every bar from position [period] on,
    with the time of that bar. *)
Theorem calcRSI_times (bars : list OHLCBar.t) (period : nat) :
  RSIPoint.time <$> Indicators.calcRSI bars period
  = if (length bars <? period + 1)%nat then []
    else OHLCBar.time <$> drop period bars.
Proof.
  unfold Indicators.calcRSI.
  destruct (Nat.ltb_spec (length bars) (period + 1)) as [Hshort|Hlong];
    [reflexivity|].
  destruct (Indicators.rsiSeed _ _) as [sumGain sumLoss].
  cbn [fmap list_fmap RSIPoint.time].
  change (list_fmap _ _ RSIPoint.time ?l) with (RSIPoint.time <$> l).
  rewrite rsiLoop_times, <- (timeAt_range bars period).
  unfold Indicators.range.
  replace (length bars - period)%nat with (S (length bars - (period + 1)))
    by lia.
  cbn [seq fmap list_fmap]. f_equal.
  now rewrite Nat.add_1_r.
Qed.

(** X18. [calcSMA] always returns an array of the length of its input
    (also when the input is shorter than the period, unlike [calcEMA]):
    [NaN] before index [period - 1] and, from there on, the sum of the
    [period] values ending at the index, added from the oldest, divided by
    [period]. *)
Theorem calcSMA_shape (values : list Js.number) (period : nat) :
  length (Indicators.calcSMA values period) = length values
  /\ forall i : nat,
       (i < length values)%nat ->
       Indicators.calcSMA values period !! i
       = Some (if (i + 1 <? period)%nat then PrimFloat.nan
               else Indicators.smaAt values period i).
Proof.
  unfold Indicators.calcSMA. split.
  - rewrite smaLoop_length. apply length_replicate.
  - intros i Hi. rewrite smaLoop_lookup by now rewrite length_replicate.
    unfold Indicators.range.
    destruct (Nat.ltb_spec (i + 1) period) as [Hbefore|Hafter].
    + rewrite decide_False; [now apply lookup_replicate_2|].
      intros H. apply elem_of_seq in H. lia.
    + rewrite decide_True; [reflexivity|]. apply elem_of_seq. lia.
Qed.

(** ** The moving average and MACD *)

Section MovingAverages.
Import Indicators.

Lemma nan_isNaN : Js.isNaN PrimFloat.nan = true.
Proof. reflexivity. Qed.

(** Before index [period - 1], and past its end, [calcEMA] reads as
    [NaN]. *)
Lemma calcEMA_at_before (values : list Js.number) (period i : nat) :
  (i + 1 < period)%nat -> at_ (calcEMA values period) i = PrimFloat.nan.
Proof.
  intros Hi. unfold calcEMA, at_.
  destruct (length values <? period)%nat; [reflexivity|].
  rewrite emaLoop_lookup_before by (apply range_after; lia).
  destruct period as [|p]; [lia|].
  rewrite list_lookup_insert_ne by lia.
  destruct (decide (i < length values)%nat) as [Hlt|Hge].
  - now rewrite lookup_replicate_2.
  - rewrite lookup_ge_None_2; [reflexivity|]. rewrite length_replicate. lia.
Qed.

Lemma calcEMA_defined_from (values : list Js.number) (period i : nat) :
  Js.isNaN (at_ (calcEMA values period) i) = false -> (period - 1 <= i)%nat.
Proof.
  intros H. destruct (decide (i + 1 < period)%nat) as [Hi|Hi]; [|lia].
  rewrite calcEMA_at_before in H by exact Hi. discriminate H.
Qed.

Lemma difValues_defined (closes emaFast emaSlow : list Js.number) (i : nat) :
  Js.isNaN (at_ (difValues closes emaFast emaSlow) i) = false ->
  Js.isNaN (at_ emaFast i) = false /\ Js.isNaN (at_ emaSlow i) = false.
Proof.
  unfold difValues. unfold at_ at 1. rewrite list_lookup_fmap.
  destruct (seq 0 (length closes) !! i) as [j|] eqn:E; cbn; [|discriminate].
  apply lookup_seq in E as [-> _]. cbn.
  destruct (Js.isNaN (at_ emaFast i)), (Js.isNaN (at_ emaSlow i)); cbn;
    intros H; first [discriminate H | split; reflexivity].
Qed.

(** A point of the MACD series: both lines are numbers and the histogram
    is twice their distance. *)
Definition macdPoint (p : MACDPoint.t) : Prop :=
  Js.isNaN (MACDPoint.dif p) = false
  /\ Js.isNaN (MACDPoint.dea p) = false
  /\ MACDPoint.histogram p = ((MACDPoint.dif p - MACDPoint.dea p) * 2)%float.

Lemma macdLoop_points (bars : list OHLCBar.t) (difs deaRaw : list Js.number)
    (positions : list nat) :
  forall deaIdx : nat,
  Forall macdPoint (macdLoop bars difs deaRaw positions deaIdx).
Proof.
  induction positions as [|i rest IH]; intros deaIdx; cbn [macdLoop].
  - constructor.
  - destruct (Js.isNaN (at_ difs i)) eqn:Hdif; [apply IH|].
    destruct (Js.isNaN (at_ deaRaw deaIdx)) eqn:Hdea; [apply IH|].
    constructor; [|apply IH]. split; [exact Hdif|]. split; [exact Hdea|].
    reflexivity.
Qed.

(** The loop emits nothing before position [slowFrom + signalFrom] when the
    DIF only exists from [slowFrom] on and the signal line from its own
    index [signalFrom] on: [deaIdx] counts the DIF values met so far. *)
Lemma macdLoop_times (bars : list OHLCBar.t) (difs deaRaw : list Js.number)
    (slowFrom signalFrom : nat) :
  (forall i, Js.isNaN (at_ difs i) = false -> (slowFrom <= i)%nat) ->
  (forall d, Js.isNaN (at_ deaRaw d) = false -> (signalFrom <= d)%nat) ->
  forall (n a deaIdx : nat),
  (deaIdx <= a - slowFrom)%nat ->
  MACDPoint.time <$> macdLoop bars difs deaRaw (seq a n) deaIdx
  `sublist_of`
  timeAt bars <$> seq (a `max` (slowFrom + signalFrom))
                      (a + n - a `max` (slowFrom + signalFrom)).
Proof.
  intros Hdifs Hdea. set (m := (slowFrom + signalFrom)%nat).
  induction n as [|n IH]; intros a deaIdx Hidx; cbn [seq macdLoop].
  - apply sublist_nil_l.
  - assert (Hskip : forall d, (d <= S a - slowFrom)%nat ->
      MACDPoint.time <$> macdLoop bars difs deaRaw (seq (S a) n) d
      `sublist_of` timeAt bars <$> seq (a `max` m) (a + S n - a `max` m)).
    { intros d Hd. specialize (IH (S a) d Hd).
      destruct (decide (m <= a)%nat) as [Hm|Hm].
      - replace (a `max` m)%nat with a by lia.
        replace (a + S n - a)%nat with (S n) by lia.
        replace (S a `max` m)%nat with (S a) in IH by lia.
        replace (S a + n - S a)%nat with n in IH by lia.
        cbn [seq fmap list_fmap]. now apply sublist_cons.
      - replace (a `max` m)%nat with (S a `max` m)%nat by lia.
        now replace (a + S n)%nat with (S a + n)%nat by lia. }
    destruct (Js.isNaN (at_ difs a)) eqn:Hdif; [apply Hskip; lia|].
    apply Hdifs in Hdif.
    destruct (Js.isNaN (at_ deaRaw deaIdx)) eqn:Hd; [apply Hskip; lia|].
    apply Hdea in Hd.
    specialize (IH (S a) (S deaIdx) ltac:(lia)).
    replace (a `max` m)%nat with a by lia.
    replace (a + S n - a)%nat with (S n) by lia.
    replace (S a `max` m)%nat with (S a) in IH by lia.
    replace (S a + n - S a)%nat with n in IH by lia.
    cbn [seq fmap list_fmap MACDPoint.time]. now apply sublist_skip.
Qed.

Lemma maAt_value (bars : list OHLCBar.t) (period i : nat) :
  MAPoint.value (maAt bars period i) = smaAt (OHLCBar.close <$> bars) period i.
Proof.
  unfold maAt, smaAt. cbn [MAPoint.value]. f_equal.
  generalize (range (i + 1 - period) (i + 1)) 0%float.
  intros positions. induction positions as [|j rest IH]; intros acc;
    cbn [fold_left]; [reflexivity|].
  rewrite IH. unfold at_. now rewrite list_lookup_fmap.
Qed.

End MovingAverages.

(** X19. Every point of [calcMACD] has a DIF and a DEA that are numbers
    (positions where either is [NaN] are skipped), and its histogram is
    twice their difference. *)
Theorem calcMACD_points (bars : list OHLCBar.t) (fast slow signal : nat) :
  Forall macdPoint (Indicators.calcMACD bars fast slow signal).
Proof.
  unfold Indicators.calcMACD.
  destruct (length bars <? slow + signal)%nat; [constructor|].
  apply macdLoop_points.
Qed.

(** X20. The warm-up of [calcMACD]: the first [(slow - 1) + (signal - 1)]
    bars never get a point, and the times of the points are times of the
    later bars, in the order of the bars, each bar used at most once. *)
Theorem calcMACD_warm_up (bars : list OHLCBar.t) (fast slow signal : nat) :
  MACDPoint.time <$> Indicators.calcMACD bars fast slow signal
  `sublist_of` OHLCBar.time <$> drop ((slow - 1) + (signal - 1)) bars.
Proof.
  unfold Indicators.calcMACD.
  destruct (length bars <? slow + signal)%nat; [apply sublist_nil_l|].
  set (closes := OHLCBar.close <$> bars).
  set (difs := Indicators.difValues closes _ _).
  set (deaRaw := Indicators.calcEMA _ signal).
  rewrite <- timeAt_range.
  pose proof (macdLoop_times bars difs deaRaw (slow - 1) (signal - 1)) as H.
  specialize (H ltac:(intros i Hi; apply difValues_defined in Hi as [_ Hi];
                      now apply calcEMA_defined_from in Hi)).
  specialize (H ltac:(intros d Hd; now apply calcEMA_defined_from in Hd)).
  specialize (H (length bars) 0%nat 0%nat ltac:(lia)).
  unfold Indicators.range.
  replace (length bars - 0)%nat with (length bars) by lia.
  now rewrite Nat.max_0_l, Nat.add_0_l in H.
Qed.

(** X21. [calcMA] with a period of at least one never fails, and it is
    the defined part of [calcSMA] over the closes with the times of the
    bars attached: nothing on fewer than [period] bars, otherwise one point
    for every bar from index [period - 1] on. With a period of zero the
    first iteration reads [bars[-1].time] and fails. *)
Theorem calcMA_calcSMA (bars : list OHLCBar.t) (p : nat) :
  Indicators.calcMA bars 0 = None
  /\ Indicators.calcMA bars (S p)
     = Some (if (length bars <? S p)%nat then []
             else zip_with MAPoint.mk
                    (OHLCBar.time <$> drop p bars)
                    (drop p (Indicators.calcSMA (OHLCBar.close <$> bars) (S p)))).
Proof.
  split; [reflexivity|].
  unfold Indicators.calcMA.
  destruct (Nat.ltb_spec (length bars) (S p)) as [Hshort|Hlong]; [reflexivity|].
  f_equal. replace (S p - 1)%nat with p by lia.
  rewrite <- timeAt_range. unfold Indicators.range.
  apply list_eq. intros k.
  rewrite lookup_zip_with, !list_lookup_fmap, lookup_drop.
  destruct (decide (k < length bars - p)%nat) as [Hk|Hk].
  - rewrite lookup_seq_lt by exact Hk. cbn. unfold Indicators.calcSMA.
    rewrite smaLoop_lookup by (rewrite length_replicate, length_fmap; lia).
    rewrite decide_True
      by (unfold Indicators.range; apply elem_of_seq; rewrite length_fmap; lia).
    rewrite <- maAt_value. reflexivity.
  - rewrite lookup_seq_ge by lia. reflexivity.
Qed.

(** ** The keys of the deduplication map *)

Section DedupKeys.
Import SignalEngine.

Lemma append_cons (a : Ascii.ascii) (s t : string) :
  String a s +:+ t = String a (s +:+ t).
Proof. reflexivity. Qed.

Lemma append_nil (t : string) : "" +:+ t = t.
Proof. reflexivity. Qed.

Lemma append_assoc (s1 s2 s3 : string) :
  (s1 +:+ s2) +:+ s3 = s1 +:+ s2 +:+ s3.
Proof.
  induction s1 as [|a s1 IH]; [reflexivity|].
  now rewrite !append_cons, IH.
Qed.

(** The character [:], code 58. *)
Definition colon : Ascii.ascii :=
  Ascii.Ascii false true false true true true false false.

(** No colon occurs in the string. *)
Fixpoint colonFree (s : string) : bool :=
  match s with
  | EmptyString => true
  | String a s => negb (Ascii.eqb a colon) && colonFree s
  end.

Lemma colonFree_append (s t : string) :
  colonFree (s +:+ String colon t) = false.
Proof.
  induction s as [|a s IH]; [reflexivity|].
  rewrite append_cons. cbn [colonFree]. rewrite IH. apply andb_false_r.
Qed.

(** The text after the last colon of a string, and the text before it, are
    determined by the string. *)
Lemma last_colon_split (s1 s2 t1 t2 : string) :
  colonFree t1 = true -> colonFree t2 = true ->
  s1 +:+ ":" +:+ t1 = s2 +:+ ":" +:+ t2 -> s1 = s2 /\ t1 = t2.
Proof.
  intros Ht1 Ht2. revert s2.
  induction s1 as [|a s1 IH]; intros [|b s2]; rewrite ?append_cons, ?append_nil;
    intros H.
  - injection H as ->. split; reflexivity.
  - injection H as _ ->. now rewrite colonFree_append in Ht1.
  - injection H as _ <-. now rewrite colonFree_append in Ht2.
  - injection H as -> H. apply IH in H as [-> ->]. split; reflexivity.
Qed.

Lemma timeframeName_colonFree (tf : Timeframe) :
  colonFree (timeframeName tf) = true.
Proof. destruct tf; reflexivity. Qed.

Lemma signalTypeName_colonFree (type : SignalType) :
  colonFree (signalTypeName type) = true.
Proof. destruct type; reflexivity. Qed.

Lemma timeframeName_inj (tf1 tf2 : Timeframe) :
  timeframeName tf1 = timeframeName tf2 -> tf1 = tf2.
Proof. destruct tf1, tf2; intros H; first [reflexivity | discriminate H]. Qed.

Lemma signalTypeName_inj (type1 type2 : SignalType) :
  signalTypeName type1 = signalTypeName type2 -> type1 = type2.
Proof. destruct type1, type2; intros H; first [reflexivity | discriminate H]. Qed.

(** Two triples with one key are one triple. *)
Lemma dedupKey_inj (symbol1 symbol2 : string) (tf1 tf2 : Timeframe)
    (type1 type2 : SignalType) :
  dedupKey symbol1 tf1 type1 = dedupKey symbol2 tf2 type2 ->
  symbol1 = symbol2 /\ tf1 = tf2 /\ type1 = type2.
Proof.
  unfold dedupKey. intros H.
  rewrite <- !(append_assoc _ ":" (timeframeName _ +:+ _)) in H.
  rewrite <- !(append_assoc _ (timeframeName _)) in H.
  apply last_colon_split in H as [H Htype];
    [|apply signalTypeName_colonFree..].
  rewrite !append_assoc in H.
  apply last_colon_split in H as [Hsymbol Htf];
    [|apply timeframeName_colonFree..].
  auto using timeframeName_inj, signalTypeName_inj.
Qed.

End DedupKeys.

(** X22. The key under which a trigger is remembered determines the
    symbol, the timeframe and the signal type, whatever the symbol is (it
    may itself contain colons): no two triples share an entry of the
    map. *)
Theorem dedupKey_injective (symbol1 symbol2 : string) (tf1 tf2 : Timeframe)
    (type1 type2 : SignalType) :
  SignalEngine.dedupKey symbol1 tf1 type1 = SignalEngine.dedupKey symbol2 tf2 type2
  <-> symbol1 = symbol2 /\ tf1 = tf2 /\ type1 = type2.
Proof.
  split; [apply dedupKey_inj|]. now intros (-> & -> & ->).
Qed.

(** X23. After [markTriggered] at time [t1], [isDuplicate] at time [t2]
    for the same symbol, timeframe and type answers whether [t1] is not 0
    and less than the window has passed; for every other triple it answers
    what it answered before. *)
Theorem isDuplicate_markTriggered (signalHistory : gmap string Z) (t1 t2 : Z)
    (symbol : string) (timeframe : Timeframe) (type : SignalType) :
  SignalEngine.isDuplicate
    (SignalEngine.markTriggered signalHistory t1 symbol timeframe type)
    t2 symbol timeframe type
  = negb (t1 =? 0) && (t2 - t1 <? SignalEngine.DEDUP_WINDOW_MS)
  /\ forall (symbol' : string) (timeframe' : Timeframe) (type' : SignalType),
       (symbol', timeframe', type') <> (symbol, timeframe, type) ->
       SignalEngine.isDuplicate
         (SignalEngine.markTriggered signalHistory t1 symbol timeframe type)
         t2 symbol' timeframe' type'
       = SignalEngine.isDuplicate signalHistory t2 symbol' timeframe' type'.
Proof.
  unfold SignalEngine.isDuplicate, SignalEngine.markTriggered. split.
  - rewrite lookup_insert_eq. now destruct (t1 =? 0).
  - intros symbol' timeframe' type' Hne.
    rewrite lookup_insert_ne; [reflexivity|].
    intros H. apply dedupKey_inj in H as (-> & -> & ->). now apply Hne.
Qed.

(** ** The signal store over its lifetime *)

Section StoreLifetime.
Import SignalEngine.SignalStore.

(** The stores that calls of the methods lead to from the fresh store. *)
Inductive reachable : t -> Prop :=
  | reachable_new : reachable new
  | reachable_addSignals store newSignals :
      reachable store -> reachable (addSignals store newSignals).1
  | reachable_subscribe store cb :
      reachable store -> reachable (subscribe store cb)
  | reachable_unsubscribe store cb :
      reachable store -> reachable (unsubscribe store cb)
  | reachable_clearAll store :
      reachable store -> reachable (clearAll store).1.

Lemma take_app_take {A} (n m : nat) (b a : list A) :
  (n <= m)%nat -> take n (b ++ take m a) = take n (b ++ a).
Proof.
  revert n. induction b as [|x b IH]; intros n Hn; cbn [app].
  - rewrite take_take. f_equal. lia.
  - destruct n as [|n]; [reflexivity|]. cbn [take]. rewrite IH by lia.
    reflexivity.
Qed.

Lemma filter_other_snoc (cb : nat) (l : list nat) :
  cb ∉ l -> filter (fun c => c <> cb) (l ++ [cb]) = l.
Proof.
  intros Hcb. rewrite filter_app, filter_cons_False, filter_nil, app_nil_r
    by (intros H; now apply H).
  induction l as [|c l IH]; [reflexivity|].
  apply not_elem_of_cons in Hcb as [Hne Hcb].
  rewrite filter_cons_True by congruence. now rewrite IH.
Qed.

End StoreLifetime.

(** X24. Whatever calls were made on the store since it was created, it
    holds at most 500 signals, its capacity is still 500, and no callback
    is registered twice. *)
Theorem reachable_store_bounded (store : SignalEngine.SignalStore.t) :
  reachable store ->
  (length (SignalEngine.SignalStore.signals store) <= 500)%nat
  /\ SignalEngine.SignalStore.maxSignals store = 500%nat
  /\ NoDup (SignalEngine.SignalStore.listeners store).
Proof.
  induction 1 as [|store newSignals _ (Hlen & Hmax & Hdup)
                  |store cb _ (Hlen & Hmax & Hdup)
                  |store cb _ (Hlen & Hmax & Hdup)
                  |store _ (Hlen & Hmax & Hdup)].
  - repeat split; [cbn; lia | constructor].
  - unfold SignalEngine.SignalStore.addSignals.
    destruct (length newSignals =? 0)%nat; cbn; [auto|].
    repeat split; [|assumption..]. rewrite length_take, Hmax. lia.
  - unfold SignalEngine.SignalStore.subscribe. case_bool_decide; cbn; [auto|].
    repeat split; [assumption..|].
    apply NoDup_app. repeat split; [assumption | | apply NoDup_singleton].
    intros c Hc Hcb. apply list_elem_of_singleton in Hcb as ->. contradiction.
  - cbn. repeat split; [assumption..|]. now apply NoDup_filter.
  - cbn. repeat split; [lia | assumption..].
Qed.

(** X25. Two batches added one after the other leave the buffer that the
    single batch of the second followed by the first leaves: the buffer
    depends on the signals added, newest first, and not on how they were
    split into batches (the listeners are called once for every batch that
    is not empty). *)
Theorem addSignals_batches (store : SignalEngine.SignalStore.t)
    (first second : list Signal.t) :
  (SignalEngine.SignalStore.addSignals
     (SignalEngine.SignalStore.addSignals store first).1 second).1
  = (SignalEngine.SignalStore.addSignals store (second ++ first)).1.
Proof.
  unfold SignalEngine.SignalStore.addSignals.
  destruct first as [|s1 first], second as [|s2 second]; cbn [length Nat.eqb app fst].
  - reflexivity.
  - now rewrite app_nil_r.
  - reflexivity.
  - cbn [SignalEngine.SignalStore.signals SignalEngine.SignalStore.maxSignals
         SignalEngine.SignalStore.listeners].
    f_equal. rewrite !app_comm_cons, take_app_take by lia. now rewrite <- app_assoc.
Qed.

(** X26. [subscribe] followed by the function it returned removes the
    callback even when it had been registered before, so that the calls of
    [addSignals] and [clearAll] no longer reach it; when the callback was
    new, the store is back as it was. *)
Theorem subscribe_then_unsubscribe (store : SignalEngine.SignalStore.t) (cb : nat) :
  let store' :=
    SignalEngine.SignalStore.unsubscribe
      (SignalEngine.SignalStore.subscribe store cb) cb in
  (cb ∉ SignalEngine.SignalStore.listeners store')
  /\ (forall newSignals : list Signal.t,
        cb ∉ (SignalEngine.SignalStore.addSignals store' newSignals).2.*1)
  /\ (cb ∉ (SignalEngine.SignalStore.clearAll store').2.*1)
  /\ (cb ∉ SignalEngine.SignalStore.listeners store -> store' = store).
Proof.
  cbv zeta.
  assert (Hout : cb ∉ SignalEngine.SignalStore.listeners
                   (SignalEngine.SignalStore.unsubscribe
                      (SignalEngine.SignalStore.subscribe store cb) cb)).
  { cbn. intros H. apply list_elem_of_filter in H as [H _]. now apply H. }
  assert (Hnotify : forall s : SignalEngine.SignalStore.t,
            (SignalEngine.SignalStore.notify s).*1
            = SignalEngine.SignalStore.listeners s).
  { intros s. unfold SignalEngine.SignalStore.notify.
    rewrite <- list_fmap_compose. apply list_fmap_id. }
  split; [exact Hout|]. split; [|split].
  - intros newSignals. unfold SignalEngine.SignalStore.addSignals.
    destruct (length newSignals =? 0)%nat; cbn [snd]; [apply not_elem_of_nil|].
    now rewrite Hnotify.
  - unfold SignalEngine.SignalStore.clearAll. cbn [snd]. now rewrite Hnotify.
  - intros Hnew. unfold SignalEngine.SignalStore.subscribe.
    rewrite bool_decide_eq_false_2 by exact Hnew.
    unfold SignalEngine.SignalStore.unsubscribe. cbn.
    rewrite filter_other_snoc by exact Hnew. now destruct store.
Qed.

Lemma reachable_store_bounded_witness :
  let store :=
    (SignalEngine.SignalStore.clearAll
       (SignalEngine.SignalStore.subscribe SignalEngine.SignalStore.new 7)).1 in
  (length (SignalEngine.SignalStore.signals store) <= 500)%nat
  /\ SignalEngine.SignalStore.maxSignals store = 500%nat
  /\ NoDup (SignalEngine.SignalStore.listeners store).
Proof.
  apply (reachable_store_bounded
           (SignalEngine.SignalStore.clearAll
              (SignalEngine.SignalStore.subscribe SignalEngine.SignalStore.new 7)).1).
  apply reachable_clearAll, reachable_subscribe, reachable_new.
Defined.

(** ** Maxima and minima of several numbers *)

Section MathMaxMin.
Import Js.

Lemma le_lt_trans (a b c : number) :
  le a b = true -> lt b c = true -> lt a c = true.
Proof.
  intros Hab Hbc. destruct (lt a c) eqn:Hac; [reflexivity|].
  pose proof (JsOrder.le_refl_l _ _ Hab) as Ha.
  pose proof (JsOrder.le_refl_r _ _ (JsOrder.lt_le _ _ Hbc)) as Hc.
  destruct (JsOrder.le_total c a Hc Ha) as [Hca|Hlt]; [|congruence].
  pose proof (JsOrder.le_trans _ _ _ Hca Hab) as Hcb.
  rewrite (JsOrder.lt_not_le _ _ Hbc) in Hcb. discriminate Hcb.
Qed.

Lemma lt_exclusive (a b : number) : lt a b = true -> lt b a = true -> False.
Proof.
  intros Hab Hba. apply JsOrder.lt_le in Hba.
  rewrite (JsOrder.lt_not_le _ _ Hab) in Hba. discriminate Hba.
Qed.

Lemma max_defined (x y : number) :
  le (max x y) (max x y) = true -> le x x = true /\ le y y = true.
Proof.
  unfold max. rewrite <- !JsOrder.isNaN_false.
  destruct (isNaN x), (isNaN y); cbn [orb]; intros H;
    first [discriminate H | split; reflexivity].
Qed.

Lemma min_defined (x y : number) :
  le (min x y) (min x y) = true -> le x x = true /\ le y y = true.
Proof.
  unfold min. rewrite <- !JsOrder.isNaN_false.
  destruct (isNaN x), (isNaN y); cbn [orb]; intros H;
    first [discriminate H | split; reflexivity].
Qed.

(** A maximum that is a number is above the start and every argument. *)
Lemma fold_max_upper (xs : list number) :
  forall acc : number,
  le (fold_left max xs acc) (fold_left max xs acc) = true ->
  le acc (fold_left max xs acc) = true
  /\ forall x, x ∈ xs -> le x (fold_left max xs acc) = true.
Proof.
  induction xs as [|x xs IH]; intros acc Hm; cbn [fold_left] in *.
  - split; [exact Hm|]. intros x Hx. inversion Hx.
  - destruct (IH _ Hm) as [Hacc Hxs].
    destruct (max_defined _ _ (JsOrder.le_refl_l _ _ Hacc)) as [Ha Hx].
    split.
    + eapply JsOrder.le_trans; [apply (JsOrder.le_max_l _ _ Ha Hx) | exact Hacc].
    + intros y Hy. apply elem_of_cons in Hy as [->|Hy]; [|now apply Hxs].
      eapply JsOrder.le_trans; [apply (JsOrder.le_max_r _ _ Ha Hx) | exact Hacc].
Qed.

Lemma fold_min_lower (xs : list number) :
  forall acc : number,
  le (fold_left min xs acc) (fold_left min xs acc) = true ->
  le (fold_left min xs acc) acc = true
  /\ forall x, x ∈ xs -> le (fold_left min xs acc) x = true.
Proof.
  induction xs as [|x xs IH]; intros acc Hm; cbn [fold_left] in *.
  - split; [exact Hm|]. intros x Hx. inversion Hx.
  - destruct (IH _ Hm) as [Hacc Hxs].
    destruct (min_defined _ _ (JsOrder.le_refl_r _ _ Hacc)) as [Ha Hx].
    split.
    + eapply JsOrder.le_trans; [exact Hacc | apply (JsOrder.le_min_l _ _ Ha Hx)].
    + intros y Hy. apply elem_of_cons in Hy as [->|Hy]; [|now apply Hxs].
      eapply JsOrder.le_trans; [exact Hacc | apply (JsOrder.le_min_r _ _ Ha Hx)].
Qed.

End MathMaxMin.

(** ** Aggregation of hourly bars *)

Section Aggregation.
Import MarketData.

(** The bar that the group starting at position [4 * k] gives. *)
Definition groupAt (bars : list Kline.t) (k : nat) : option Kline.t :=
  (fun first => aggregateGroup first (take 4 (drop (4 * k) bars)))
  <$> bars !! (4 * k)%nat.

Lemma groups_done (n k : nat) : (n <= 4 * k)%nat -> ((n + 3) / 4 - k = 0)%nat.
Proof.
  intros H. assert ((n + 3) / 4 < S k)%nat; [|lia].
  apply Nat.Div0.div_lt_upper_bound. lia.
Qed.

Lemma groups_left (n k : nat) :
  (4 * k < n)%nat -> ((n + 3) / 4 - k = S ((n + 3) / 4 - S k))%nat.
Proof.
  intros H. assert (S k <= (n + 3) / 4)%nat; [|lia].
  apply Nat.div_le_lower_bound; lia.
Qed.

(** The loop pushes the bars of the groups that remain, in order. *)
Lemma aggregateLoop_groups (bars : list Kline.t) (fuel : nat) :
  forall (k : nat) (result : list Kline.t),
  (length bars <= 4 * k + 4 * fuel)%nat ->
  exists outs : list Kline.t,
    aggregateLoop fuel bars (4 * k) result = result ++ outs
    /\ Forall2 (fun j out => groupAt bars j = Some out)
         (seq k ((length bars + 3) / 4 - k)) outs.
Proof.
  induction fuel as [|fuel IH]; intros k result Hfuel; cbn [aggregateLoop].
  - exists []. rewrite app_nil_r. split; [reflexivity|].
    rewrite groups_done by lia. constructor.
  - destruct (Nat.ltb_spec (4 * k) (length bars)) as [Hk|Hk].
    + destruct (lookup_lt_is_Some_2 bars (4 * k) Hk) as [first Hfirst].
      assert (Hgroup : exists rest, take 4 (drop (4 * k) bars) = first :: rest).
      { destruct (drop (4 * k) bars) as [|b rest] eqn:Hdrop.
        - apply (f_equal length) in Hdrop. rewrite length_drop in Hdrop.
          cbn in Hdrop. lia.
        - exists (take 3 rest). cbn [take]. f_equal.
          pose proof (lookup_drop bars (4 * k) 0) as H0.
          rewrite Hdrop, Nat.add_0_r, Hfirst in H0. now injection H0. }
      destruct Hgroup as [rest Hgroup]. rewrite Hgroup.
      replace (4 * k + 4)%nat with (4 * S k)%nat by lia.
      destruct (IH (S k) (result ++ [aggregateGroup first (first :: rest)])
                  ltac:(lia)) as (outs & -> & Houts).
      exists (aggregateGroup first (first :: rest) :: outs).
      split; [now rewrite <- app_assoc|].
      rewrite groups_left by exact Hk. cbn [seq]. constructor; [|exact Houts].
      unfold groupAt. now rewrite Hfirst, Hgroup.
    + exists []. rewrite app_nil_r. split; [reflexivity|].
      rewrite groups_done by lia. constructor.
Qed.

End Aggregation.

(** X27. [aggregateTo4H] turns every four bars, and what remains at the
    end, into one bar: [ceil(n / 4)] bars come out of [n]; the bar at [k]
    has the time and the open of the bar at [4 k] and the close of the
    last bar of its group; its high, when it is a number, is not below the
    high of any bar of the group, and its low not above any low. *)
Theorem aggregateTo4H_groups (bars : list MarketData.Kline.t) :
  length (MarketData.aggregateTo4H bars) = ((length bars + 3) / 4)%nat
  /\ forall (k : nat) (out : MarketData.Kline.t),
       MarketData.aggregateTo4H bars !! k = Some out ->
       exists first : MarketData.Kline.t,
         bars !! (4 * k)%nat = Some first
         /\ MarketData.Kline.time out = MarketData.Kline.time first
         /\ MarketData.Kline.open out = MarketData.Kline.open first
         /\ MarketData.Kline.close
              <$> bars !! ((4 * k + 3) `min` (length bars - 1))%nat
            = Some (MarketData.Kline.close out)
         /\ forall (j : nat) (b : MarketData.Kline.t),
              (4 * k <= j < 4 * k + 4)%nat -> bars !! j = Some b ->
              (Js.isNaN (MarketData.Kline.high out) = false ->
               Js.le (MarketData.Kline.high b) (MarketData.Kline.high out) = true)
              /\ (Js.isNaN (MarketData.Kline.low out) = false ->
                  Js.le (MarketData.Kline.low out) (MarketData.Kline.low b) = true).
Proof.
  unfold MarketData.aggregateTo4H.
  destruct (aggregateLoop_groups bars (length bars) 0 [] ltac:(lia))
    as (outs & Hrun & Houts).
  change (4 * 0)%nat with 0%nat in Hrun. rewrite Hrun, app_nil_l.
  rewrite Nat.sub_0_r in Houts. split.
  - rewrite <- (Forall2_length _ _ _ Houts). apply length_seq.
  - intros k out Hout.
    destruct (Forall2_lookup_r _ _ _ _ _ Houts Hout) as (k' & Hk' & Hgroup).
    apply lookup_seq in Hk' as [-> Hk]. change (0 + k)%nat with k in Hgroup.
    unfold groupAt in Hgroup.
    destruct (bars !! (4 * k)%nat) as [first|] eqn:Hfirst; [|discriminate].
    cbn [fmap option_fmap option_map] in Hgroup. apply Some_inj in Hgroup.
    subst out. exists first.
    pose proof (lookup_lt_Some _ _ _ Hfirst) as Hlt.
    split; [reflexivity|]. split; [reflexivity|]. split; [reflexivity|]. split.
    + cbn [MarketData.aggregateGroup MarketData.Kline.close].
      rewrite last_lookup, length_take, length_drop.
      rewrite lookup_take_lt, lookup_drop by lia.
      replace (4 * k + Nat.pred (4 `min` (length bars - 4 * k)))%nat
        with ((4 * k + 3) `min` (length bars - 1))%nat by lia.
      destruct (lookup_lt_is_Some_2 bars ((4 * k + 3) `min` (length bars - 1)))
        as [b ->]; [lia | reflexivity].
    + intros j b Hj Hb.
      assert (Hin : b ∈ take 4 (drop (4 * k) bars)).
      { apply list_elem_of_lookup. exists (j - 4 * k)%nat.
        rewrite lookup_take_lt, lookup_drop by lia.
        now replace (4 * k + (j - 4 * k))%nat with j by lia. }
      cbn [MarketData.aggregateGroup MarketData.Kline.high MarketData.Kline.low].
      unfold SignalEngine.mathMax, SignalEngine.mathMin. split; intros Hnum.
      * apply JsOrder.isNaN_false in Hnum.
        apply (fold_max_upper _ _ Hnum). now apply list_elem_of_fmap_2.
      * apply JsOrder.isNaN_false in Hnum.
        apply (fold_min_lower _ _ Hnum). now apply list_elem_of_fmap_2.
Qed.

(** ** The detectors and the deduplication map *)

Section DetectorFacts.
Import SignalEngine.

Variable ids : nat -> string.
Variable clock : nat -> Z.
Variable toFixed : Js.number -> nat -> string.

(** [isDuplicateNow] answers what [isDuplicate] answers at the next
    reading of the clock; it changes neither the map nor the identifiers
    drawn. *)
Lemma isDuplicateNow_spec (w : World.t) (symbol : string) (timeframe : Timeframe)
    (type : SignalType) :
  (isDuplicateNow clock w symbol timeframe type).1
  = isDuplicate (World.signalHistory w) (clock (World.clockReads w))
      symbol timeframe type
  /\ World.signalHistory (isDuplicateNow clock w symbol timeframe type).2
     = World.signalHistory w
  /\ World.nanoidCalls (isDuplicateNow clock w symbol timeframe type).2
     = World.nanoidCalls w.
Proof.
  unfold isDuplicateNow, isDuplicate.
  destruct (World.signalHistory w !! dedupKey symbol timeframe type) as [last|];
    [|repeat split].
  destruct (last =? 0); repeat split.
Qed.

(** A key marked at a time that is not 0 is a duplicate while the window
    lasts. *)
Lemma isDuplicateNow_marked (w : World.t) (symbol : string)
    (timeframe : Timeframe) (type : SignalType) (t : Z) :
  World.signalHistory w !! dedupKey symbol timeframe type = Some t ->
  t <> 0 -> clock (World.clockReads w) - t < DEDUP_WINDOW_MS ->
  (isDuplicateNow clock w symbol timeframe type).1 = true.
Proof.
  intros Hkey Ht Hwindow.
  rewrite (proj1 (isDuplicateNow_spec w symbol timeframe type)).
  unfold isDuplicate. rewrite Hkey.
  destruct (Z.eqb_spec t 0) as [?|_]; [contradiction|]. now apply Z.ltb_lt.
Qed.

Lemma markTriggeredNow_spec (w : World.t) (symbol : string)
    (timeframe : Timeframe) (type : SignalType) :
  markTriggeredNow clock w symbol timeframe type
  = World.mk
      (markTriggered (World.signalHistory w) (clock (World.clockReads w))
         symbol timeframe type)
      (World.nanoidCalls w) (S (World.clockReads w)).
Proof. reflexivity. Qed.

(** The positions that [recentBars] holds. *)
Lemma sliceFromEnd_lookup {A} (a : list A) (back stop i : nat) (x : A) :
  a !! i = Some x ->
  (length a - back <= i)%nat -> (i + stop < length a)%nat ->
  x ∈ sliceFromEnd a back stop.
Proof.
  intros Hx Hfrom Hto. unfold sliceFromEnd.
  apply list_elem_of_lookup. exists (i - (length a - back))%nat.
  rewrite lookup_take_lt, lookup_drop by lia.
  now replace (length a - back + (i - (length a - back)))%nat with i by lia.
Qed.

End DetectorFacts.

(** X28. [detectKeyLevelBreakout] only ever reports an upward breakout
    ([prevLow] is computed and never used), and a signal means that the
    last close is strictly above the high of every one of the 20 bars
    before the last (of the 19, when there are 20 bars in all): the signal
    carries the last close as its price and the highest of those highs as
    its key level, and it was not a duplicate when the clock was read. *)
Theorem detectKeyLevelBreakout_above_highs (ids : nat -> string)
    (clock : nat -> Z) (toFixed : Js.number -> nat -> string)
    (bars : list OHLCBar.t) (symbol : string) (timeframe : Timeframe)
    (market : MarketType) (w : SignalEngine.World.t) :
  Forall (fun s =>
    Signal.type s = key_level_breakout
    /\ SignalEngine.isDuplicate (SignalEngine.World.signalHistory w)
         (clock (SignalEngine.World.clockReads w)) symbol timeframe
         key_level_breakout = false
    /\ exists (lastBar : OHLCBar.t) (prevHigh : Js.number),
         bars !! (length bars - 1)%nat = Some lastBar
         /\ Signal.price s = OHLCBar.close lastBar
         /\ Signal.keyLevels s = Some (KeyLevels.mk (Some prevHigh) None None None)
         /\ Js.lt prevHigh (OHLCBar.close lastBar) = true
         /\ forall (i : nat) (b : OHLCBar.t),
              bars !! i = Some b ->
              (length bars - 21 <= i)%nat -> (i + 1 < length bars)%nat ->
              Js.le (OHLCBar.high b) prevHigh = true
              /\ Js.lt (OHLCBar.high b) (OHLCBar.close lastBar) = true)
    (SignalEngine.detectKeyLevelBreakout ids clock toFixed bars symbol
       timeframe market w).1.
Proof.
  unfold SignalEngine.detectKeyLevelBreakout.
  destruct (Nat.ltb_spec (length bars) 20) as [Hshort|Hlong]; [constructor|].
  destruct (bars !! (length bars - 1)%nat) as [lastBar|] eqn:Hlast;
    [|constructor].
  destruct (bars !! (length bars - 2)%nat) as [prevBar|]; [|constructor].
  set (recentBars := SignalEngine.sliceFromEnd bars _ 1).
  set (prevHigh := SignalEngine.mathMax (OHLCBar.high <$> recentBars)).
  destruct (Js.le (OHLCBar.close prevBar) prevHigh
            && Js.gt (OHLCBar.close lastBar) prevHigh) eqn:Hcross;
    [|constructor].
  apply andb_true_iff in Hcross as [_ Habove]. rewrite JsOrder.gt_lt in Habove.
  pose proof (isDuplicateNow_spec clock w symbol timeframe key_level_breakout)
    as (Hdup & _ & _).
  destruct (SignalEngine.isDuplicateNow clock w symbol timeframe
              key_level_breakout) as [duplicate w1].
  cbn [fst] in Hdup. destruct duplicate; [constructor|].
  cbn [fst]. constructor; [|constructor].
  split; [reflexivity|]. split; [now symmetry|].
  exists lastBar, prevHigh. split; [reflexivity|]. split; [reflexivity|].
  split; [reflexivity|]. split; [exact Habove|].
  intros i b Hb Hfrom Hto.
  assert (Hle : Js.le (OHLCBar.high b) prevHigh = true).
  { pose proof (JsOrder.le_refl_l _ _ (JsOrder.lt_le _ _ Habove)) as Hnum.
    apply (fold_max_upper _ _ Hnum). apply list_elem_of_fmap_2.
    apply (sliceFromEnd_lookup _ _ _ i); [exact Hb | lia | lia]. }
  split; [exact Hle|]. exact (le_lt_trans _ _ _ Hle Habove).
Qed.

(** X29. A call of [detectMACDSignals] reports nothing, and then leaves the
    map and the identifiers as they were, or it reports exactly one signal:
    a golden cross or a death cross, never both, with the next identifier,
    for a key that was not a duplicate, and the map then holds for that key
    the last reading of the clock. When that reading is not 0, the same
    call made again before the window has passed reports nothing. *)
Theorem detectMACDSignals_one_signal (ids : nat -> string) (clock : nat -> Z)
    (toFixed : Js.number -> nat -> string) (macd : list MACDPoint.t)
    (symbol : string) (timeframe : Timeframe) (market : MarketType)
    (currentPrice : Js.number) (w : SignalEngine.World.t) :
  let detect :=
    SignalEngine.detectMACDSignals ids clock toFixed macd symbol timeframe
      market currentPrice in
  ((detect w).1 = []
   /\ SignalEngine.World.signalHistory (detect w).2
      = SignalEngine.World.signalHistory w
   /\ SignalEngine.World.nanoidCalls (detect w).2
      = SignalEngine.World.nanoidCalls w)
  \/ exists (s : Signal.t) (t : Z),
       (detect w).1 = [s]
       /\ (Signal.type s = macd_golden_cross \/ Signal.type s = macd_death_cross)
       /\ Signal.id s = ids (SignalEngine.World.nanoidCalls w)
       /\ SignalEngine.World.nanoidCalls (detect w).2
          = S (SignalEngine.World.nanoidCalls w)
       /\ Signal.symbol s = symbol /\ Signal.timeframe s = timeframe
       /\ Signal.market s = market /\ Signal.price s = currentPrice
       /\ SignalEngine.isDuplicate (SignalEngine.World.signalHistory w)
            (clock (SignalEngine.World.clockReads w)) symbol timeframe
            (Signal.type s) = false
       /\ t = clock (SignalEngine.World.clockReads (detect w).2 - 1)%nat
       /\ SignalEngine.World.signalHistory (detect w).2
          = SignalEngine.markTriggered (SignalEngine.World.signalHistory w) t
              symbol timeframe (Signal.type s)
       /\ (t <> 0 ->
           clock (SignalEngine.World.clockReads (detect w).2) - t
           < SignalEngine.DEDUP_WINDOW_MS ->
           (detect (detect w).2).1 = []).
Proof.
  cbv zeta. unfold SignalEngine.detectMACDSignals.
  destruct (length macd <? 2)%nat; [left; repeat split|].
  destruct (macd !! (length macd - 1)%nat) as [last|]; [|left; repeat split].
  destruct (macd !! (length macd - 2)%nat) as [prev|]; [|left; repeat split].
  destruct (Js.le (MACDPoint.dif prev) (MACDPoint.dea prev)
            && Js.gt (MACDPoint.dif last) (MACDPoint.dea last)) eqn:Hgolden.
  - (* golden cross: the death cross is excluded *)
    assert (Hdeath : Js.ge (MACDPoint.dif prev) (MACDPoint.dea prev)
                     && Js.lt (MACDPoint.dif last) (MACDPoint.dea last) = false).
    { apply andb_true_iff in Hgolden as [_ Hup]. rewrite JsOrder.gt_lt in Hup.
      destruct (Js.lt (MACDPoint.dif last) (MACDPoint.dea last)) eqn:Hdown;
        [|apply andb_false_r].
      destruct (lt_exclusive _ _ Hup Hdown). }
    rewrite Hdeath.
    pose proof (isDuplicateNow_spec clock w symbol timeframe macd_golden_cross)
      as (Hdup & Hmap & Hids).
    destruct (SignalEngine.isDuplicateNow clock w symbol timeframe
                macd_golden_cross) as [duplicate w1].
    cbn [fst snd] in Hdup, Hmap, Hids.
    destruct duplicate; [left; repeat split; assumption|].
    right. cbn [fst snd SignalEngine.nanoid SignalEngine.dateNow].
    rewrite markTriggeredNow_spec.
    cbn [SignalEngine.World.signalHistory SignalEngine.World.nanoidCalls
         SignalEngine.World.clockReads].
    eexists _, _. split; [reflexivity|].
    cbn [Signal.type Signal.id Signal.symbol Signal.timeframe Signal.market
         Signal.price].
    split; [now left|]. split; [now rewrite Hids|]. split; [now rewrite Hids|].
    do 4 (split; [reflexivity|]). split; [now symmetry|].
    split; [reflexivity|]. split.
    + rewrite Hmap. reflexivity.
    + intros Ht Hwindow.
      match goal with
      | |- context [SignalEngine.isDuplicateNow clock ?w2 _ _ _] =>
          pose proof (isDuplicateNow_marked clock w2 symbol timeframe
                        macd_golden_cross _
                        (lookup_insert_eq _ _ _) Ht Hwindow) as Hagain;
          destruct (SignalEngine.isDuplicateNow clock w2 symbol timeframe
                      macd_golden_cross) as [again w3]
      end.
      cbn [fst] in Hagain. subst again. reflexivity.
  - (* no golden cross *)
    destruct (Js.ge (MACDPoint.dif prev) (MACDPoint.dea prev)
              && Js.lt (MACDPoint.dif last) (MACDPoint.dea last)) eqn:Hdeath;
      [|left; repeat split].
    pose proof (isDuplicateNow_spec clock w symbol timeframe macd_death_cross)
      as (Hdup & Hmap & Hids).
    destruct (SignalEngine.isDuplicateNow clock w symbol timeframe
                macd_death_cross) as [duplicate w1].
    cbn [fst snd] in Hdup, Hmap, Hids.
    destruct duplicate; [left; repeat split; assumption|].
    right. cbn [fst snd app SignalEngine.nanoid SignalEngine.dateNow].
    rewrite markTriggeredNow_spec.
    cbn [SignalEngine.World.signalHistory SignalEngine.World.nanoidCalls
         SignalEngine.World.clockReads].
    eexists _, _. split; [reflexivity|].
    cbn [Signal.type Signal.id Signal.symbol Signal.timeframe Signal.market
         Signal.price].
    split; [now right|]. split; [now rewrite Hids|]. split; [now rewrite Hids|].
    do 4 (split; [reflexivity|]). split; [now symmetry|].
    split; [reflexivity|]. split.
    + rewrite Hmap. reflexivity.
    + intros Ht Hwindow.
      match goal with
      | |- context [SignalEngine.isDuplicateNow clock ?w2 _ _ _] =>
          pose proof (isDuplicateNow_marked clock w2 symbol timeframe
                        macd_death_cross _
                        (lookup_insert_eq _ _ _) Ht Hwindow) as Hagain;
          destruct (SignalEngine.isDuplicateNow clock w2 symbol timeframe
                      macd_death_cross) as [again w3]
      end.
      cbn [fst] in Hagain. subst again. reflexivity.
Qed.

(** A golden cross on the daily timeframe, reported once: strength 66, the
    first identifier, the time of the first reading of the clock; the key
    is marked with the second reading, and the same call made again is
    silent. *)
Lemma detectMACDSignals_example :
  let clock := fun n : nat => 1000 + Z.of_nat n in
  let toFixed := fun (_ : Js.number) (_ : nat) => "0.0000" in
  let macd := [MACDPoint.mk 1 0 1 (-2); MACDPoint.mk 2 2 1 2]%float in
  let detect :=
    SignalEngine.detectMACDSignals Examples.ids clock toFixed macd "EURUSD"
      TF_1D fx 1.5%float in
  let first := detect (SignalEngine.World.mk ∅ 0 0) in
  (fun s => (Signal.type s, Signal.strength s, Signal.id s, Signal.time s))
    <$> first.1
  = [(macd_golden_cross, 66%float, "id-0", 1000)]
  /\ SignalEngine.World.signalHistory first.2
       !! SignalEngine.dedupKey "EURUSD" TF_1D macd_golden_cross = Some 1001
  /\ (detect first.2).1 = [].
Proof. vm_compute. repeat split. Qed.

(** ** Third-buy signals as signals of the store *)

Section ThirdBuyConversion.
Import SignalEngine.

Variable toFixed : Js.number -> nat -> string.
Variable bis : list Bi.t.
Variable atrValues : list Js.number.
Variable params : ChanlunParams.t.
Variable symbol : string.
Variable timeframe : Timeframe.
Variable market : MarketType.

(** The signal [s] made of the third-buy signal [tb] of the engine. *)
Definition convertedFrom (tb : ThirdBuySignal.t) (s : Signal.t) : Prop :=
  Signal.id s = ThirdBuySignal.id tb
  /\ Signal.symbol s = symbol
  /\ Signal.timeframe s = timeframe
  /\ Signal.market s = market
  /\ Js.ge (Signal.strength s) 50%float = true
  /\ ((ThirdBuySignal.status tb = confirmed
       /\ Signal.type s = third_buy_confirmed
       /\ Signal.strength s = 85%float
       /\ ThirdBuySignal.confirmPrice tb = Some (Signal.price s)
       /\ exists t, ThirdBuySignal.confirmTime tb = Some t
                    /\ Signal.time s = mulInteger t 1000
                    /\ (Z.abs t * 1000 < 2 ^ 53 -> Signal.time s = t * 1000))
      \/ (ThirdBuySignal.status tb = candidate
          /\ Signal.type s = third_buy_candidate
          /\ Signal.strength s = 55%float
          /\ Signal.price s
             = default (ThirdBuySignal.breakoutPrice tb)
                 (ThirdBuySignal.pullbackLow tb)
          /\ (let t := default (ThirdBuySignal.breakoutTime tb)
                          (ThirdBuySignal.pullbackTime tb) in
              Signal.time s = mulInteger t 1000
              /\ (Z.abs t * 1000 < 2 ^ 53 -> Signal.time s = t * 1000)))).

(** Below 2^53 the product of two integers is exact. *)
Lemma mulInteger_exact (x y : Z) :
  Z.abs x * Z.abs y < 2 ^ 53 -> mulInteger x y = x * y.
Proof.
  intros Hsmall. unfold mulInteger, roundInteger.
  rewrite Z.abs_mul. now rewrite (proj2 (Z.ltb_lt _ _) Hsmall).
Qed.

(** Past 2^53 it is rounded: the product of [2^53 - 1] and 1000 is 24
    below the exact one. *)
Lemma mulInteger_rounds :
  mulInteger 9007199254740991 1000 = 9007199254740990976
  /\ 9007199254740991 * 1000 = 9007199254740991000.
Proof. split; vm_compute; reflexivity. Qed.

Lemma signalOf_converted (z : Zhongshu.t) (tb : ThirdBuySignal.t) :
  signalOf bis atrValues params symbol timeframe market z tb ->
  convertedFrom tb (convertThirdBuyToSignal toFixed tb).
Proof.
  intros (_ & Hsymbol & Htf & Hmarket & i & breakoutBi & _ & _ & _ & Hcase).
  unfold convertedFrom, convertThirdBuyToSignal.
  cbn [Signal.id Signal.symbol Signal.timeframe Signal.market Signal.strength
       Signal.type Signal.price Signal.time].
  do 4 (split; [assumption || reflexivity|]).
  destruct Hcase as [(_ & Hstatus & Hlow & Htime & HcTime & HcPrice)
                    |(pullbackBi & _ & _ & _ & (Hlow & Htime) & Hcase)].
  - rewrite Hstatus, Hlow, Htime, HcTime, HcPrice.
    split; [reflexivity|]. right. do 4 (split; [reflexivity|]).
    split; [reflexivity|]. intros Hsmall. now apply mulInteger_exact.
  - destruct Hcase as [(Hstatus & HcTime & HcPrice & _)
                      |(confirmBi & _ & _ & _ & Hstatus & HcTime & HcPrice)].
    + rewrite Hstatus, Hlow, Htime, HcTime, HcPrice.
      split; [reflexivity|]. right. do 4 (split; [reflexivity|]).
      split; [reflexivity|]. intros Hsmall. now apply mulInteger_exact.
    + rewrite Hstatus, HcTime, HcPrice.
      split; [reflexivity|]. left. do 4 (split; [reflexivity|]).
      eexists. split; [reflexivity|]. split; [reflexivity|].
      intros Hsmall. now apply mulInteger_exact.
Qed.

End ThirdBuyConversion.

(** X30. [convertThirdBuyToSignal] on the signals of [detectThirdBuys]:
    every one converts to a signal with the same identifier and the symbol,
    timeframe and market of the call whose strength passes the threshold of
    50; a confirmed one gives [third_buy_confirmed] with strength 85 and the
    price and time of the confirmation, every other one is a candidate and
    gives [third_buy_candidate] with strength 55 and the price and time of
    the pullback, or of the breakout when no bi followed it. The time is
    the product of the time in seconds and 1000 as numbers multiply:
    exact while it stays below 2^53, rounded beyond. *)
Theorem convertThirdBuyToSignal_detected (toFixed : Js.number -> nat -> string)
    (ids : nat -> string) (bis : list Bi.t) (atrValues : list Js.number)
    (params : ChanlunParams.t) (symbol : string) (timeframe : Timeframe)
    (market : MarketType) (zhongshus : list Zhongshu.t) (n : nat) :
  Forall (fun tb =>
            convertedFrom symbol timeframe market tb
              (SignalEngine.convertThirdBuyToSignal toFixed tb))
    (detectThirdBuys ids bis atrValues params symbol timeframe market
       zhongshus n).2.
Proof.
  revert n. induction zhongshus as [|z rest IH]; intros n; [constructor|].
  rewrite detectThirdBuys_cons. cbn [snd]. apply Forall_app. split.
  - eapply Forall_impl; [apply thirdBuyStep_signalOf|].
    intros tb Htb. eapply signalOf_converted, Htb.
  - apply IH.
Qed.

(** ** Worked runs of the detectors and of the aggregation *)

(** Nineteen bars with high 10 and close 9 and a last bar that closes at
    11: one upward breakout over the 19 bars before, on the five-minute
    timeframe with strength 55.5. *)
Lemma detectKeyLevelBreakout_example :
  let flat := fun i : nat =>
    OHLCBar.mk (Z.of_nat i) 9%float 10%float 9%float 9%float None in
  let bars :=
    (flat <$> seq 0 19)
    ++ [OHLCBar.mk 19 11%float 12%float 11%float 11%float None] in
  (fun s => (Signal.type s, Signal.strength s, Signal.price s,
             Signal.keyLevels s))
    <$> (SignalEngine.detectKeyLevelBreakout Examples.ids
           (fun n => 1000 + Z.of_nat n) (fun _ _ => "10.0000") bars "AAPL"
           TF_5m us (SignalEngine.World.mk ∅ 0 0)).1
  = [(key_level_breakout, 55.5%float, 11%float,
      Some (KeyLevels.mk (Some 10%float) None None None))].
Proof. vm_compute. reflexivity. Qed.

(** Five hourly bars give two bars: the first of four hours, the second of
    the hour that remains. *)
Lemma aggregateTo4H_example :
  let hour := fun (t o h l c : Z) =>
    MarketData.Kline.mk t (Js.ofZ o) (Js.ofZ h) (Js.ofZ l) (Js.ofZ c) 1%float in
  MarketData.aggregateTo4H
    [hour 0 1 3 1 2; hour 1 2 5 2 4; hour 2 4 4 0 1; hour 3 1 2 1 2;
     hour 4 2 6 2 5]
  = [MarketData.Kline.mk 0 1%float 5%float 0%float 2%float 4%float;
     MarketData.Kline.mk 4 2%float 6%float 2%float 5%float 1%float].
Proof. vm_compute. reflexivity. Qed.
